(** * Workiva IGAM reporting tool: extraction, expansion and notification

    A shallow embedding of [src/python/W_IGAM_Request_new.py]
    ([extract_user_data], [save_to_csv], [send_email]) and the properties
    of the pipeline proved over it.

    Conventions of the embedding.
    - Python values that come from JSON or from the configuration dictionary
      are terms of [pyval]; a [dict] is an association list whose first
      binding of a key is the live one.
    - Text is [string]: a sequence of 8-bit characters.  [lower] and
      [strip] act on the ASCII range, where they agree with Python's [str]
      methods; what is proved of lower case and of surrounding white
      space is stated for ASCII text ([ascii_only]).  User names are
      compared character code by character code.
    - A Python exception is a value [Raise e] of the [result] type; the
      operating system, the clock and the SMTP servers are an environment of
      oracles, and every call made to them is appended to a trace.
    - Calls to [logger] and the debugging tallies that are written but never
      read ([domain_counts], [roles_distribution], [role_counts],
      [unique_roles], timings) have no influence on any returned value and
      are left out. *)

From Stdlib Require Import List String Ascii Bool Arith ZArith Lia DecimalString.
From Stdlib Require Import Sorting.Sorted Sorting.Permutation.
Import ListNotations.

Local Open Scope string_scope.
Local Open Scope list_scope.

Set Implicit Arguments.
Set Warnings "-register-all".

(* ================================================================== *)
(** * Python string primitives *)

Module PyStr.

(** [str.lower] on the ASCII range: 'A'..'Z' move to 'a'..'z'. *)
Definition lower_char (c : ascii) : ascii :=
  let n := nat_of_ascii c in
  if ((65 <=? n) && (n <=? 90))%nat then ascii_of_nat (n + 32) else c.

Fixpoint lower (s : string) : string :=
  match s with
  | EmptyString => EmptyString
  | String c s' => String (lower_char c) (lower s')
  end.

(** [s.endswith(suf)]. *)
Fixpoint endswith (s suf : string) : bool :=
  String.eqb s suf ||
  match s with
  | EmptyString => false
  | String _ s' => endswith s' suf
  end.

(** [s.split(c)] for a one-character separator: never empty. *)
Fixpoint split (c : ascii) (s : string) : list string :=
  match s with
  | EmptyString => [EmptyString]
  | String a s' =>
      if Ascii.eqb a c then EmptyString :: split c s'
      else match split c s' with
           | p :: ps => String a p :: ps
           | [] => [String a EmptyString]
           end
  end.

(** Characters removed by [str.strip()]: TAB LF VT FF CR, FS GS RS US and
    the space. *)
Definition is_space (c : ascii) : bool :=
  let n := nat_of_ascii c in
  (((9 <=? n) && (n <=? 13)) || ((28 <=? n) && (n <=? 32)))%nat.

Fixpoint lstrip (s : string) : string :=
  match s with
  | EmptyString => EmptyString
  | String a s' => if is_space a then lstrip s' else s
  end.

Fixpoint rstrip (s : string) : string :=
  match s with
  | EmptyString => EmptyString
  | String a s' =>
      match rstrip s' with
      | EmptyString => if is_space a then EmptyString else String a EmptyString
      | r => String a r
      end
  end.

Definition strip (s : string) : string := lstrip (rstrip s).

(** [sep.join(l)]. *)
Fixpoint join (sep : string) (l : list string) : string :=
  match l with
  | [] => EmptyString
  | [x] => x
  | x :: rest => x ++ sep ++ join sep rest
  end.

(** Truth value of a [str]. *)
Definition nonempty (s : string) : bool :=
  match s with EmptyString => false | _ => true end.

(** [a in s] for a one-character [a]. *)
Fixpoint has_char (a : ascii) (s : string) : bool :=
  match s with
  | EmptyString => false
  | String b s' => Ascii.eqb a b || has_char a s'
  end.

(** [sub in s]. *)
Fixpoint contains (sub s : string) : bool :=
  String.prefix sub s ||
  match s with
  | EmptyString => false
  | String _ s' => contains sub s'
  end.

(** The one-character strings a [str] yields when iterated. *)
Fixpoint chars (s : string) : list string :=
  match s with
  | EmptyString => []
  | String a s' => String a EmptyString :: chars s'
  end.

End PyStr.

(* ================================================================== *)
(** * Python values and exceptions *)

(** The exception classes the program can meet.  [PermissionError],
    [GaiError] and [ConnectionRefusedError] are subclasses of [OSError]
    (which is [IOError]); [SMTPAuthenticationError] is a subclass of
    [SMTPException]; all of them are subclasses of [Exception]. *)
Inductive exn : Type :=
| AttributeError
| TypeError
| KeyError
| ValueError
| PermissionError
| OSError
| GaiError
| ConnectionRefusedError
| SMTPAuthenticationError
| SMTPException
| OtherException.

Inductive result (A : Type) : Type :=
| Ok (a : A)
| Raise (e : exn).

Arguments Ok {A} a.
Arguments Raise {A} e.

Definition rbind {A B : Type} (m : result A) (k : A -> result B) : result B :=
  match m with
  | Ok a => k a
  | Raise e => Raise e
  end.

Declare Scope result_scope.
Delimit Scope result_scope with result.
Notation "x <- m ;; k" := (rbind m (fun x => k))
  (at level 61, m at next level, right associativity) : result_scope.
Notation "m ;;; k" := (rbind m (fun _ => k))
  (at level 61, right associativity) : result_scope.
Local Open Scope result_scope.

Fixpoint mapM {A B : Type} (f : A -> result B) (l : list A) : result (list B) :=
  match l with
  | [] => Ok []
  | x :: xs => y <- f x ;; ys <- mapM f xs ;; Ok (y :: ys)
  end.

Fixpoint foldM {A S : Type} (f : S -> A -> result S) (l : list A) (s : S)
  : result S :=
  match l with
  | [] => Ok s
  | x :: xs => s' <- f s x ;; foldM f xs s'
  end.

(** A float is known to the program only through its truth value, its
    [str()] and its [int()]. *)
Record pyfloat : Type := {
  f_nonzero : bool;
  f_str : string;
  f_int : result Z
}.

Inductive pyval : Type :=
| PNone
| PBool (b : bool)
| PInt (n : Z)
| PFloat (f : pyfloat)
| PStr (s : string)
| PList (l : list pyval)
| PDict (kvs : list (string * pyval)).

Definition pydict : Type := list (string * pyval).

(** [bool(v)]. *)
Definition truthy (v : pyval) : bool :=
  match v with
  | PNone => false
  | PBool b => b
  | PInt n => negb (Z.eqb n 0)
  | PFloat f => f_nonzero f
  | PStr s => PyStr.nonempty s
  | PList l => match l with [] => false | _ => true end
  | PDict kvs => match kvs with [] => false | _ => true end
  end.

Fixpoint dict_lookup (kvs : pydict) (k : string) : option pyval :=
  match kvs with
  | [] => None
  | (k', v) :: rest => if String.eqb k' k then Some v else dict_lookup rest k
  end.

(** Keys in insertion order, each once. *)
Fixpoint dict_keys (kvs : pydict) : list string :=
  match kvs with
  | [] => []
  | (k, _) :: rest =>
      k :: filter (fun k' => negb (String.eqb k' k)) (dict_keys rest)
  end.

(** [v.get(k, d)]: only a dict has the method. *)
Definition py_get (v : pyval) (k : string) (d : pyval) : result pyval :=
  match v with
  | PDict kvs =>
      match dict_lookup kvs k with
      | Some x => Ok x
      | None => Ok d
      end
  | _ => Raise AttributeError
  end.

(** [v[k]] for a string [k]. *)
Definition py_index (v : pyval) (k : string) : result pyval :=
  match v with
  | PDict kvs =>
      match dict_lookup kvs k with
      | Some x => Ok x
      | None => Raise KeyError
      end
  | _ => Raise TypeError
  end.

Definition is_str (k : string) (v : pyval) : bool :=
  match v with
  | PStr s => String.eqb s k
  | _ => false
  end.

(** [k in v] for a string [k]. *)
Definition py_in (k : string) (v : pyval) : result bool :=
  match v with
  | PDict kvs =>
      Ok (match dict_lookup kvs k with Some _ => true | None => false end)
  | PList l => Ok (existsb (is_str k) l)
  | PStr s => Ok (PyStr.contains k s)
  | _ => Raise TypeError
  end.

(** [len(v)]. *)
Definition py_len (v : pyval) : result nat :=
  match v with
  | PStr s => Ok (String.length s)
  | PList l => Ok (List.length l)
  | PDict kvs => Ok (List.length (dict_keys kvs))
  | _ => Raise TypeError
  end.

(** The items [for x in v] runs through. *)
Definition py_iter (v : pyval) : result (list pyval) :=
  match v with
  | PStr s => Ok (map PStr (PyStr.chars s))
  | PList l => Ok l
  | PDict kvs => Ok (map PStr (dict_keys kvs))
  | _ => Raise TypeError
  end.

Definition as_str (v : pyval) : result string :=
  match v with
  | PStr s => Ok s
  | _ => Raise TypeError
  end.

(** [sep.join(v)]: [v] must be iterable and yield only [str]. *)
Definition py_join (sep : string) (v : pyval) : result string :=
  items <- py_iter v ;;
  strs <- mapM as_str items ;;
  Ok (PyStr.join sep strs).

(** [v.lower()]. *)
Definition py_lower (v : pyval) : result string :=
  match v with
  | PStr s => Ok (PyStr.lower s)
  | _ => Raise AttributeError
  end.

(** [v.strip()]. *)
Definition py_strip (v : pyval) : result string :=
  match v with
  | PStr s => Ok (PyStr.strip s)
  | _ => Raise AttributeError
  end.

(** Decimal text of an [int]. *)
Definition str_of_Z (n : Z) : string :=
  DecimalString.NilZero.string_of_int (Z.to_int n).

(** Built-in operations of the interpreter whose text is not part of the
    program: [repr] of a container, [int] of a [str], and [str.format] with
    the single keyword [date]. *)
Record builtins : Type := {
  repr_container : pyval -> string;
  int_of_str : string -> result Z;
  format_date : string -> string -> result string
}.

(** [str(v)]. *)
Definition py_str (B : builtins) (v : pyval) : string :=
  match v with
  | PNone => "None"
  | PBool true => "True"
  | PBool false => "False"
  | PInt n => str_of_Z n
  | PFloat f => f_str f
  | PStr s => s
  | PList _ | PDict _ => repr_container B v
  end.

(* ================================================================== *)
(** * [extract_user_data] *)

(** The dictionary appended to [user_data]: four keys, in this order. *)
Record user_record : Type := {
  Username : string;
  Email : string;
  Active : string;
  Roles : string
}.

(** The variables of the extraction loop that outlive an iteration. *)
Record extract_state : Type := {
  user_data : list user_record;
  filtered_domain_count : nat;
  filtered_inactive_count : nat;
  missing_attributes_count : nat;
  valid_count : nat
}.

Definition extract_init : extract_state :=
  {| user_data := [];
     filtered_domain_count := 0;
     filtered_inactive_count := 0;
     missing_attributes_count := 0;
     valid_count := 0 |}.

(** What one iteration of the loop does to the state. *)
Inductive verdict : Type :=
| MissingAttributes
| FilteredDomain
| FilteredInactive
| Valid (r : user_record).

Definition record_verdict (st : extract_state) (v : verdict) : extract_state :=
  match v with
  | MissingAttributes =>
      {| user_data := user_data st;
         filtered_domain_count := filtered_domain_count st;
         filtered_inactive_count := filtered_inactive_count st;
         missing_attributes_count := S (missing_attributes_count st);
         valid_count := valid_count st |}
  | FilteredDomain =>
      {| user_data := user_data st;
         filtered_domain_count := S (filtered_domain_count st);
         filtered_inactive_count := filtered_inactive_count st;
         missing_attributes_count := missing_attributes_count st;
         valid_count := valid_count st |}
  | FilteredInactive =>
      {| user_data := user_data st;
         filtered_domain_count := filtered_domain_count st;
         filtered_inactive_count := S (filtered_inactive_count st);
         missing_attributes_count := missing_attributes_count st;
         valid_count := valid_count st |}
  | Valid r =>
      {| user_data := user_data st ++ [r];
         filtered_domain_count := filtered_domain_count st;
         filtered_inactive_count := filtered_inactive_count st;
         missing_attributes_count := missing_attributes_count st;
         valid_count := S (valid_count st) |}
  end.

(** Body of [for workspace in attributes['workspaceMemberships']]:
    the text appended to [workspaces]. *)
Definition workspace_info (workspace : pyval) : result string :=
  _ <- py_get workspace "workspaceId" (PStr "unknown-workspace") ;;
  roles <- py_get workspace "workspaceRoles" (PList [PStr "No role"]) ;;
  py_join ", " roles.

(** Lines 584-611: the value of [workspace_memberships] before the
    organization roles are appended. *)
Definition workspace_memberships_of (attributes : pyval) : result string :=
  wm <- py_get attributes "workspaceMemberships" PNone ;;
  if truthy wm then
    wm' <- py_index attributes "workspaceMemberships" ;;
    _ <- py_len wm' ;;
    items <- py_iter wm' ;;
    workspaces <- mapM workspace_info items ;;
    Ok (PyStr.join " | " workspaces)
  else Ok "".

(** Lines 631-638. *)
Definition append_org_roles (workspace_memberships org_roles : string) : string :=
  if PyStr.nonempty org_roles then
    if PyStr.nonempty workspace_memberships
    then workspace_memberships ++ ", " ++ org_roles
    else org_roles
  else workspace_memberships.

(** Lines 583-638: the final value of [workspace_memberships]. *)
Definition roles_of (attributes : pyval) : result string :=
  workspace_memberships <- workspace_memberships_of attributes ;;
  lic <- py_get attributes "licenses" (PList []) ;;
  _ <- py_join ", " lic ;;
  org <- py_get attributes "organizationRoles" (PList []) ;;
  org_roles <- py_join ", " org ;;
  Ok (append_org_roles workspace_memberships org_roles).

(** The domain test of line 652. *)
Definition allowed_domain (email : string) : bool :=
  PyStr.endswith email "@sce.com" || PyStr.endswith email "@edisonintl.com".

(** Lines 580-676 for a record that has [attributes]. *)
Definition process_attributes (B : builtins) (attributes : pyval)
  : result verdict :=
  workspace_memberships <- roles_of attributes ;;
  email_v <- py_get attributes "email" (PStr "") ;;
  email <- py_lower email_v ;;
  if negb (allowed_domain email) then Ok FilteredDomain
  else
    user_active <- py_get attributes "active" (PBool false) ;;
    if negb (truthy user_active) then Ok FilteredInactive
    else
      name_v <- py_get attributes "userName" (PStr "") ;;
      username <- py_lower name_v ;;
      active_v <- py_get attributes "active" (PBool false) ;;
      Ok (Valid {| Username := username;
                   Email := email;
                   Active := py_str B active_v;
                   Roles := workspace_memberships |}).

(** One iteration of [for i, user in enumerate(api_data['data'])]. *)
Definition process_user (B : builtins) (user : pyval) : result verdict :=
  _ <- py_get user "id" (PStr "unknown-id") ;;
  has_attributes <- py_in "attributes" user ;;
  if negb has_attributes then Ok MissingAttributes
  else
    attributes <- py_index user "attributes" ;;
    process_attributes B attributes.

Definition extract_step (B : builtins) (st : extract_state) (user : pyval)
  : result extract_state :=
  v <- process_user B user ;;
  Ok (record_verdict st v).

(** The whole function, with the final tallies. *)
Definition extract_user_data_state (B : builtins) (api_data : pyval)
  : result extract_state :=
  if negb (truthy api_data) then Ok extract_init
  else
    has_data <- py_in "data" api_data ;;
    if negb has_data then Ok extract_init
    else
      data <- py_index api_data "data" ;;
      _ <- py_len data ;;
      users <- py_iter data ;;
      foldM (extract_step B) users extract_init.

Definition extract_user_data (B : builtins) (api_data : pyval)
  : result (list user_record) :=
  st <- extract_user_data_state B api_data ;;
  Ok (user_data st).

(* ================================================================== *)
(** * The environment: file system, clock and SMTP servers *)

(** One SMTP conversation as the far side plays it: what each call of the
    client raises, if anything. *)
Record session : Type := {
  s_connect : option exn;
  s_starttls : option exn;
  s_login : option exn;
  s_send : option exn;
  s_quit : option exn
}.

Record environment : Type := {
  path_exists : string -> bool;
  makedirs : string -> option exn;
  open_write : string -> option exn;
  write_rows : string -> option exn;
  getsize : string -> option exn;
  read_file : string -> result string;
  hostname : string;
  today : string;
  today_compact : string;
  script_dir : string;
  run_visualization : string -> option string -> result string;
  (** the conversation met by the [n]-th connection opened by a call of
      [send_email] *)
  smtp : nat -> session
}.

(** The MIME message, by what the program puts into it. *)
Record message : Type := {
  msg_from : pyval;
  msg_to : string;
  msg_subject : string;
  msg_success : bool;
  msg_hostname : string;
  msg_elapsed : pyval;
  msg_report_note : bool;
  msg_viz_note : bool;
  msg_attachments : list (string * string)
}.

(** Calls that reach outside the process, with their outcome. *)
Inductive event : Type :=
| EvExists (p : string) (r : bool)
| EvMakedirs (p : string) (r : option exn)
| EvOpenWrite (p : string) (r : option exn)
| EvWriteRows (p : string) (header : list string) (rows : list user_record)
    (r : option exn)
| EvGetsize (p : string) (r : option exn)
| EvReadFile (p : string) (r : option exn)
| EvVisualize (script : string) (r : option exn)
| EvConnect (server port : pyval) (r : option exn)
| EvStartTLS (r : option exn)
| EvLogin (user password : string) (r : option exn)
| EvSendMessage (m : message) (r : option exn)
| EvQuit (r : option exn).

(** The mutable state a function of the module can touch: the module-level
    variable [config] and the calls made so far. *)
Record world : Type := {
  g_config : pyval;
  trace : list event
}.

Definition prog (A : Type) : Type := world -> result A * world.

Definition ret {A : Type} (a : A) : prog A := fun w => (Ok a, w).

Definition throw {A : Type} (e : exn) : prog A := fun w => (Raise e, w).

Definition bind {A B : Type} (m : prog A) (k : A -> prog B) : prog B :=
  fun w =>
    match m w with
    | (Ok a, w') => k a w'
    | (Raise e, w') => (Raise e, w')
    end.

(** [try: m  except Exception as e: h e]. *)
Definition try_except {A : Type} (m : prog A) (h : exn -> prog A) : prog A :=
  fun w =>
    match m w with
    | (Ok a, w') => (Ok a, w')
    | (Raise e, w') => h e w'
    end.

Definition lift {A : Type} (r : result A) : prog A := fun w => (r, w).

Definition emit (ev : event) : prog unit :=
  fun w => (Ok tt, {| g_config := g_config w; trace := trace w ++ [ev] |}).

Definition get_config : prog pyval := fun w => (Ok (g_config w), w).

Definition set_config (c : pyval) : prog unit :=
  fun w => (Ok tt, {| g_config := c; trace := trace w |}).

Declare Scope prog_scope.
Delimit Scope prog_scope with prog.
Notation "x <-- m ;; k" := (bind m (fun x => k))
  (at level 61, m at next level, right associativity) : prog_scope.
Notation "m >> k" := (bind m (fun _ => k))
  (at level 61, right associativity) : prog_scope.

(** An effect that either completes or raises. *)
Definition attempt_call (ev : option exn -> event) (r : option exn) : prog unit :=
  (emit (ev r) >>
   match r with
   | None => ret tt
   | Some e => throw e
   end)%prog.

Definition os_path_exists (E : environment) (p : string) : prog bool :=
  (emit (EvExists p (path_exists E p)) >> ret (path_exists E p))%prog.

Definition os_makedirs (E : environment) (p : string) : prog unit :=
  attempt_call (EvMakedirs p) (makedirs E p).

Definition os_getsize (E : environment) (p : string) : prog unit :=
  attempt_call (EvGetsize p) (getsize E p).

Definition os_read_file (E : environment) (p : string) : prog string :=
  match read_file E p with
  | Ok c => (emit (EvReadFile p None) >> ret c)%prog
  | Raise e => (emit (EvReadFile p (Some e)) >> throw e)%prog
  end.

(** [os.path.join(a, b)] (POSIX). *)
Definition path_join (a b : string) : string :=
  if String.prefix "/" b then b
  else if negb (PyStr.nonempty a) || PyStr.endswith a "/" then a ++ b
  else a ++ "/" ++ b.

(** [os.path.basename(p)] (POSIX). *)
Definition basename (p : string) : string :=
  last (PyStr.split "/" p) "".

(* ================================================================== *)
(** * [save_to_csv] *)

Definition set_roles (r : user_record) (roles : string) : user_record :=
  {| Username := Username r; Email := Email r; Active := Active r;
     Roles := roles |}.

(** Lines 777-787: [all_memberships]. *)
Definition all_memberships (roles : string) : list string :=
  flat_map (fun part => map PyStr.strip (PyStr.split "," part))
           (PyStr.split "|" roles).

(** Lines 768-814: the rows one [user_record] adds to [expanded_data]. *)
Definition expand_record (rec : user_record) : list user_record :=
  let roles := Roles rec in
  if PyStr.nonempty roles then
    flat_map
      (fun membership =>
         if PyStr.nonempty (PyStr.strip membership)
         then [set_roles rec (PyStr.strip membership)]
         else [])
      (all_memberships roles)
  else [rec].

Definition expand_data (data : list user_record) : list user_record :=
  flat_map expand_record data.

(** [list.sort(key=...)] is a stable sort that compares keys with [<]:
    insertion from the right, each element placed before the first one
    whose key is not smaller. *)
Fixpoint insert_by_username (x : user_record) (l : list user_record)
  : list user_record :=
  match l with
  | [] => [x]
  | y :: ys =>
      if String.ltb (Username y) (Username x)
      then y :: insert_by_username x ys
      else x :: y :: ys
  end.

Fixpoint sort_by_username (l : list user_record) : list user_record :=
  match l with
  | [] => []
  | x :: xs => insert_by_username x (sort_by_username xs)
  end.

(** [data[0].keys()]. *)
Definition fieldnames : list string := ["Username"; "Email"; "Active"; "Roles"].

(** Lines 842-845: open the file, write the header and the rows. *)
Definition write_csv (E : environment) (file_path : string)
    (rows : list user_record) : prog unit :=
  (attempt_call (EvOpenWrite file_path) (open_write E file_path) >>
   attempt_call (EvWriteRows file_path fieldnames rows) (write_rows E file_path))%prog.

(** The body of the [try] of [save_to_csv].  [config['output_dir']] is
    a [str] in every configuration [load_config] builds; for another value
    the path functions raise [TypeError], at the latest in [os.path.join],
    and the call ends in the handlers just the same. *)
Definition save_to_csv_body (E : environment) (data : list user_record)
    (filename : string) : prog bool :=
  (config <-- get_config ;;
   output_dir_v <-- lift (py_index config "output_dir") ;;
   output_dir <-- lift (as_str output_dir_v) ;;
   present <-- os_path_exists E output_dir ;;
   (if negb present then os_makedirs E output_dir else ret tt) >>
   let file_path := path_join output_dir filename in
   match data with
   | [] => ret false
   | _ :: _ =>
       let expanded_data := sort_by_username (expand_data data) in
       write_csv E file_path expanded_data >>
       os_getsize E file_path >>
       ret true
   end)%prog.

(** [save_to_csv(data, filename)]: the three [except] clauses all return
    [False]. *)
Definition save_to_csv (E : environment) (data : list user_record)
    (filename : string) : prog bool :=
  try_except (save_to_csv_body E data filename) (fun _ => ret false).

(* ================================================================== *)
(** * [send_email] *)

(** [int(v)]. *)
Definition py_int (B : builtins) (v : pyval) : result Z :=
  match v with
  | PInt n => Ok n
  | PBool b => Ok (if b then 1%Z else 0%Z)
  | PFloat f => f_int f
  | PStr s => int_of_str B s
  | _ => Raise TypeError
  end.

(** [subject.format(date=d)]. *)
Definition py_format_date (B : builtins) (subject : pyval) (d : string)
  : result string :=
  match subject with
  | PStr s => format_date B s d
  | _ => Raise AttributeError
  end.

(** Lines 932-934. *)
Definition normalize_include_report (v : pyval) : pyval :=
  match v with
  | PStr s => PBool (String.eqb (PyStr.lower s) "true")
  | _ => v
  end.

(** Line 918. *)
Definition parse_recipients (recipients : string) : list string :=
  map PyStr.strip
      (filter (fun r => PyStr.nonempty (PyStr.strip r))
              (PyStr.split "," recipients)).

(** Truth value of the argument [csv_file_path] ([None] or a [str]). *)
Definition path_given (csv_file_path : option string) : bool :=
  match csv_file_path with
  | Some p => PyStr.nonempty p
  | None => false
  end.

(** An [int] that [float] can hold: below [2^1024 - 2^970] in absolute
    value, where rounding to the nearest double stops giving a finite
    one. *)
Definition fits_float (n : Z) : bool :=
  (Z.abs n <? 2 ^ 1024 - 2 ^ 970)%Z.

(** Line 974: the elapsed time is formatted with [{:.2f}] when it is
    truthy; an [int] is converted to [float] first, which raises
    [OverflowError] ([OtherException] here) beyond the range of
    [float]. *)
Definition format_elapsed (execution_time : pyval) : result unit :=
  if truthy execution_time then
    match execution_time with
    | PFloat _ | PBool _ => Ok tt
    | PInt n => if fits_float n then Ok tt else Raise OtherException
    | PStr _ => Raise ValueError
    | _ => Raise TypeError
    end
  else Ok tt.

(** [success and include_report and csv_file_path and
    os.path.exists(csv_file_path)], evaluated left to right. *)
Definition report_available (E : environment) (success : bool)
    (include_report : pyval) (csv_file_path : option string) : prog bool :=
  match csv_file_path with
  | Some p =>
      if success && truthy include_report && PyStr.nonempty p
      then os_path_exists E p
      else ret false
  | None => ret false
  end.

Definition attach (m : message) (name content : string) : message :=
  {| msg_from := msg_from m; msg_to := msg_to m;
     msg_subject := msg_subject m; msg_success := msg_success m;
     msg_hostname := msg_hostname m; msg_elapsed := msg_elapsed m;
     msg_report_note := msg_report_note m; msg_viz_note := msg_viz_note m;
     msg_attachments := msg_attachments m ++ [(name, content)] |}.

Definition note_visualization (m : message) : message :=
  {| msg_from := msg_from m; msg_to := msg_to m;
     msg_subject := msg_subject m ++ " with Role Visualization";
     msg_success := msg_success m;
     msg_hostname := msg_hostname m; msg_elapsed := msg_elapsed m;
     msg_report_note := msg_report_note m; msg_viz_note := true;
     msg_attachments := msg_attachments m |}.

(** Lines 943-950. *)
Definition check_report_file (E : environment) (include_report : pyval)
    (csv_file_path : option string) : prog unit :=
  match csv_file_path with
  | Some p =>
      if truthy include_report && PyStr.nonempty p then
        (present <-- os_path_exists E p ;;
         if present then os_getsize E p else ret tt)%prog
      else ret tt
  | None => ret tt
  end.

(** Lines 992-1004. *)
Definition attach_report (E : environment) (success : bool)
    (include_report : pyval) (csv_file_path : option string) (m : message)
  : prog message :=
  (available <-- report_available E success include_report csv_file_path ;;
   match csv_file_path with
   | Some p =>
       if available then
         file_content <-- os_read_file E p ;;
         ret (attach m (basename p) file_content)
       else ret m
   | None => ret m
   end)%prog.

(** Lines 1009-1034. *)
Definition attach_log (E : environment) (m : message) : prog message :=
  (config <-- get_config ;;
   output_dir_v <-- lift (py_index config "output_dir") ;;
   output_dir <-- lift (as_str output_dir_v) ;;
   let logs_dir := path_join output_dir "logs" in
   let log_filename := String.append "workiva_igam_"
                         (String.append (today_compact E) ".log") in
   let log_file_path := path_join logs_dir log_filename in
   present <-- os_path_exists E log_file_path ;;
   if present then
     try_except
       (log_content <-- os_read_file E log_file_path ;;
        ret (attach m log_filename log_content))
       (fun _ => ret m)
   else ret m)%prog.

(** Lines 1036-1073. *)
Definition attach_visualization (E : environment)
    (csv_file_path : option string) (m : message) : prog message :=
  try_except
    (let viz_script_path := path_join (script_dir E) "simple_visualize_roles.py" in
     present <-- os_path_exists E viz_script_path ;;
     if present then
       match run_visualization E viz_script_path csv_file_path with
       | Raise e => emit (EvVisualize viz_script_path (Some e)) >> throw e
       | Ok html_viz_path =>
           emit (EvVisualize viz_script_path None) >>
           made <-- os_path_exists E html_viz_path ;;
           if made then
             html_content <-- os_read_file E html_viz_path ;;
             ret (note_visualization
                    (attach m (basename html_viz_path) html_content))
           else ret m
       end
     else ret m)%prog
    (fun _ => ret m).

Definition endpoint (server port : pyval) (use_tls : bool) : pyval :=
  PDict [("server", server); ("port", port); ("use_tls", PBool use_tls)].

(** Lines 1078-1092. *)
Definition smtp_configs (smtp_server : pyval) (smtp_port : Z) : list pyval :=
  [ endpoint smtp_server (PInt smtp_port) true;
    endpoint smtp_server (PInt smtp_port) false;
    endpoint (PStr "mail.sce.com") (PInt 25) false;
    endpoint (PStr "relay.sce.com") (PInt 25) false;
    endpoint (PStr "smtp.sce.com") (PInt 587) true;
    endpoint (PStr "smtp.sce.com") (PInt 2525) false;
    endpoint (PStr "smtp.office365.com") (PInt 587) true;
    endpoint (PStr "outlook.office365.com") (PInt 587) true ].

(** What happens inside [with smtplib.SMTP(...) as server:] once the
    connection stands (lines 1101-1121). *)
Definition smtp_conversation (email_config : pyval) (m : message)
    (use_tls : pyval) (s : session) : prog bool :=
  ((if truthy use_tls
    then try_except (attempt_call EvStartTLS (s_starttls s)) (fun _ => ret tt)
    else ret tt) >>
   user_v <-- lift (py_get email_config "smtp_username" (PStr "")) ;;
   smtp_username <-- lift (py_strip user_v) ;;
   pass_v <-- lift (py_get email_config "smtp_password" (PStr "")) ;;
   smtp_password <-- lift (py_strip pass_v) ;;
   (if PyStr.nonempty smtp_username && PyStr.nonempty smtp_password
    then attempt_call (EvLogin smtp_username smtp_password) (s_login s)
    else ret tt) >>
   attempt_call (EvSendMessage m) (s_send s) >>
   ret true)%prog.

(** Leaving the [with] block sends QUIT, on the normal and on the
    exceptional path; an exception raised there replaces the outcome. *)
Definition with_exit {A : Type} (s : session) (body : prog A) : prog A :=
  fun w =>
    match body w with
    | (r, w') =>
        match attempt_call EvQuit (s_quit s) w' with
        | (Ok _, w'') => (r, w'')
        | (Raise e, w'') => (Raise e, w'')
        end
    end.

(** The [try] block of one iteration of the dispatch loop; it reads the
    endpoint from the variable [config]. *)
Definition smtp_attempt (E : environment) (email_config : pyval)
    (m : message) (i : nat) : prog bool :=
  (config <-- get_config ;;
   server <-- lift (py_index config "server") ;;
   port <-- lift (py_index config "port") ;;
   use_tls <-- lift (py_index config "use_tls") ;;
   attempt_call (EvConnect server port) (s_connect (smtp E i)) >>
   with_exit (smtp E i) (smtp_conversation email_config m use_tls (smtp E i)))%prog.

(** Lines 1096-1149: [for i, config in enumerate(smtp_configs)], where
    [config] is the module-level variable ([global config], line 892), so
    the loop header assigns to it.  Every [except] clause ends in
    [continue]; after the last endpoint the function raises. *)
Fixpoint dispatch (E : environment) (email_config : pyval) (m : message)
    (i : nat) (configs : list pyval) : prog bool :=
  match configs with
  | [] => throw OtherException
  | c :: rest =>
      (set_config c >>
       sent <-- try_except (smtp_attempt E email_config m i)
                           (fun _ => ret false) ;;
       if sent then ret true
       else dispatch E email_config m (S i) rest)%prog
  end.

(** Lines 906-1149: the body of the [try] of [send_email]. *)
Definition send_email_body (B : builtins) (E : environment)
    (csv_file_path : option string) (execution_time : pyval) (success : bool)
  : prog bool :=
  (config <-- get_config ;;
   email_config <-- lift (py_index config "email") ;;
   smtp_server <-- lift (py_index email_config "smtp_server") ;;
   recipients_v <-- lift (py_get email_config "recipients" (PStr "")) ;;
   recipients <-- lift (py_strip recipients_v) ;;
   if negb (PyStr.nonempty recipients) || negb (truthy smtp_server)
   then ret false
   else
     let recipients_list := parse_recipients recipients in
     match recipients_list with
     | [] => ret false
     | _ :: _ =>
         port_v <-- lift (py_get email_config "smtp_port" (PStr "25")) ;;
         smtp_port <-- lift (py_int B port_v) ;;
         sender_email <-- lift (py_get email_config "sender_email"
                                  (PStr "workiva.igam.noreply@sce.com")) ;;
         include_v <-- lift (py_get email_config "include_report" (PBool false)) ;;
         let include_report := normalize_include_report include_v in
         subject_v <-- lift (py_get email_config "subject"
                               (PStr "Workiva IGAM Report - {date}")) ;;
         subject <-- lift (py_format_date B subject_v (today E)) ;;
         check_report_file E include_report csv_file_path >>
         lift (format_elapsed execution_time) >>
         noted <-- report_available E success include_report csv_file_path ;;
         let m0 :=
           {| msg_from := sender_email;
              msg_to := PyStr.join ", " recipients_list;
              msg_subject := subject;
              msg_success := success;
              msg_hostname := hostname E;
              msg_elapsed := execution_time;
              msg_report_note := noted;
              msg_viz_note := false;
              msg_attachments := [] |} in
         m1 <-- attach_report E success include_report csv_file_path m0 ;;
         m2 <-- attach_log E m1 ;;
         m3 <-- attach_visualization E csv_file_path m2 ;;
         dispatch E email_config m3 0 (smtp_configs smtp_server smtp_port)
     end)%prog.

(** [send_email(csv_file_path, execution_time, success)].  The test of
    [enabled] stands before the [try]. *)
Definition send_email (B : builtins) (E : environment)
    (csv_file_path : option string) (execution_time : pyval) (success : bool)
  : prog bool :=
  (config <-- get_config ;;
   email_section <-- lift (py_get config "email" (PDict [])) ;;
   enabled <-- lift (py_get email_section "enabled" (PBool false)) ;;
   if negb (truthy enabled) then ret false
   else
     try_except (send_email_body B E csv_file_path execution_time success)
                (fun _ => ret false))%prog.

(* ================================================================== *)
(** * Vocabulary of the properties *)

(** ** Roles *)

(** The non-empty role tokens of a roles string: split on the membership
    delimiter, then on the role delimiter, trim, drop the empty ones. *)
Definition role_tokens (roles : string) : list string :=
  filter PyStr.nonempty
    (flat_map (fun part => map PyStr.strip (PyStr.split "," part))
              (PyStr.split "|" roles)).

(** A role name that survives the encoding unchanged: not empty, free of
    both delimiters, no white space at either end. *)
Definition clean_role (r : string) : bool :=
  PyStr.nonempty r && negb (PyStr.has_char "|" r) &&
  negb (PyStr.has_char "," r) && String.eqb (PyStr.strip r) r.

(** The role list of one workspace membership, ["No role"] when the field
    is absent. *)
Definition membership_role_list (workspace : pyval) : result (list string) :=
  roles <- py_get workspace "workspaceRoles" (PList [PStr "No role"]) ;;
  items <- py_iter roles ;;
  mapM as_str items.

(** Workspace roles, membership after membership, then the organization
    roles; nothing is removed. *)
Definition flat_role_list (attributes : pyval) : result (list string) :=
  wm <- py_get attributes "workspaceMemberships" PNone ;;
  memberships <- (if truthy wm then py_iter wm else Ok []) ;;
  per_membership <- mapM membership_role_list memberships ;;
  org <- py_get attributes "organizationRoles" (PList []) ;;
  org_items <- py_iter org ;;
  org_roles <- mapM as_str org_items ;;
  Ok (List.concat per_membership ++ org_roles).

(** The pieces of a roles string before trimming. *)
Definition raw_tokens (roles : string) : list string :=
  flat_map (PyStr.split ",") (PyStr.split "|" roles).

Definition is_delim (c : ascii) : bool :=
  Ascii.eqb c "|" || Ascii.eqb c ",".

(** ** Extraction *)

Definition emitted (vs : list verdict) : list user_record :=
  flat_map (fun v => match v with Valid r => [r] | _ => [] end) vs.

Definition is_valid (v : verdict) : bool :=
  match v with Valid _ => true | _ => false end.

(** [attributes.get(k, d)] on a dictionary given by its bindings. *)
Definition attr (akvs : pydict) (k : string) (d : pyval) : pyval :=
  match dict_lookup akvs k with
  | Some v => v
  | None => d
  end.

(** The record [r] carries the fields of the attributes [akvs]. *)
Definition derived_from (B : builtins) (akvs : pydict) (r : user_record)
  : Prop :=
  py_lower (attr akvs "email" (PStr "")) = Ok (Email r) /\
  py_lower (attr akvs "userName" (PStr "")) = Ok (Username r) /\
  roles_of (PDict akvs) = Ok (Roles r) /\
  Active r = py_str B (attr akvs "active" (PBool false)).

(** What the loop decides for the raw record [u]: a record without
    [attributes] is counted as such; one with attributes [akvs] is kept
    exactly when the lowered e-mail address ends in an allowed domain and
    [active] passes the test of line 659, and the record kept is derived
    from [akvs]. *)
Definition verdict_for (B : builtins) (u : pyval) (v : verdict) : Prop :=
  exists ukvs,
    u = PDict ukvs /\
    match dict_lookup ukvs "attributes" with
    | None => v = MissingAttributes
    | Some a =>
        exists akvs email,
          a = PDict akvs /\
          py_lower (attr akvs "email" (PStr "")) = Ok email /\
          (is_valid v = true <->
           allowed_domain email = true /\
           truthy (attr akvs "active" (PBool false)) = true) /\
          (forall r, v = Valid r -> derived_from B akvs r)
    end.

Definition all_str (v : pyval) : bool :=
  match v with
  | PList l => forallb (fun x => match x with PStr _ => true | _ => false end) l
  | _ => false
  end.

Definition opt_field (kvs : pydict) (k : string) (ok : pyval -> bool) : bool :=
  match dict_lookup kvs k with
  | Some v => ok v
  | None => true
  end.

Definition is_pystr (v : pyval) : bool :=
  match v with PStr _ => true | _ => false end.

Definition wf_membership (w : pyval) : bool :=
  match w with
  | PDict wkvs => opt_field wkvs "workspaceRoles" all_str
  | _ => false
  end.

Definition wf_memberships (v : pyval) : bool :=
  match v with
  | PList l => forallb wf_membership l
  | _ => false
  end.

(** A raw record shaped as the directory API documents it: every field
    that is present has the documented type; [active] may be anything. *)
Definition wf_user (u : pyval) : bool :=
  match u with
  | PDict ukvs =>
      match dict_lookup ukvs "attributes" with
      | None => true
      | Some (PDict akvs) =>
          opt_field akvs "workspaceMemberships" wf_memberships &&
          opt_field akvs "licenses" all_str &&
          opt_field akvs "organizationRoles" all_str &&
          opt_field akvs "email" is_pystr &&
          opt_field akvs "userName" is_pystr
      | Some _ => false
      end
  | _ => false
  end.

(** ** Traces *)

Definition is_write_event (ev : event) : bool :=
  match ev with
  | EvOpenWrite _ _ | EvWriteRows _ _ _ _ => true
  | _ => false
  end.

Definition is_connect (ev : event) : bool :=
  match ev with
  | EvConnect _ _ _ => true
  | _ => false
  end.

(** An event that is not the opening of a connection. *)
Definition quiet (ev : event) : Prop := is_connect ev = false.

(** The addresses of the connections opened, in order. *)
Fixpoint connections (t : list event) : list (pyval * pyval) :=
  match t with
  | [] => []
  | EvConnect server port _ :: t' => (server, port) :: connections t'
  | _ :: t' => connections t'
  end.

(** A program that leaves [config] alone, whose outcome does not depend on
    the calls made before it, and whose own calls all satisfy [P]. *)
Definition pure_io (P : event -> Prop) {A : Type} (m : prog A) : Prop :=
  forall c, exists r evs,
    Forall P evs /\
    forall t, m {| g_config := c; trace := t |}
              = (r, {| g_config := c; trace := t ++ evs |}).

(** ** Dispatch *)

Definition as_endpoint (e : pyval * pyval * bool) : pyval :=
  match e with (server, port, use_tls) => endpoint server port use_tls end.

Definition address (e : pyval * pyval * bool) : pyval * pyval :=
  match e with (server, port, _) => (server, port) end.

(** Whether the [i]-th iteration of the dispatch loop, run on the endpoint
    [c], hands the message off: the [try] block reaches [return True]. *)
Definition endpoint_succeeds (E : environment) (email_config : pyval)
    (m : message) (i : nat) (c : pyval) : bool :=
  match smtp_attempt E email_config m i {| g_config := c; trace := [] |} with
  | (Ok true, _) => true
  | _ => false
  end.

(** Every endpoint of [eps] fails, the first being tried as attempt [i]. *)
Fixpoint all_fail (E : environment) (email_config : pyval) (m : message)
    (i : nat) (eps : list (pyval * pyval * bool)) : bool :=
  match eps with
  | [] => true
  | e :: rest =>
      negb (endpoint_succeeds E email_config m i (as_endpoint e)) &&
      all_fail E email_config m (S i) rest
  end.

(** The endpoints of [smtp_configs] as triples. *)
Definition smtp_endpoints (smtp_server : pyval) (smtp_port : Z)
  : list (pyval * pyval * bool) :=
  [ (smtp_server, PInt smtp_port, true);
    (smtp_server, PInt smtp_port, false);
    (PStr "mail.sce.com", PInt 25%Z, false);
    (PStr "relay.sce.com", PInt 25%Z, false);
    (PStr "smtp.sce.com", PInt 587%Z, true);
    (PStr "smtp.sce.com", PInt 2525%Z, false);
    (PStr "smtp.office365.com", PInt 587%Z, true);
    (PStr "outlook.office365.com", PInt 587%Z, true) ].

(** The result of a program, when it returns, satisfies [Q]. *)
Definition returns_only {A : Type} (Q : A -> Prop) (m : prog A) : Prop :=
  forall w a w', m w = (Ok a, w') -> Q a.

(** What a call may do to [config]: leave it alone and open no
    connection, or open at least one connection and leave an endpoint
    descriptor in it. *)
Definition rebinds_when_connecting {A : Type} (m : prog A) : Prop :=
  forall c t, exists r c' evs,
    m {| g_config := c; trace := t |}
    = (r, {| g_config := c'; trace := t ++ evs |}) /\
    ((c' = c /\ connections evs = []) \/
     (connections evs <> [] /\
      exists server port use_tls, c' = endpoint server port use_tls)).

(** The dispatch loop inside the handler of [send_email]. *)
Definition dispatch_reported (E : environment) (email_config : pyval)
    (m : message) (configs : list pyval) : prog bool :=
  try_except (dispatch E email_config m 0 configs) (fun _ => ret false).

(** A [config] on which the test of [enabled] cannot raise: a dictionary
    whose [email] entry, when there is one, is a dictionary. *)
Definition config_shape (c : pyval) : bool :=
  match c with
  | PDict kvs =>
      match dict_lookup kvs "email" with
      | None | Some (PDict _) => true
      | Some _ => false
      end
  | _ => false
  end.

(** ** Sorting *)

Definition username_le (a b : user_record) : Prop :=
  String.leb (Username a) (Username b) = true.

Definition has_username (u : string) (r : user_record) : bool :=
  String.eqb (Username r) u.

(* ================================================================== *)
(** * [get_access_token] and [make_api_request] *)

(** A response of [requests]: what [raise_for_status()] raises, if
    anything, and what [json()] returns or raises. *)
Record http_response : Type := {
  raise_for_status : option exn;
  json : result pyval
}.

(** The module-level names bound from [config] at import (lines
    293-296). *)
Record api_settings : Type := {
  token_url : string;
  users_url : string;
  client_id : string;
  client_secret : string
}.

(** The two servers: the answer to the POST of the credentials and to the
    GET carrying an [Authorization] header; [Raise] is an exception of
    [requests.post] or [requests.get] itself. *)
Record http_env : Type := {
  post_token : string -> string -> string -> result http_response;
  get_users : string -> string -> result http_response
}.

Inductive http_event : Type :=
| HPost (url id secret : string) (r : option exn)
| HGet (url authorization : string) (r : option exn).

(** [v[:5]]. *)
Definition py_slice (v : pyval) : result unit :=
  match v with
  | PStr _ | PList _ => Ok tt
  | _ => Raise TypeError
  end.

Definition check_status (resp : http_response) : result unit :=
  match raise_for_status resp with
  | Some e => Raise e
  | None => Ok tt
  end.

(** Lines 330-351: from the response of the token endpoint to the value
    returned. *)
Definition read_token (resp : http_response) : result pyval :=
  _ <- check_status resp ;;
  token_data <- json resp ;;
  has_token <- py_in "access_token" token_data ;;
  if negb has_token then Ok PNone
  else
    token <- py_index token_data "access_token" ;;
    _ <- py_slice token ;;
    _ <- py_in "expires_in" token_data ;;
    py_index token_data "access_token".

(** [get_access_token()]: every [except] clause returns [None]. *)
Definition get_access_token (S : api_settings) (H : http_env)
  : pyval * list http_event :=
  match post_token H (token_url S) (client_id S) (client_secret S) with
  | Raise e =>
      (PNone, [HPost (token_url S) (client_id S) (client_secret S) (Some e)])
  | Ok resp =>
      (match read_token resp with
       | Ok v => v
       | Raise _ => PNone
       end,
       [HPost (token_url S) (client_id S) (client_secret S) None])
  end.

(** Lines 453-479: from the response of the users endpoint to the value
    returned. *)
Definition read_users (resp : http_response) : result pyval :=
  _ <- check_status resp ;;
  data <- json resp ;;
  has_data <- py_in "data" data ;;
  if negb has_data then Ok data
  else
    users <- py_index data "data" ;;
    _ <- py_len users ;;
    Ok data.

(** [make_api_request()]: every [except] clause returns [None]. *)
Definition make_api_request (B : builtins) (S : api_settings) (H : http_env)
  : pyval * list http_event :=
  let (access_token, evs) := get_access_token S H in
  if negb (truthy access_token) then (PNone, evs)
  else
    match py_slice access_token with
    | Raise _ => (PNone, evs)
    | Ok _ =>
        let authorization :=
          String.append "Bearer " (py_str B access_token) in
        match get_users H (users_url S) authorization with
        | Raise e =>
            (PNone, evs ++ [HGet (users_url S) authorization (Some e)])
        | Ok resp =>
            (match read_users resp with
             | Ok data => data
             | Raise _ => PNone
             end,
             evs ++ [HGet (users_url S) authorization None])
        end
    end.

(* ================================================================== *)
(** * [setup_logging] and the main block *)




(** [save_to_csv(user_data, csv_filename)] for a file name taken from
    [config]: with a name that is not a [str], [os.path.join] raises after
    the directory has been looked up and created, and the handlers return
    [False]. *)
Definition save_with_name (E : environment) (user_data : list user_record)
    (csv_filename : pyval) : prog bool :=
  match csv_filename with
  | PStr filename => save_to_csv E user_data filename
  | _ =>
      try_except
        (config <-- get_config ;;
         output_dir_v <-- lift (py_index config "output_dir") ;;
         output_dir <-- lift (as_str output_dir_v) ;;
         present <-- os_path_exists E output_dir ;;
         (if negb present then os_makedirs E output_dir else ret tt) >>
         throw TypeError)%prog
        (fun _ => ret false)
  end.

(** [os.path.join(config['output_dir'], csv_filename)]. *)
Definition report_path (output_dir csv_filename : pyval) : result string :=
  d <- as_str output_dir ;;
  f <- as_str csv_filename ;;
  Ok (path_join d f).

Definition notify (B : builtins) (E : environment)
    (csv_file_path : option string) (execution_time : pyval) (success : bool)
  : prog unit :=
  (send_email B E csv_file_path execution_time success >> ret tt)%prog.

(** Lines 1232-1352, given the value of [make_api_request()] and the
    elapsed time: extraction, serialization and the notification, inside
    the last-resort handler. *)
Definition pipeline (B : builtins) (E : environment) (api_data : pyval)
    (elapsed : pyval) : prog unit :=
  try_except
    (if truthy api_data then
       user_data <-- lift (extract_user_data B api_data) ;;
       config <-- get_config ;;
       csv_filename <-- lift (py_get config "file_name"
                                (PStr "Workiva_Account_Aggregation.csv")) ;;
       success <-- save_with_name E user_data csv_filename ;;
       if success then
         config' <-- get_config ;;
         output_dir <-- lift (py_index config' "output_dir") ;;
         file_path <-- lift (report_path output_dir csv_filename) ;;
         notify B E (Some file_path) elapsed true
       else notify B E None elapsed false
     else notify B E None elapsed false)%prog
    (fun _ => try_except (notify B E None elapsed false) (fun _ => ret tt)).


(* ================================================================== *)
(** * [load_config] *)

(** A parsed [config.ini] as [configparser] presents it: the names of its
    sections, whether a section has an option, and the value of an option
    ([get] raises on a failed interpolation). *)
Record ini_file : Type := {
  ini_sections : list string;
  ini_has_option : string -> string -> bool;
  ini_get : string -> string -> result string
}.

(** What the loader finds on disk: whether [config.ini] exists, whether
    its time stamp and size can be read, and what parsing it gives. *)
Record loader_env : Type := {
  config_exists : bool;
  config_stat : option exn;
  config_parse : result ini_file
}.

(** [config.get(section, key, fallback=d)]. *)
Definition ini_get_fallback (ini : ini_file) (section key d : string)
  : result string :=
  if ini_has_option ini section key then ini_get ini section key else Ok d.

Definition double_quote : ascii := ascii_of_nat 34.

Definition is_quote (c : ascii) : bool :=
  Ascii.eqb c double_quote || Ascii.eqb c "'".

Fixpoint lstrip_quotes (s : string) : string :=
  match s with
  | EmptyString => EmptyString
  | String a s' => if is_quote a then lstrip_quotes s' else s
  end.

Fixpoint rstrip_quotes (s : string) : string :=
  match s with
  | EmptyString => EmptyString
  | String a s' =>
      match rstrip_quotes s' with
      | EmptyString => if is_quote a then EmptyString else String a EmptyString
      | r => String a r
      end
  end.

(** [strip] with the two quote characters as its argument. *)
Definition strip_quotes (s : string) : string :=
  lstrip_quotes (rstrip_quotes s).

Definition in_list (x : string) (l : list string) : bool :=
  existsb (String.eqb x) l.

Definition required_sections : list string := ["api"; "auth"; "output"].

Definition required_keys : list (string * list string) :=
  [("api", ["token_url"; "users_url"]);
   ("auth", ["client_id"; "client_secret"]);
   ("output", ["output_dir"; "file_name"])].

Inductive key_state : Type := KeyPresent | KeyMissing | KeyEmpty.

(** Lines 118-129, for one key. *)
Definition check_key (ini : ini_file) (section key : string)
  : result key_state :=
  if negb (ini_has_option ini section key) then Ok KeyMissing
  else
    v <- ini_get ini section key ;;
    if negb (PyStr.nonempty (PyStr.strip v)) then Ok KeyEmpty
    else Ok KeyPresent.

Definition check_keys (ini : ini_file) : result (list key_state) :=
  mapM (fun sk => check_key ini (fst sk) (snd sk))
       (flat_map (fun sks => map (fun k => (fst sks, k)) (snd sks))
                 required_keys).

Definition is_missing (k : key_state) : bool :=
  match k with KeyMissing => true | _ => false end.

Definition is_empty (k : key_state) : bool :=
  match k with KeyEmpty => true | _ => false end.

Definition required_value (ini : ini_file) (section key : string)
  : result pyval :=
  v <- ini_get ini section key ;;
  Ok (PStr (strip_quotes v)).

(** Lines 186-218. *)
Definition email_section (ini : ini_file) : result pyval :=
  if in_list "email" (ini_sections ini) then
    enabled <- ini_get_fallback ini "email" "enabled" "false" ;;
    let email_enabled := String.eqb (PyStr.lower enabled) "true" in
    _ <- (if email_enabled then
            _ <- ini_get_fallback ini "email" "smtp_server" "" ;;
            _ <- ini_get_fallback ini "email" "smtp_port" "25" ;;
            _ <- ini_get_fallback ini "email" "recipients" "" ;;
            Ok tt
          else Ok tt) ;;
    smtp_server <- ini_get_fallback ini "email" "smtp_server" "" ;;
    smtp_port <- ini_get_fallback ini "email" "smtp_port" "25" ;;
    sender_email <- ini_get_fallback ini "email" "sender_email" "" ;;
    recipients <- ini_get_fallback ini "email" "recipients" "" ;;
    subject <- ini_get_fallback ini "email" "subject" "Workiva IGAM Report" ;;
    include_report <- ini_get_fallback ini "email" "include_report" "false" ;;
    Ok (PDict [("enabled", PBool email_enabled);
               ("smtp_server", PStr smtp_server);
               ("smtp_port", PStr smtp_port);
               ("sender_email", PStr sender_email);
               ("recipients", PStr recipients);
               ("subject", PStr subject);
               ("include_report",
                PBool (String.eqb (PyStr.lower include_report) "true"))])
  else Ok (PDict [("enabled", PBool false)]).

(** Lines 158-165: the six required values, quotes removed. *)
Definition required_values (ini : ini_file) : result pydict :=
  token_url <- required_value ini "api" "token_url" ;;
  users_url <- required_value ini "api" "users_url" ;;
  client_id <- required_value ini "auth" "client_id" ;;
  client_secret <- required_value ini "auth" "client_secret" ;;
  output_dir <- required_value ini "output" "output_dir" ;;
  file_name <- required_value ini "output" "file_name" ;;
  Ok [("token_url", token_url); ("users_url", users_url);
      ("client_id", client_id); ("client_secret", client_secret);
      ("output_dir", output_dir); ("file_name", file_name)].

(** Lines 167-182: the output directory is created when absent; a failure
    is printed and ignored. *)
Definition ensure_output_dir (E : environment) (config_dict : pydict)
  : prog unit :=
  match dict_lookup config_dict "output_dir" with
  | Some (PStr output_dir) =>
      (present <-- os_path_exists E output_dir ;;
       if negb present
       then try_except (os_makedirs E output_dir) (fun _ => ret tt)
       else ret tt)%prog
  | _ => throw KeyError
  end.

(** The body of the [try] of [load_config] (lines 76-221).  The change of
    the permissions of [config.ini], inside its own [try], influences
    nothing that follows. *)
Definition load_config_body (L : loader_env) (E : environment)
  : prog pyval :=
  (_ <-- lift (match config_stat L with
               | Some e => Raise e
               | None => Ok tt
               end) ;;
   ini <-- lift (config_parse L) ;;
   if negb (forallb (fun s => in_list s (ini_sections ini)) required_sections)
   then ret PNone
   else
     states <-- lift (check_keys ini) ;;
     if existsb is_missing states then ret PNone
     else if existsb is_empty states then ret PNone
     else
       config_dict <-- lift (required_values ini) ;;
       ensure_output_dir E config_dict >>
       email <-- lift (email_section ini) ;;
       ret (PDict (config_dict ++ [("email", email)])))%prog.

(** [load_config()]: [None] when the file is absent and on every
    exception. *)
Definition load_config (L : loader_env) (E : environment) : prog pyval :=
  if negb (config_exists L) then ret PNone
  else try_except (load_config_body L E) (fun _ => ret PNone).

(** Lines 286-296: [config = load_config()]; the module goes on only with
    a configuration, from which the four API settings are taken. *)
Definition settings_of (config : pyval) : result api_settings :=
  a <- (v <- py_index config "token_url" ;; as_str v) ;;
  b <- (v <- py_index config "users_url" ;; as_str v) ;;
  c <- (v <- py_index config "client_id" ;; as_str v) ;;
  d <- (v <- py_index config "client_secret" ;; as_str v) ;;
  Ok {| token_url := a; users_url := b; client_id := c; client_secret := d |}.

Definition import_module (L : loader_env) (E : environment) : prog bool :=
  (config <-- load_config L E ;;
   if negb (truthy config) then ret false
   else set_config config >> ret true)%prog.

(* ================================================================== *)
(** * [simple_visualize_roles.load_data] *)

(** [s.add(x)] on a set kept as the list of its elements.  The order in
    which Python lists the elements of a set is unspecified; the
    properties below speak of membership only. *)
Definition set_add (x : string) (s : list string) : list string :=
  if in_list x s then s else s ++ [x].

(** [user_roles[username].add(role)] on a [defaultdict(set)], the keys in
    insertion order. *)
Fixpoint add_role (username role : string)
    (user_roles : list (string * list string)) : list (string * list string) :=
  match user_roles with
  | [] => [(username, set_add role [])]
  | (u, roles) :: rest =>
      if String.eqb u username then (u, set_add role roles) :: rest
      else (u, roles) :: add_role username role rest
  end.

(** [user_role_list.sort(key=lambda x: x[0])]. *)
Fixpoint insert_by_key (x : string * list string)
    (l : list (string * list string)) : list (string * list string) :=
  match l with
  | [] => [x]
  | y :: ys =>
      if String.ltb (fst y) (fst x)
      then y :: insert_by_key x ys
      else x :: y :: ys
  end.

Fixpoint sort_by_key (l : list (string * list string))
  : list (string * list string) :=
  match l with
  | [] => []
  | x :: xs => insert_by_key x (sort_by_key xs)
  end.

Definition group_roles (rows : list user_record)
  : list (string * list string) :=
  fold_left (fun acc row => add_role (Username row) (Roles row) acc) rows [].

(** [load_data(file_path)], on the rows that [csv.DictReader] yields for
    the file: the users with their roles, by user name, and the set of all
    roles. *)
Definition load_data (rows : list user_record)
  : list (string * list string) * list string :=
  let user_roles := group_roles rows in
  let all_roles := fold_left (fun acc row => set_add (Roles row) acc) rows [] in
  (sort_by_key user_roles, all_roles).

(* ================================================================== *)
(** * Further vocabulary *)

(** The records the loop has gone through when it ends in the state
    [st]. *)
Definition records_seen (st : extract_state) : nat :=
  missing_attributes_count st + filtered_domain_count st +
  filtered_inactive_count st + valid_count st.

(** A canonical record as extraction leaves it: both names lowered, the
    address in an allowed domain. *)
Definition canonical (r : user_record) : Prop :=
  PyStr.lower (Username r) = Username r /\
  PyStr.lower (Email r) = Email r /\
  allowed_domain (Email r) = true.

(** Raw records on which the loop body raises [AttributeError]: a record
    that is not an object, one whose [attributes] is not an object, and one
    whose roles are well formed but whose [email] is not a string. *)
Definition breaks_extraction (u : pyval) : bool :=
  match u with
  | PDict ukvs =>
      match dict_lookup ukvs "attributes" with
      | None => false
      | Some (PDict akvs) =>
          opt_field akvs "workspaceMemberships" wf_memberships &&
          opt_field akvs "licenses" all_str &&
          opt_field akvs "organizationRoles" all_str &&
          negb (opt_field akvs "email" is_pystr)
      | Some _ => true
      end
  | _ => true
  end.

(** The same row with another roles value. *)
Definition same_user (r row : user_record) : Prop :=
  Username row = Username r /\ Email row = Email r /\ Active row = Active r.

(** The session [s] with another outcome of STARTTLS. *)
Definition with_starttls (s : session) (r : option exn) : session :=
  {| s_connect := s_connect s; s_starttls := r; s_login := s_login s;
     s_send := s_send s; s_quit := s_quit s |}.

(** Whether [send_email] will authenticate: both credentials are present
    in the e-mail section and not blank. *)
Definition has_credentials (email_config : pyval) : bool :=
  match (v <- py_get email_config "smtp_username" (PStr "") ;; py_strip v),
        (v <- py_get email_config "smtp_password" (PStr "") ;; py_strip v)
  with
  | Ok u, Ok p => PyStr.nonempty u && PyStr.nonempty p
  | _, _ => false
  end.

(** The world after the further calls [evs]. *)
Definition log (w : world) (evs : list event) : world :=
  {| g_config := g_config w; trace := trace w ++ evs |}.

(** From every world whose [config] is [c], the program ends with a
    result and further calls that satisfy [R]. *)
Definition run_spec_at (c : pyval) {A : Type}
    (R : result A -> list event -> Prop) (m : prog A) : Prop :=
  forall t, exists r c' evs,
    m {| g_config := c; trace := t |}
    = (r, {| g_config := c'; trace := t ++ evs |}) /\ R r evs.

(** The calls made by the [i]-th iteration of the dispatch loop on the
    endpoint [c]. *)
Definition attempt_events (E : environment) (email_config : pyval)
    (m : message) (i : nat) (c : pyval) : list event :=
  trace (snd (smtp_attempt E email_config m i
                {| g_config := c; trace := [] |})).

(** The calls an attempt can make: SMTP calls only, the message handed
    over is [m], and a login needs both credentials. *)
Definition attempt_event (email_config : pyval) (m : message) (ev : event)
  : Prop :=
  match ev with
  | EvConnect _ _ _ | EvStartTLS _ | EvQuit _ => True
  | EvLogin _ _ _ => has_credentials email_config = true
  | EvSendMessage m' _ => m' = m
  | _ => False
  end.

(** Configurations on which [send_email] gives up before composing a
    message: notifications are not enabled, or the server name is empty,
    or no recipient is left once blanks are dropped. *)
Definition notification_off (config : pyval) : bool :=
  match config with
  | PDict kvs =>
      match attr kvs "email" (PDict []) with
      | PDict ekvs =>
          negb (truthy (attr ekvs "enabled" (PBool false))) ||
          match dict_lookup ekvs "smtp_server",
                attr ekvs "recipients" (PStr "") with
          | Some server, PStr recipients =>
              negb (truthy server) ||
              match parse_recipients (PyStr.strip recipients) with
              | [] => true
              | _ :: _ => false
              end
          | _, _ => false
          end
      | _ => false
      end
  | _ => false
  end.

Definition not_login (ev : event) : Prop :=
  match ev with
  | EvLogin _ _ _ => False
  | _ => True
  end.

(** A message handed to a server reports the status [b] and carries at
    most the attachments named in [names]. *)
Definition reports_status (b : bool) (ev : event) : Prop :=
  match ev with
  | EvSendMessage m _ => msg_success m = b
  | _ => True
  end.

Definition is_handoff (ev : event) : bool :=
  match ev with
  | EvSendMessage _ None => true
  | _ => false
  end.

Definition touches_files (ev : event) : bool :=
  match ev with
  | EvExists _ _ | EvMakedirs _ _ | EvOpenWrite _ _ | EvWriteRows _ _ _ _
  | EvGetsize _ _ | EvReadFile _ _ | EvVisualize _ _ => true
  | _ => false
  end.

(** Calls to the file system only. *)
Definition file_calls (evs : list event) : Prop :=
  Forall (fun ev => touches_files ev = true) evs.

(** The calls that write the rows [rows] to the file [p] and read its
    size, all completing. *)
Definition written (p : string) (rows : list user_record) : list event :=
  [EvOpenWrite p None; EvWriteRows p fieldnames rows None; EvGetsize p None].

(** What the main block passes to [send_email] after the calls [evs]:
    either no path and the status [False]; or the status [True] and the
    path [output_dir/file_name], to which the sorted expansion of the
    non-empty extraction result has just been written. *)
Definition notification_matches (B : builtins) (api_data : pyval)
    (config : pyval) (evs : list event) (path : option string)
    (success : bool) : Prop :=
  match path with
  | None => success = false
  | Some p =>
      success = true /\
      exists data f dir pre,
        extract_user_data B api_data = Ok data /\
        data <> [] /\
        py_get config "file_name" (PStr "Workiva_Account_Aggregation.csv")
        = Ok (PStr f) /\
        py_index config "output_dir" = Ok (PStr dir) /\
        p = path_join dir f /\
        existsb is_write_event pre = false /\
        evs = pre ++ written p (sort_by_username (expand_data data))
  end.

(** The pairs of section and key that [load_config] requires. *)
Definition required_options : list (string * string) :=
  flat_map (fun sks => map (fun k => (fst sks, k)) (snd sks)) required_keys.

(** What [load_data] has to keep while it reads the rows [seen]: one
    entry per user name, holding exactly the roles of the rows of that
    user, each once. *)
Definition groups (seen : list user_record)
    (user_roles : list (string * list string)) : Prop :=
  NoDup (map fst user_roles) /\
  (forall u roles,
     In (u, roles) user_roles ->
     NoDup roles /\
     forall role,
       In role roles <->
       exists row, In row seen /\ Username row = u /\ Roles row = role) /\
  (forall row, In row seen -> In (Username row) (map fst user_roles)).

Definition key_lt (a b : string * list string) : Prop :=
  String.ltb (fst a) (fst b) = true.

Definition key_le (a b : string * list string) : Prop :=
  String.leb (fst a) (fst b) = true.

(** The [i]-th iteration of the dispatch loop on the endpoint [c] hands
    the message to the server: [send_message] returns without error. *)
Definition completes_handoff (E : environment) (email_config : pyval)
    (m : message) (i : nat) (c : pyval) : bool :=
  existsb is_handoff (attempt_events E email_config m i c).

(** The messages accepted by a server in the calls [t]. *)
Definition handoffs (t : list event) : list event := filter is_handoff t.

(** ** Text within ASCII

    On text made of ASCII characters [PyStr.lower], [PyStr.strip] and
    [PyStr.split] are the methods of [str]; statements that rest on them
    beyond the domain filter are made for such text. *)

Definition ascii_char (c : ascii) : bool := (nat_of_ascii c <? 128)%nat.

Fixpoint ascii_only (s : string) : bool :=
  match s with
  | EmptyString => true
  | String c s' => ascii_char c && ascii_only s'
  end.

(** Every string inside the value, keys included, is ASCII. *)
Fixpoint ascii_pyval (v : pyval) : bool :=
  match v with
  | PStr s => ascii_only s
  | PList l => forallb ascii_pyval l
  | PDict kvs =>
      forallb (fun kv => ascii_only (fst kv) && ascii_pyval (snd kv)) kvs
  | _ => true
  end.

Definition ascii_names (r : user_record) : bool :=
  ascii_only (Username r) && ascii_only (Email r).

(** An ASCII role name that survives the encoding unchanged. *)
Definition plain_role (r : string) : bool :=
  clean_role r && ascii_only r.

(* ================================================================== *)
(** * Sample data *)

(** Stand-ins for the interpreter's built-ins, used to evaluate examples:
    [int] reads plain decimal digits; [format] copies the text, fills the
    field [{date}], reads doubled braces as one brace, and raises on any
    other field or single brace. *)
Fixpoint format_with (date s : string) : result string :=
  match s with
  | EmptyString => Ok EmptyString
  | String "{" (String "{" rest) =>
      r <- format_with date rest ;; Ok (String "{" r)
  | String "}" (String "}" rest) =>
      r <- format_with date rest ;; Ok (String "}" r)
  | String "{"
      (String "d" (String "a" (String "t" (String "e" (String "}" rest))))) =>
      r <- format_with date rest ;; Ok (String.append date r)
  | String "{" _ => Raise KeyError
  | String "}" _ => Raise ValueError
  | String c rest => r <- format_with date rest ;; Ok (String c r)
  end.

Fixpoint digits_value (s : string) (acc : Z) : result Z :=
  match s with
  | EmptyString => Ok acc
  | String c s' =>
      let n := nat_of_ascii c in
      if ((48 <=? n) && (n <=? 57))%nat
      then digits_value s' (10 * acc + Z.of_nat (n - 48))%Z
      else Raise ValueError
  end.

Definition sample_builtins : builtins :=
  {| repr_container := fun _ => "<container>";
     int_of_str := fun s =>
       match s with
       | EmptyString => Raise ValueError
       | _ => digits_value s 0%Z
       end;
     format_date := fun s d => format_with d s |}.

Definition membership (id : string) (roles : list string) : pyval :=
  PDict [("workspaceId", PStr id); ("workspaceRoles", PList (map PStr roles))].

Definition raw_user (id name email : string) (active : pyval)
    (memberships : list pyval) (org_roles : list string) : pyval :=
  PDict [("id", PStr id); ("type", PStr "user");
         ("attributes",
          PDict [("userName", PStr name); ("email", PStr email);
                 ("active", active);
                 ("workspaceMemberships", PList memberships);
                 ("organizationRoles", PList (map PStr org_roles))])].

Definition api_response (users : list pyval) : pyval :=
  PDict [("data", PList users)].

(** The example of the specification. *)
Definition jane_attributes : pyval :=
  PDict [("email", PStr "Jane.Doe@SCE.com"); ("active", PBool true);
         ("workspaceMemberships",
          PList [PDict [("workspaceRoles", PList [PStr "Admin"; PStr "User"])]]);
         ("organizationRoles", PList [PStr "Viewer"])].

Definition jane : pyval :=
  PDict [("id", PStr "u-1"); ("attributes", jane_attributes)].

(** A user with two workspace memberships whose role lists are empty. *)
Definition two_empty_memberships : pyval :=
  raw_user "u-2" "Sam.Roe" "sam.roe@sce.com" (PBool true)
           [membership "ws-1" []; membership "ws-2" []] [].

Definition sam_record : user_record :=
  {| Username := "sam.roe"; Email := "sam.roe@sce.com"; Active := "True";
     Roles := " | " |}.

(** Users whose [active] is true as a condition without being [True]. *)
Definition active_yes_user : pyval :=
  raw_user "u-3" "Kim.Lee" "kim.lee@sce.com" (PStr "yes")
           [membership "ws-1" ["Admin"]] [].

Definition active_one_user : pyval :=
  raw_user "u-4" "Lou.Fox" "lou.fox@edisonintl.com" (PInt 1) [] ["Viewer"].

(** A user whose [active] is the string "false". *)
Definition active_false_text_user : pyval :=
  raw_user "u-9" "Pat.Kay" "pat.kay@sce.com" (PStr "false") [] ["Viewer"].

Definition inactive_attributes : pydict :=
  [("userName", PStr "Max.Ray"); ("email", PStr "max.ray@sce.com");
   ("active", PBool false);
   ("workspaceMemberships", PList [membership "ws-4" ["User"; "Manager"]]);
   ("organizationRoles", PList [])].

Definition inactive_record : pydict :=
  [("id", PStr "u-5"); ("type", PStr "user");
   ("attributes", PDict inactive_attributes)].

Definition inactive_user : pyval := PDict inactive_record.

Definition outsider : pyval :=
  raw_user "u-6" "Eve" "eve@sce.com.evil.org" (PBool true) [] ["Viewer"].

Definition sample_users : list pyval :=
  [jane; inactive_user; outsider; PDict [("id", PStr "u-7")]].

(** A configuration as [load_config] builds it. *)
Definition sample_email_config : pyval :=
  PDict [("enabled", PBool true);
         ("smtp_server", PStr "smtp.example.net");
         ("smtp_port", PStr "25");
         ("sender_email", PStr "igam@sce.com");
         ("recipients", PStr "ops@sce.com");
         ("subject", PStr "Workiva IGAM Report");
         ("include_report", PBool false)].

Definition sample_config : pyval :=
  PDict [("token_url", PStr "https://api.example.net/token");
         ("users_url", PStr "https://api.example.net/users");
         ("client_id", PStr "id");
         ("client_secret", PStr "secret");
         ("output_dir", PStr "out");
         ("file_name", PStr "Workiva_Account_Aggregation.csv");
         ("email", sample_email_config)].

Definition start_world : world :=
  {| g_config := sample_config; trace := [] |}.

Definition accepting : session :=
  {| s_connect := None; s_starttls := None; s_login := None;
     s_send := None; s_quit := None |}.

Definition refusing : session :=
  {| s_connect := Some ConnectionRefusedError; s_starttls := None;
     s_login := None; s_send := None; s_quit := None |}.

(** Only the output directory exists; every call succeeds; the [n]-th
    connection behaves as [servers n]. *)
Definition sample_env (servers : nat -> session) : environment :=
  {| path_exists := fun p => String.eqb p "out";
     makedirs := fun _ => None;
     open_write := fun _ => None;
     write_rows := fun _ => None;
     getsize := fun _ => None;
     read_file := fun _ => Raise OSError;
     hostname := "igam-host";
     today := "2024-01-31";
     today_compact := "20240131";
     script_dir := "/opt/igam";
     run_visualization := fun _ _ => Raise OtherException;
     smtp := servers |}.

(** The output directory is absent and cannot be created. *)
Definition no_directory_env : environment :=
  {| path_exists := fun _ => false;
     makedirs := fun _ => Some PermissionError;
     open_write := fun _ => None;
     write_rows := fun _ => None;
     getsize := fun _ => None;
     read_file := fun _ => Raise OSError;
     hostname := "igam-host";
     today := "2024-01-31";
     today_compact := "20240131";
     script_dir := "/opt/igam";
     run_visualization := fun _ _ => Raise OtherException;
     smtp := fun _ => refusing |}.

(** The output file cannot be opened for writing. *)
Definition read_only_env : environment :=
  {| path_exists := fun p => String.eqb p "out";
     makedirs := fun _ => None;
     open_write := fun _ => Some PermissionError;
     write_rows := fun _ => None;
     getsize := fun _ => None;
     read_file := fun _ => Raise OSError;
     hostname := "igam-host";
     today := "2024-01-31";
     today_compact := "20240131";
     script_dir := "/opt/igam";
     run_visualization := fun _ _ => Raise OtherException;
     smtp := fun _ => refusing |}.

(** The first two connections are refused, the third is accepted. *)
Definition third_accepts (n : nat) : session :=
  if (n <? 2)%nat then refusing else accepting.

Definition sample_message : message :=
  {| msg_from := PStr "igam@sce.com";
     msg_to := "ops@sce.com";
     msg_subject := "Workiva IGAM Report";
     msg_success := true;
     msg_hostname := "igam-host";
     msg_elapsed := PNone;
     msg_report_note := false;
     msg_viz_note := false;
     msg_attachments := [] |}.

Definition sample_endpoints : list (pyval * pyval * bool) :=
  smtp_endpoints (PStr "smtp.example.net") 25.

Definition elapsed_sample : pyval :=
  PFloat {| f_nonzero := true; f_str := "1.5"; f_int := Ok 1%Z |}.

(** The tallies left by the extraction of [sample_users]. *)
Definition sample_state : extract_state :=
  match extract_user_data_state sample_builtins (api_response sample_users)
  with
  | Ok st => st
  | Raise _ => extract_init
  end.

(** A record whose [email] is [null]. *)
Definition null_email_user : pyval :=
  PDict [("id", PStr "u-8");
         ("attributes",
          PDict [("userName", PStr "Ann.Poe"); ("email", PNone);
                 ("active", PBool true)])].

Definition jane_record : user_record :=
  {| Username := "jane.doe"; Email := "jane.doe@sce.com"; Active := "True";
     Roles := "Admin, User, Viewer" |}.

Definition jane_user_row : user_record :=
  {| Username := "jane.doe"; Email := "jane.doe@sce.com"; Active := "True";
     Roles := "User" |}.

(** The world after [jane_record] has been saved. *)
Definition saved_world : world :=
  snd (save_to_csv (sample_env (fun _ => refusing)) [jane_record]
         "report.csv" start_world).

(** A server that accepts everything but STARTTLS. *)
Definition no_starttls : session :=
  with_starttls accepting (Some SMTPException).

(** A configuration with notifications switched off. *)
Definition quiet_config : pyval :=
  PDict [("output_dir", PStr "out");
         ("file_name", PStr "Workiva_Account_Aggregation.csv");
         ("email", PDict [("enabled", PBool false)])].

Definition quiet_world : world :=
  {| g_config := quiet_config; trace := [] |}.

Definition sample_settings : api_settings :=
  {| token_url := "https://api.example.net/token";
     users_url := "https://api.example.net/users";
     client_id := "id";
     client_secret := "secret" |}.

Definition ok_response (body : pyval) : http_response :=
  {| raise_for_status := None; json := Ok body |}.

(** Both endpoints answer; the users endpoint returns [users]. *)
Definition sample_net (users : list pyval) : http_env :=
  {| post_token := fun _ _ _ =>
       Ok (ok_response (PDict [("access_token", PStr "tok");
                               ("expires_in", PInt 3600)]));
     get_users := fun _ _ => Ok (ok_response (api_response users)) |}.

(** A [config.ini] given by its sections and their options. *)
Definition ini_of (table : list (string * list (string * string)))
  : ini_file :=
  let options section :=
    match find (fun entry => String.eqb (fst entry) section) table with
    | Some entry => snd entry
    | None => []
    end in
  {| ini_sections := map fst table;
     ini_has_option := fun section key =>
       existsb (fun kv => String.eqb (fst kv) key) (options section);
     ini_get := fun section key =>
       match find (fun kv => String.eqb (fst kv) key) (options section) with
       | Some kv => Ok (snd kv)
       | None => Raise KeyError
       end |}.

Definition sample_ini : ini_file :=
  ini_of [("api", [("token_url", "'https://api.example.net/token'");
                   ("users_url", "https://api.example.net/users")]);
          ("auth", [("client_id", "id"); ("client_secret", "secret")]);
          ("output", [("output_dir", "out");
                      ("file_name", "Workiva_Account_Aggregation.csv")]);
          ("email", [("enabled", "True");
                     ("smtp_server", "smtp.example.net");
                     ("recipients", "ops@sce.com")])].

Definition sample_loader : loader_env :=
  {| config_exists := true; config_stat := None;
     config_parse := Ok sample_ini |}.

Definition absent_loader : loader_env :=
  {| config_exists := false; config_stat := None;
     config_parse := Raise OSError |}.

(** The state of the module before [config] is assigned. *)
Definition blank_world : world := {| g_config := PNone; trace := [] |}.

Definition imported_world : world :=
  snd (import_module sample_loader (sample_env (fun _ => refusing))
         blank_world).

(** A server that accepts the message and then answers QUIT with an
    error. *)
Definition quit_fails : session :=
  {| s_connect := None; s_starttls := None; s_login := None;
     s_send := None; s_quit := Some SMTPException |}.

(** Only the first connection meets such a server. *)
Definition first_quit_fails (n : nat) : session :=
  if (n =? 0)%nat then quit_fails else accepting.

Definition zoe_record : user_record :=
  {| Username := "zoe.ash"; Email := "zoe.ash@sce.com"; Active := "True";
     Roles := "Editor" |}.

(** Two records given out of order, and the calls of their saving. *)
Definition unsorted_records : list user_record := [zoe_record; jane_record].

Definition unsorted_saved : world :=
  snd (save_to_csv (sample_env (fun _ => refusing)) unsorted_records
         "report.csv" start_world).

(* ================================================================== *)
(** * Properties *)

(** ** Strings *)

Section StringFacts.

Import PyStr.

Lemma str_app_assoc (a b c : string) :
  ((a ++ b) ++ c)%string = (a ++ (b ++ c))%string.
Proof. induction a as [|x a IH]; simpl; [reflexivity | now rewrite IH]. Qed.

Lemma split_not_nil (c : ascii) (s : string) : split c s <> [].
Proof.
  destruct s as [|a s]; simpl; [discriminate|].
  destruct (Ascii.eqb a c); [discriminate|].
  destruct (split c s); discriminate.
Qed.

Lemma raw_tokens_not_nil (s : string) : raw_tokens s <> [].
Proof.
  unfold raw_tokens.
  destruct (split "|" s) as [|p ps] eqn:Hs.
  - now apply split_not_nil in Hs.
  - simpl. destruct (split "," p) eqn:Hp.
    + now apply split_not_nil in Hp.
    + discriminate.
Qed.

Lemma raw_tokens_empty : raw_tokens "" = [""].
Proof. reflexivity. Qed.

(** The two-level split is a single pass that cuts at either delimiter. *)
Lemma raw_tokens_cons (a : ascii) (s : string) :
  raw_tokens (String a s) =
  if is_delim a then "" :: raw_tokens s
  else match raw_tokens s with
       | h :: t => String a h :: t
       | [] => [String a ""]
       end.
Proof.
  unfold raw_tokens, is_delim. simpl.
  destruct (Ascii.eqb a "|") eqn:Hp; simpl; [reflexivity|].
  destruct (split "|" s) as [|p ps] eqn:Hs.
  { now apply split_not_nil in Hs. }
  simpl. destruct (Ascii.eqb a ",") eqn:Hc; simpl; [reflexivity|].
  destruct (split "," p) as [|q qs] eqn:Hq.
  { now apply split_not_nil in Hq. }
  reflexivity.
Qed.

Lemma raw_tokens_app_delim (d : ascii) (a r : string) :
  is_delim d = true ->
  raw_tokens (a ++ String d r) = raw_tokens a ++ raw_tokens r.
Proof.
  intros Hd. induction a as [|x a IH].
  - cbn [String.append].
    rewrite raw_tokens_cons, Hd. reflexivity.
  - cbn [String.append].
    rewrite !raw_tokens_cons, IH.
    destruct (is_delim x); [reflexivity|].
    destruct (raw_tokens a) as [|h t] eqn:Ha.
    + now apply raw_tokens_not_nil in Ha.
    + reflexivity.
Qed.

Lemma raw_tokens_snoc (x : ascii) (a : string) :
  is_delim x = false ->
  exists l h, raw_tokens a = l ++ [h] /\
              raw_tokens (a ++ String x "") = l ++ [(h ++ String x "")%string].
Proof.
  intros Hx. induction a as [|y a IH].
  - exists [], "". split; [reflexivity|].
    cbn [String.append].
    rewrite raw_tokens_cons, Hx. reflexivity.
  - destruct IH as (l & h & Ha & Hax).
    cbn [String.append].
    rewrite !raw_tokens_cons, Ha, Hax.
    destruct (is_delim y).
    + exists ("" :: l), h. split; reflexivity.
    + destruct l as [|p l]; simpl.
      * exists [], (String y h). split; reflexivity.
      * exists (String y p :: l), h. split; reflexivity.
Qed.

Lemma rstrip_app_space (x : ascii) (p : string) :
  is_space x = true -> rstrip (p ++ String x "") = rstrip p.
Proof.
  intros Hx. induction p as [|a p IH]; simpl.
  - now rewrite Hx.
  - now rewrite IH.
Qed.

Lemma strip_app_space (x : ascii) (p : string) :
  is_space x = true -> strip (p ++ String x "") = strip p.
Proof. intros Hx. unfold strip. now rewrite rstrip_app_space. Qed.

Lemma lstrip_rstrip_cons_space (x : ascii) (h : string) :
  is_space x = true -> strip (String x h) = strip h.
Proof.
  intros Hx. unfold strip. simpl.
  destruct (rstrip h) as [|b r]; simpl; now rewrite Hx.
Qed.

Lemma rstrip_idem (s : string) : rstrip (rstrip s) = rstrip s.
Proof.
  induction s as [|a s IH]; simpl; [reflexivity|].
  destruct (rstrip s) as [|b r] eqn:Hr.
  - destruct (is_space a) eqn:Ha; simpl; [reflexivity|]. now rewrite Ha.
  - simpl in *. now rewrite IH.
Qed.

Lemma lstrip_idem (s : string) : lstrip (lstrip s) = lstrip s.
Proof.
  induction s as [|a s IH]; simpl; [reflexivity|].
  destruct (is_space a) eqn:Ha; [assumption|]. simpl. now rewrite Ha.
Qed.

Lemma rstrip_lstrip (s : string) : rstrip (lstrip s) = lstrip (rstrip s).
Proof.
  induction s as [|a s IH]; [reflexivity|].
  simpl lstrip at 1. simpl rstrip at 2.
  destruct (is_space a) eqn:Ha.
  - rewrite IH.
    destruct (rstrip s) as [|b r] eqn:Hr; [reflexivity|].
    cbn [lstrip]. now rewrite Ha.
  - simpl rstrip.
    destruct (rstrip s) as [|b r] eqn:Hr; cbn [lstrip]; now rewrite Ha.
Qed.

Lemma strip_idem (s : string) : strip (strip s) = strip s.
Proof.
  unfold strip.
  now rewrite rstrip_lstrip, rstrip_idem, lstrip_idem.
Qed.

Lemma endswith_suffix (s suf : string) :
  endswith s suf = true <-> exists p, s = (p ++ suf)%string.
Proof.
  split.
  - induction s as [|a s IH]; cbn [endswith]; intros H;
      apply orb_prop in H as [H|H]; try discriminate.
    + apply String.eqb_eq in H. now exists "".
    + apply String.eqb_eq in H. now exists "".
    + destruct (IH H) as (p & ->). now exists (String a p).
  - intros (p & ->). induction p as [|a p IH].
    + cbn [String.append]. destruct suf; cbn [endswith];
        now rewrite String.eqb_refl.
    + cbn [String.append endswith]. rewrite IH. apply orb_true_r.
Qed.

Lemma lower_char_idem (c : ascii) : lower_char (lower_char c) = lower_char c.
Proof.
  destruct c as [[] [] [] [] [] [] [] []]; reflexivity.
Qed.

Lemma lower_idem (s : string) : lower (lower s) = lower s.
Proof.
  induction s as [|a s IH]; cbn [lower]; [reflexivity|].
  now rewrite lower_char_idem, IH.
Qed.

End StringFacts.

(** The domain test is a test on the end of the whole address. *)
Lemma allowed_domain_suffix (email : string) :
  allowed_domain email = true <->
  exists p, email = (p ++ "@sce.com")%string \/
            email = (p ++ "@edisonintl.com")%string.
Proof.
  unfold allowed_domain. rewrite orb_true_iff, !endswith_suffix.
  split.
  - intros [(p & H)|(p & H)]; exists p; auto.
  - intros (p & [H|H]); [left | right]; now exists p.
Qed.

(** ** The result monad *)

Lemma rbind_ok {A B : Type} (m : result A) (k : A -> result B) (b : B) :
  rbind m k = Ok b -> exists a, m = Ok a /\ k a = Ok b.
Proof. destruct m as [a|e]; simpl; [eauto | discriminate]. Qed.

Ltac bind_inv H :=
  let a := fresh "x" in
  let Ha := fresh "H" a in
  apply rbind_ok in H; destruct H as (a & Ha & H).

Lemma mapM_ok_map {A B : Type} (f : A -> B) (l : list A) :
  mapM (fun x => Ok (f x)) l = Ok (map f l).
Proof. induction l as [|x l IH]; simpl; [reflexivity | now rewrite IH]. Qed.

Lemma mapM_ok_length {A B : Type} (f : A -> result B) (l : list A) (r : list B) :
  mapM f l = Ok r -> List.length r = List.length l.
Proof.
  revert r. induction l as [|x l IH]; simpl; intros r H.
  - now inversion H.
  - bind_inv H. bind_inv H. inversion H; subst. simpl. f_equal. eauto.
Qed.

(** ** Role tokens *)

Section RoleTokens.

Import PyStr.

Lemma role_tokens_raw (s : string) :
  role_tokens s = filter nonempty (map strip (raw_tokens s)).
Proof.
  unfold role_tokens, raw_tokens. f_equal.
  induction (split "|" s) as [|p ps IH]; simpl; [reflexivity|].
  now rewrite map_app, IH.
Qed.

Lemma role_tokens_empty : role_tokens "" = [].
Proof. reflexivity. Qed.

Lemma role_tokens_app_comma (a b : string) :
  role_tokens (a ++ ", " ++ b) = role_tokens a ++ role_tokens b.
Proof.
  rewrite !role_tokens_raw.
  change (a ++ ", " ++ b)%string with (a ++ String "," (String " " b))%string.
  rewrite raw_tokens_app_delim by reflexivity.
  rewrite map_app, filter_app. f_equal.
  rewrite raw_tokens_cons. change (is_delim " ") with false. cbv iota.
  destruct (raw_tokens b) as [|h t] eqn:Hb.
  { now apply raw_tokens_not_nil in Hb. }
  cbn [map]. now rewrite lstrip_rstrip_cons_space.
Qed.

Lemma role_tokens_app_pipe (a b : string) :
  role_tokens (a ++ " | " ++ b) = role_tokens a ++ role_tokens b.
Proof.
  rewrite !role_tokens_raw.
  replace (a ++ " | " ++ b)%string
    with ((a ++ " ") ++ String "|" (String " " b))%string
    by (now rewrite str_app_assoc).
  rewrite raw_tokens_app_delim by reflexivity.
  rewrite map_app, filter_app. f_equal.
  - destruct (raw_tokens_snoc " " a eq_refl) as (l & h & Ha & Hax).
    rewrite Ha, Hax, !map_app. cbn [map].
    now rewrite strip_app_space.
  - rewrite raw_tokens_cons. change (is_delim " ") with false. cbv iota.
    destruct (raw_tokens b) as [|h t] eqn:Hb.
    { now apply raw_tokens_not_nil in Hb. }
    cbn [map]. now rewrite lstrip_rstrip_cons_space.
Qed.

Lemma role_tokens_join_comma (l : list string) :
  role_tokens (join ", " l) = flat_map role_tokens l.
Proof.
  induction l as [|x [|y l] IH].
  - reflexivity.
  - simpl. now rewrite app_nil_r.
  - change (join ", " (x :: y :: l)) with (x ++ ", " ++ join ", " (y :: l))%string.
    rewrite role_tokens_app_comma, IH. reflexivity.
Qed.

Lemma role_tokens_join_pipe (l : list string) :
  role_tokens (join " | " l) = flat_map role_tokens l.
Proof.
  induction l as [|x [|y l] IH].
  - reflexivity.
  - simpl. now rewrite app_nil_r.
  - change (join " | " (x :: y :: l)) with (x ++ " | " ++ join " | " (y :: l))%string.
    rewrite role_tokens_app_pipe, IH. reflexivity.
Qed.

Lemma role_tokens_append_org (ws org : string) :
  role_tokens (append_org_roles ws org) = role_tokens ws ++ role_tokens org.
Proof.
  unfold append_org_roles.
  destruct org as [|c org]; cbn [nonempty].
  - now rewrite role_tokens_empty, app_nil_r.
  - destruct ws as [|d ws]; cbn [nonempty].
    + reflexivity.
    + apply role_tokens_app_comma.
Qed.

Lemma raw_tokens_no_delim (r : string) :
  has_char "|" r = false -> has_char "," r = false -> raw_tokens r = [r].
Proof.
  induction r as [|a r IH]; [reflexivity|].
  cbn [has_char]. intros Hp Hc.
  apply orb_false_elim in Hp as [Hp1 Hp2].
  apply orb_false_elim in Hc as [Hc1 Hc2].
  rewrite raw_tokens_cons, IH by assumption.
  unfold is_delim. rewrite Ascii.eqb_sym, Hp1, (Ascii.eqb_sym a), Hc1.
  reflexivity.
Qed.

Lemma clean_role_tokens (r : string) :
  clean_role r = true -> role_tokens r = [r].
Proof.
  unfold clean_role. intros H.
  repeat (apply andb_prop in H as [H ?]).
  apply negb_true_iff in H1, H2. apply String.eqb_eq in H0.
  rewrite role_tokens_raw, raw_tokens_no_delim by assumption.
  cbn [map filter]. rewrite H0, H. reflexivity.
Qed.

Lemma clean_roles_tokens (l : list string) :
  forallb clean_role l = true -> flat_map role_tokens l = l.
Proof.
  induction l as [|r l IH]; cbn [forallb flat_map]; [reflexivity|].
  intros H. apply andb_prop in H as [Hr Hl].
  now rewrite clean_role_tokens, IH.
Qed.

End RoleTokens.

(** ** The roles value of a canonical record *)

Lemma flat_map_concat {A B : Type} (f : A -> list B) (ll : list (list A)) :
  flat_map f (List.concat ll) = flat_map (flat_map f) ll.
Proof.
  induction ll as [|l ll IH]; simpl; [reflexivity|].
  now rewrite flat_map_app, IH.
Qed.

Lemma py_join_ok (sep : string) (v : pyval) (s : string) :
  py_join sep v = Ok s ->
  exists items strs,
    py_iter v = Ok items /\ mapM as_str items = Ok strs /\
    s = PyStr.join sep strs.
Proof.
  unfold py_join. intros H. bind_inv H. bind_inv H. inversion H; subst.
  eauto.
Qed.

Lemma workspace_info_roles (w : pyval) (info : string) :
  workspace_info w = Ok info ->
  exists rs, membership_role_list w = Ok rs /\ info = PyStr.join ", " rs.
Proof.
  unfold workspace_info, membership_role_list, py_join. intros H.
  bind_inv H. bind_inv H. bind_inv H. bind_inv H. inversion H; subst.
  rewrite Hx0. simpl. rewrite Hx1. simpl. eauto.
Qed.

Lemma mapM_workspace_info (items : list pyval) (infos : list string) :
  mapM workspace_info items = Ok infos ->
  exists rss, mapM membership_role_list items = Ok rss /\
              infos = map (PyStr.join ", ") rss.
Proof.
  revert infos. induction items as [|w items IH]; simpl; intros infos H.
  - inversion H. exists []. split; reflexivity.
  - bind_inv H. bind_inv H. inversion H; subst.
    apply workspace_info_roles in Hx as (rs & Hrs & ->).
    apply IH in Hx0 as (rss & Hrss & ->).
    exists (rs :: rss). rewrite Hrs. simpl. rewrite Hrss. simpl.
    split; reflexivity.
Qed.

Lemma workspace_memberships_tokens (attributes : pyval) (ws : string) :
  workspace_memberships_of attributes = Ok ws ->
  exists wm memberships rss,
    py_get attributes "workspaceMemberships" PNone = Ok wm /\
    (if truthy wm then py_iter wm else Ok []) = Ok memberships /\
    mapM membership_role_list memberships = Ok rss /\
    role_tokens ws = flat_map role_tokens (List.concat rss).
Proof.
  unfold workspace_memberships_of. intros H. bind_inv H.
  exists x. destruct (truthy x) eqn:Hwm.
  - bind_inv H. bind_inv H. bind_inv H. bind_inv H. inversion H; subst.
    assert (x0 = x) as ->.
    { destruct attributes; try discriminate. simpl in Hx, Hx0.
      destruct (dict_lookup kvs "workspaceMemberships").
      - congruence.
      - inversion Hx; subst. discriminate. }
    apply mapM_workspace_info in Hx3 as (rss & Hrss & ->).
    exists x2, rss. repeat split; try assumption.
    rewrite role_tokens_join_pipe, flat_map_concat.
    clear. induction rss as [|rs rss IH]; simpl; [reflexivity|].
    now rewrite role_tokens_join_comma, IH.
  - inversion H; subst. exists [], []. repeat split; try assumption; reflexivity.
Qed.

(** C5.  Whenever the roles value of a record is built, it encodes the
    flattening of the workspace-membership role lists, in membership order
    and with the order inside each list kept, followed by the organization
    roles; a membership without [workspaceRoles] contributes ["No role"];
    nothing is deduplicated.  The value is a delimited string: read back as
    role tokens it is the tokens of the flattened roles, and the flattened
    list itself as soon as every role name is a clean token. *)
Theorem roles_value_is_flattening (attributes : pyval) (s : string) :
  roles_of attributes = Ok s ->
  exists flat,
    flat_role_list attributes = Ok flat /\
    role_tokens s = flat_map role_tokens flat /\
    (forallb clean_role flat = true -> role_tokens s = flat).
Proof.
  unfold roles_of. intros H.
  bind_inv H. apply workspace_memberships_tokens in Hx
    as (wm & memberships & rss & Hwm & Hms & Hrss & Hws).
  bind_inv H. bind_inv H. bind_inv H. bind_inv H. inversion H; subst.
  apply py_join_ok in Hx3 as (items & org_roles & Hitems & Hstrs & ->).
  assert (Htok : role_tokens (append_org_roles x (PyStr.join ", " org_roles))
                 = flat_map role_tokens (List.concat rss ++ org_roles)).
  { now rewrite role_tokens_append_org, Hws, role_tokens_join_comma,
      flat_map_app. }
  exists (List.concat rss ++ org_roles). split; [|split].
  - unfold flat_role_list. rewrite Hwm. simpl. rewrite Hms. simpl.
    rewrite Hrss. simpl. rewrite Hx2. simpl. rewrite Hitems. simpl.
    rewrite Hstrs. reflexivity.
  - exact Htok.
  - intros Hclean. rewrite Htok. now apply clean_roles_tokens.
Qed.

Lemma roles_value_is_flattening_witness :
  exists flat,
    flat_role_list jane_attributes = Ok flat /\
    role_tokens "Admin, User, Viewer" = flat_map role_tokens flat /\
    (forallb clean_role flat = true -> role_tokens "Admin, User, Viewer" = flat).
Proof.
  apply (roles_value_is_flattening jane_attributes). reflexivity.
Defined.

(** ** The order on user names *)

Section NameOrder.

Lemma compare_refl (s : string) : String.compare s s = Eq.
Proof.
  induction s as [|a s IH]; simpl; [reflexivity|].
  unfold Ascii.compare. now rewrite N.compare_refl.
Qed.

Lemma compare_lt_trans (a b c : string) :
  String.compare a b = Lt -> String.compare b c = Lt ->
  String.compare a c = Lt.
Proof.
  revert b c. induction a as [|x a IH]; intros [|y b] [|z c]; simpl;
    try discriminate; try reflexivity.
  unfold Ascii.compare.
  destruct (N.compare_spec (N_of_ascii x) (N_of_ascii y)) as [Hxy|Hxy|Hxy];
    try discriminate;
  destruct (N.compare_spec (N_of_ascii y) (N_of_ascii z)) as [Hyz|Hyz|Hyz];
    try discriminate; intros H1 H2.
  - rewrite Hxy, Hyz, N.compare_refl. eauto.
  - rewrite Hxy. now apply N.compare_lt_iff in Hyz as ->.
  - rewrite <- Hyz. now apply N.compare_lt_iff in Hxy as ->.
  - assert (Hxz : (N_of_ascii x < N_of_ascii z)%N) by lia.
    now apply N.compare_lt_iff in Hxz as ->.
Qed.

Lemma ltb_irrefl (s : string) : String.ltb s s = false.
Proof. unfold String.ltb. now rewrite compare_refl. Qed.

Lemma ltb_false_leb (a b : string) :
  String.ltb b a = false <-> String.leb a b = true.
Proof.
  unfold String.ltb, String.leb. rewrite (String.compare_antisym b a).
  destruct (String.compare a b); simpl; split; congruence.
Qed.

Lemma ltb_leb (a b : string) : String.ltb a b = true -> String.leb a b = true.
Proof.
  unfold String.ltb, String.leb. destruct (String.compare a b); congruence.
Qed.

Lemma leb_cases (a b : string) :
  String.leb a b = true -> a = b \/ String.compare a b = Lt.
Proof.
  unfold String.leb. destruct (String.compare a b) eqn:H; intros Hle.
  - left. now apply String.compare_eq_iff.
  - now right.
  - discriminate.
Qed.

Lemma leb_refl (a : string) : String.leb a a = true.
Proof. unfold String.leb. now rewrite compare_refl. Qed.

Lemma leb_trans (a b c : string) :
  String.leb a b = true -> String.leb b c = true -> String.leb a c = true.
Proof.
  intros Hab Hbc.
  destruct (leb_cases _ _ Hab) as [->|Hlt1]; [assumption|].
  destruct (leb_cases _ _ Hbc) as [<-|Hlt2]; [assumption|].
  unfold String.leb. now rewrite (compare_lt_trans _ _ _ Hlt1 Hlt2).
Qed.

Lemma username_le_trans (a b c : user_record) :
  username_le a b -> username_le b c -> username_le a c.
Proof. unfold username_le. apply leb_trans. Qed.

End NameOrder.

(** ** The stable sort *)

Section StableSort.

Lemma insert_perm (x : user_record) (l : list user_record) :
  Permutation (x :: l) (insert_by_username x l).
Proof.
  induction l as [|y l IH]; simpl; [reflexivity|].
  destruct (String.ltb (Username y) (Username x)); [|reflexivity].
  rewrite perm_swap. now constructor.
Qed.

Lemma sort_perm (l : list user_record) : Permutation l (sort_by_username l).
Proof.
  induction l as [|x l IH]; simpl; [constructor|].
  rewrite <- insert_perm. now constructor.
Qed.

Lemma insert_sorted (x : user_record) (l : list user_record) :
  StronglySorted username_le l ->
  StronglySorted username_le (insert_by_username x l).
Proof.
  induction 1 as [|y l Hl IH Hy]; simpl.
  - repeat constructor.
  - destruct (String.ltb (Username y) (Username x)) eqn:Hlt.
    + constructor; [assumption|].
      rewrite <- insert_perm. constructor; [|assumption].
      now apply ltb_leb.
    + apply ltb_false_leb in Hlt.
      constructor; [now constructor|].
      constructor; [assumption|].
      eapply Forall_impl; [|exact Hy].
      intros z Hz. eapply username_le_trans; eassumption.
Qed.

Lemma sort_sorted (l : list user_record) :
  StronglySorted username_le (sort_by_username l).
Proof.
  induction l as [|x l IH]; simpl; [constructor | now apply insert_sorted].
Qed.

Lemma insert_stable (u : string) (x : user_record) (l : list user_record) :
  filter (has_username u) (insert_by_username x l)
  = filter (has_username u) (x :: l).
Proof.
  induction l as [|y l IH]; [reflexivity|].
  cbn [insert_by_username].
  destruct (String.ltb (Username y) (Username x)) eqn:Hlt; [|reflexivity].
  cbn [filter] in *. rewrite IH.
  destruct (has_username u x) eqn:Hx; [|reflexivity].
  destruct (has_username u y) eqn:Hy; [|reflexivity].
  unfold has_username in Hx, Hy.
  apply String.eqb_eq in Hx, Hy. rewrite Hx, Hy, ltb_irrefl in Hlt.
  discriminate.
Qed.

Lemma sort_stable (u : string) (l : list user_record) :
  filter (has_username u) (sort_by_username l) = filter (has_username u) l.
Proof.
  induction l as [|x l IH]; [reflexivity|].
  cbn [sort_by_username]. rewrite insert_stable. cbn [filter].
  now rewrite IH.
Qed.

Lemma sort_of_sorted (l : list user_record) :
  Sorted username_le l -> sort_by_username l = l.
Proof.
  induction 1 as [|x l Hl IH Hx]; [reflexivity|].
  cbn [sort_by_username]. rewrite IH.
  destruct Hx as [|y l Hxy]; [reflexivity|].
  cbn [insert_by_username].
  apply ltb_false_leb in Hxy. now rewrite Hxy.
Qed.

Lemma sorted_head_le (y z : user_record) (l : list user_record) :
  StronglySorted username_le (y :: l) -> In z (y :: l) -> username_le y z.
Proof.
  intros Hs [<-|Hz].
  - apply leb_refl.
  - apply StronglySorted_inv in Hs as [_ Hall].
    rewrite Forall_forall in Hall. now apply Hall.
Qed.

Lemma filter_own_name (x : user_record) (l : list user_record) :
  filter (has_username (Username x)) (x :: l)
  = x :: filter (has_username (Username x)) l.
Proof. cbn [filter]. unfold has_username at 1. now rewrite String.eqb_refl. Qed.

(** A sorted sequence is determined by the rows of each user name taken
    in order: whatever stable sort the interpreter runs, its result is the
    one of [sort_by_username]. *)
Lemma stable_sorted_unique (l1 l2 : list user_record) :
  StronglySorted username_le l1 ->
  StronglySorted username_le l2 ->
  (forall u, filter (has_username u) l1 = filter (has_username u) l2) ->
  l1 = l2.
Proof.
  revert l2. induction l1 as [|x l1 IH]; intros [|y l2] H1 H2 Hf.
  - reflexivity.
  - specialize (Hf (Username y)). rewrite filter_own_name in Hf.
    discriminate.
  - specialize (Hf (Username x)). rewrite filter_own_name in Hf.
    discriminate.
  - assert (Hxy : Username x = Username y).
    { apply String.leb_antisym.
      - apply (sorted_head_le H1).
        apply (filter_In (has_username (Username y))).
        rewrite Hf, filter_own_name. now left.
      - apply (sorted_head_le H2).
        apply (filter_In (has_username (Username x))).
        rewrite <- Hf, filter_own_name. now left. }
    assert (Heq : x = y).
    { pose proof (Hf (Username x)) as Hx.
      rewrite filter_own_name in Hx. rewrite Hxy in Hx at 2.
      rewrite filter_own_name in Hx. now inversion Hx. }
    subst y. f_equal. apply IH.
    + now apply StronglySorted_inv in H1.
    + now apply StronglySorted_inv in H2.
    + intros u. specialize (Hf u). cbn [filter] in Hf.
      destruct (has_username u x); [now inversion Hf | assumption].
Qed.

Lemma stable_sort_is_sort_by_username (l l' : list user_record) :
  StronglySorted username_le l' ->
  (forall u, filter (has_username u) l' = filter (has_username u) l) ->
  l' = sort_by_username l.
Proof.
  intros Hs Hf. apply stable_sorted_unique; [assumption | apply sort_sorted|].
  intros u. now rewrite Hf, sort_stable.
Qed.

(** The sort of line 836 on its own: the result is ascending by user
    name in the order of the character codes (so case matters); the sort
    keeps every row, keeps the rows of one user name in their original
    relative order, and sorting a sorted sequence again returns the same
    sequence. *)
Theorem sort_by_username_stable_idempotent (l : list user_record) :
  StronglySorted username_le (sort_by_username l) /\
  Permutation l (sort_by_username l) /\
  (forall u, filter (has_username u) (sort_by_username l)
             = filter (has_username u) l) /\
  sort_by_username (sort_by_username l) = sort_by_username l /\
  (forall l', Sorted username_le l' -> sort_by_username l' = l').
Proof.
  split; [apply sort_sorted|].
  split; [apply sort_perm|].
  split; [intros u; apply sort_stable|].
  split; [|intros l'; apply sort_of_sorted].
  apply sort_of_sorted, StronglySorted_Sorted, sort_sorted.
Qed.

End StableSort.

(** ** Role expansion *)

Section Expansion.

Lemma all_memberships_raw (roles : string) :
  all_memberships roles = map PyStr.strip (raw_tokens roles).
Proof.
  unfold all_memberships, raw_tokens.
  induction (PyStr.split "|" roles) as [|p ps IH]; simpl; [reflexivity|].
  now rewrite map_app, IH.
Qed.

Lemma expand_tokens (rec : user_record) (l : list string) :
  flat_map (fun membership =>
              if PyStr.nonempty (PyStr.strip membership)
              then [set_roles rec (PyStr.strip membership)]
              else [])
           (map PyStr.strip l)
  = map (set_roles rec) (filter PyStr.nonempty (map PyStr.strip l)).
Proof.
  induction l as [|x l IH]; simpl; [reflexivity|].
  rewrite strip_idem, IH.
  now destruct (PyStr.nonempty (PyStr.strip x)).
Qed.

(** The rows of one record: one per role token when the roles string is
    not empty, the record itself when it is. *)
Lemma expand_record_rows (rec : user_record) :
  expand_record rec =
  if PyStr.nonempty (Roles rec)
  then map (set_roles rec) (role_tokens (Roles rec))
  else [rec].
Proof.
  unfold expand_record.
  destruct (PyStr.nonempty (Roles rec)); [|reflexivity].
  now rewrite all_memberships_raw, expand_tokens, role_tokens_raw.
Qed.

Lemma expand_record_count (rec : user_record) :
  List.length (expand_record rec) =
  if PyStr.nonempty (Roles rec)
  then List.length (role_tokens (Roles rec))
  else 1.
Proof.
  rewrite expand_record_rows.
  destruct (PyStr.nonempty (Roles rec)); [apply length_map | reflexivity].
Qed.

(** Where the count is the expected one: a record with at least one role
    token, or with an empty roles string. *)
Lemma expand_record_count_max (rec : user_record) :
  role_tokens (Roles rec) <> [] \/ Roles rec = "" ->
  List.length (expand_record rec)
  = Nat.max 1 (List.length (role_tokens (Roles rec))).
Proof.
  rewrite expand_record_count. intros [Htok | Hempty].
  - destruct (Roles rec) as [|c r] eqn:Hr; [now elim Htok|].
    cbn [PyStr.nonempty].
    destruct (role_tokens (String c r)) as [|t ts]; [now elim Htok|].
    simpl. reflexivity.
  - rewrite Hempty. reflexivity.
Qed.

(** C2, the missed case.  Extraction yields for a user with two
    memberships without roles the roles string " | ", which is not empty
    and holds no role token; expansion then emits no row at all for this
    user, where one row with an empty roles value is due. *)
Theorem expansion_drops_user_without_tokens :
  extract_user_data sample_builtins (api_response [two_empty_memberships])
    = Ok [sam_record] /\
  role_tokens (Roles sam_record) = [] /\
  expand_data [sam_record] = [] /\
  List.length (expand_record sam_record)
    <> Nat.max 1 (List.length (role_tokens (Roles sam_record))).
Proof. repeat split; try reflexivity. vm_compute. discriminate. Qed.

End Expansion.

(** ** Extraction *)

Section Extraction.

Variable B : builtins.

Lemma py_get_dict (kvs : pydict) (k : string) (d : pyval) :
  py_get (PDict kvs) k d = Ok (attr kvs k d).
Proof. unfold py_get, attr. now destruct (dict_lookup kvs k). Qed.

Lemma py_get_ok_dict (v : pyval) (k : string) (d x : pyval) :
  py_get v k d = Ok x -> exists kvs, v = PDict kvs.
Proof. destruct v; try discriminate. eauto. Qed.

Lemma process_attributes_verdict (a : pyval) (v : verdict) :
  process_attributes B a = Ok v ->
  exists akvs email,
    a = PDict akvs /\
    py_lower (attr akvs "email" (PStr "")) = Ok email /\
    (is_valid v = true <->
     allowed_domain email = true /\
     truthy (attr akvs "active" (PBool false)) = true) /\
    (forall r, v = Valid r -> derived_from B akvs r).
Proof.
  unfold process_attributes. intros H.
  bind_inv H. bind_inv H.
  destruct (py_get_ok_dict _ _ _ Hx0) as (akvs & ->).
  rewrite py_get_dict in Hx0. inversion Hx0; subst x0.
  bind_inv H. exists akvs, x0. split; [reflexivity|]. split; [assumption|].
  destruct (allowed_domain x0) eqn:Hdom; cbn [negb] in H.
  - rewrite py_get_dict in H. cbn [rbind] in H.
    destruct (truthy (attr akvs "active" (PBool false))) eqn:Hact;
      cbn [negb] in H.
    + rewrite py_get_dict in H. cbn [rbind] in H. bind_inv H.
      inversion H; subst v. split.
      * split; auto.
      * intros r Hr. inversion Hr; subst r. unfold derived_from. cbn.
        auto.
    + inversion H; subst v. split.
      * cbn. split; [discriminate | intros [_ ?]; discriminate].
      * discriminate.
  - inversion H; subst v. split.
    + cbn. split; [discriminate | intros [? _]; discriminate].
    + discriminate.
Qed.

Lemma process_user_verdict (u : pyval) (v : verdict) :
  process_user B u = Ok v -> verdict_for B u v.
Proof.
  unfold process_user, verdict_for. intros H.
  bind_inv H. destruct (py_get_ok_dict _ _ _ Hx) as (ukvs & ->).
  exists ukvs. split; [reflexivity|].
  cbn [py_in py_index rbind] in H.
  destruct (dict_lookup ukvs "attributes") as [a|]; cbn [negb] in H.
  - now apply process_attributes_verdict.
  - now inversion H.
Qed.

Lemma foldM_extract (users : list pyval) (st st' : extract_state) :
  foldM (extract_step B) users st = Ok st' ->
  exists vs,
    Forall2 (fun u v => process_user B u = Ok v) users vs /\
    st' = fold_left record_verdict vs st.
Proof.
  revert st. induction users as [|u users IH]; simpl; intros st H.
  - inversion H. exists []. split; [constructor | reflexivity].
  - bind_inv H. unfold extract_step in Hx. bind_inv Hx.
    inversion Hx; subst x.
    apply IH in H as (vs & Hvs & ->).
    exists (x0 :: vs). split; [now constructor | reflexivity].
Qed.

Lemma user_data_fold (vs : list verdict) (st : extract_state) :
  user_data (fold_left record_verdict vs st) = user_data st ++ emitted vs.
Proof.
  revert st. induction vs as [|v vs IH]; intros st; simpl.
  - now rewrite app_nil_r.
  - rewrite IH. destruct v; simpl; try reflexivity.
    now rewrite <- app_assoc.
Qed.

Lemma extract_user_data_verdicts (kvs : pydict) (users : list pyval)
    (out : list user_record) :
  dict_lookup kvs "data" = Some (PList users) ->
  extract_user_data B (PDict kvs) = Ok out ->
  exists vs, Forall2 (verdict_for B) users vs /\ out = emitted vs.
Proof.
  intros Hdata H. unfold extract_user_data in H. bind_inv H.
  inversion H; subst out. clear H.
  unfold extract_user_data_state in Hx.
  assert (Ht : truthy (PDict kvs) = true).
  { destruct kvs; [discriminate | reflexivity]. }
  rewrite Ht in Hx. cbn [negb py_in py_index rbind] in Hx.
  rewrite Hdata in Hx. cbn [negb py_len py_iter rbind] in Hx.
  apply foldM_extract in Hx as (vs & Hvs & ->).
  exists vs. split.
  - eapply Forall2_impl; [|exact Hvs].
    intros u v. apply process_user_verdict.
  - now rewrite user_data_fold.
Qed.

(** *** Totality on well-formed records *)

Lemma mapM_as_str_total (l : list pyval) :
  forallb is_pystr l = true -> exists strs, mapM as_str l = Ok strs.
Proof.
  induction l as [|x l IH]; simpl; [eauto|].
  intros H. apply andb_prop in H as [Hx Hl].
  destruct x; try discriminate. destruct (IH Hl) as (strs & ->).
  simpl. eauto.
Qed.

Lemma py_join_total (sep : string) (v : pyval) :
  all_str v = true -> exists s, py_join sep v = Ok s.
Proof.
  destruct v; try discriminate. intros H.
  unfold py_join. cbn [py_iter rbind].
  destruct (mapM_as_str_total l H) as (strs & ->). simpl. eauto.
Qed.

Lemma py_join_field_total (sep : string) (kvs : pydict) (k : string)
    (l : list pyval) :
  opt_field kvs k all_str = true ->
  forallb is_pystr l = true ->
  exists s, py_join sep (attr kvs k (PList l)) = Ok s.
Proof.
  unfold opt_field, attr. intros Hk Hl.
  destruct (dict_lookup kvs k).
  - now apply py_join_total.
  - now apply py_join_total.
Qed.

Lemma workspace_info_total (w : pyval) :
  wf_membership w = true -> exists s, workspace_info w = Ok s.
Proof.
  destruct w; try discriminate. intros H.
  unfold workspace_info. rewrite !py_get_dict. cbn [rbind].
  now apply (py_join_field_total ", " kvs "workspaceRoles" [PStr "No role"]).
Qed.

Lemma mapM_workspace_info_total (l : list pyval) :
  forallb wf_membership l = true -> exists infos, mapM workspace_info l = Ok infos.
Proof.
  induction l as [|w l IH]; simpl; [eauto|].
  intros H. apply andb_prop in H as [Hw Hl].
  destruct (workspace_info_total w Hw) as (s & ->).
  destruct (IH Hl) as (infos & ->). simpl. eauto.
Qed.

Lemma workspace_memberships_total (akvs : pydict) :
  opt_field akvs "workspaceMemberships" wf_memberships = true ->
  exists ws, workspace_memberships_of (PDict akvs) = Ok ws.
Proof.
  unfold opt_field, workspace_memberships_of. intros H.
  cbn [py_get py_index].
  destruct (dict_lookup akvs "workspaceMemberships") as [wm|];
    cbn [rbind truthy]; [|eauto].
  destruct wm; try discriminate. cbn [truthy].
  destruct l as [|w l]; [eauto|].
  cbn [rbind py_len py_iter].
  destruct (mapM_workspace_info_total (w :: l) H) as (infos & ->).
  simpl. eauto.
Qed.

Lemma roles_of_total (akvs : pydict) :
  opt_field akvs "workspaceMemberships" wf_memberships = true ->
  opt_field akvs "licenses" all_str = true ->
  opt_field akvs "organizationRoles" all_str = true ->
  exists roles, roles_of (PDict akvs) = Ok roles.
Proof.
  intros Hwm Hlic Horg. unfold roles_of.
  destruct (workspace_memberships_total akvs Hwm) as (ws & ->).
  rewrite !py_get_dict. cbn [rbind].
  destruct (py_join_field_total ", " akvs "licenses" [] Hlic eq_refl)
    as (s1 & ->).
  destruct (py_join_field_total ", " akvs "organizationRoles" [] Horg eq_refl)
    as (s2 & ->).
  simpl. eauto.
Qed.

Lemma py_lower_field_total (kvs : pydict) (k : string) :
  opt_field kvs k is_pystr = true ->
  exists s, py_lower (attr kvs k (PStr "")) = Ok s.
Proof.
  unfold opt_field, attr. destruct (dict_lookup kvs k) as [v|]; simpl.
  - destruct v; try discriminate. simpl. eauto.
  - eauto.
Qed.

Lemma process_user_total (u : pyval) :
  wf_user u = true -> exists v, process_user B u = Ok v.
Proof.
  destruct u; try discriminate. unfold wf_user, process_user.
  cbn [py_get py_in py_index].
  assert (Hid : exists x, match dict_lookup kvs "id" with
                          | Some x => Ok x
                          | None => Ok (PStr "unknown-id")
                          end = Ok x)
    by (destruct (dict_lookup kvs "id"); eauto).
  destruct Hid as (x & ->). cbn [rbind].
  destruct (dict_lookup kvs "attributes") as [a|]; cbn [negb]; [|eauto].
  destruct a as [| | | | | |akvs]; try discriminate. intros H.
  apply andb_prop in H as [H Hname]. apply andb_prop in H as [H Hemail].
  apply andb_prop in H as [H Horg]. apply andb_prop in H as [Hwm Hlic].
  cbn [rbind]. unfold process_attributes.
  destruct (roles_of_total akvs Hwm Hlic Horg) as (roles & ->).
  rewrite !py_get_dict. cbn [rbind].
  destruct (py_lower_field_total akvs "email" Hemail) as (email & ->).
  cbn [rbind]. destruct (allowed_domain email); cbn [negb]; [|eauto].
  destruct (truthy _); cbn [negb]; [|eauto].
  destruct (py_lower_field_total akvs "userName" Hname) as (name & ->).
  simpl. eauto.
Qed.

Lemma foldM_extract_total (users : list pyval) (st : extract_state) :
  forallb wf_user users = true ->
  exists st', foldM (extract_step B) users st = Ok st'.
Proof.
  revert st. induction users as [|u users IH]; simpl; intros st H; [eauto|].
  apply andb_prop in H as [Hu Hus].
  unfold extract_step at 1.
  destruct (process_user_total u Hu) as (v & ->). cbn [rbind].
  apply IH, Hus.
Qed.

Lemma extract_user_data_total (kvs : pydict) (users : list pyval) :
  dict_lookup kvs "data" = Some (PList users) ->
  forallb wf_user users = true ->
  exists out, extract_user_data B (PDict kvs) = Ok out.
Proof.
  intros Hdata Hwf. unfold extract_user_data, extract_user_data_state.
  assert (Ht : truthy (PDict kvs) = true).
  { destruct kvs; [discriminate | reflexivity]. }
  rewrite Ht. cbn [negb py_in py_index rbind]. rewrite Hdata.
  cbn [negb py_len py_iter rbind].
  destruct (foldM_extract_total users extract_init Hwf) as (st' & ->).
  simpl. eauto.
Qed.

End Extraction.

(** C1.  For a response whose [data] is the list [users]: whenever
    extraction returns, its output is, in order, the records kept for the
    raw records, and a raw record with attributes is kept - as a record
    derived from it - if and only if its lowered e-mail address ends with
    "@sce.com" or "@edisonintl.com" (a test on the end of the whole
    address) and it passes the active filter; and extraction does return
    when every raw record has the documented shape. *)
Theorem extraction_keeps_allowed_active (B : builtins) (kvs : pydict)
    (users : list pyval) :
  dict_lookup kvs "data" = Some (PList users) ->
  (forall out,
     extract_user_data B (PDict kvs) = Ok out ->
     exists vs, Forall2 (verdict_for B) users vs /\ out = emitted vs) /\
  (forallb wf_user users = true ->
   exists out, extract_user_data B (PDict kvs) = Ok out) /\
  (forall email,
     allowed_domain email = true <->
     exists p, email = (p ++ "@sce.com")%string \/
               email = (p ++ "@edisonintl.com")%string).
Proof.
  intros Hdata. split; [|split].
  - intros out. now apply extract_user_data_verdicts.
  - now apply extract_user_data_total.
  - apply allowed_domain_suffix.
Qed.

Lemma extraction_keeps_allowed_active_witness :
  (forall out,
     extract_user_data sample_builtins (api_response sample_users) = Ok out ->
     exists vs, Forall2 (verdict_for sample_builtins) sample_users vs /\
                out = emitted vs) /\
  (forallb wf_user sample_users = true ->
   exists out,
     extract_user_data sample_builtins (api_response sample_users) = Ok out) /\
  (forall email,
     allowed_domain email = true <->
     exists p, email = (p ++ "@sce.com")%string \/
               email = (p ++ "@edisonintl.com")%string).
Proof.
  apply (@extraction_keeps_allowed_active sample_builtins
           [("data", PList sample_users)] sample_users).
  reflexivity.
Defined.

Example extraction_sample :
  extract_user_data sample_builtins (api_response sample_users)
  = Ok [{| Username := ""; Email := "jane.doe@sce.com"; Active := "True";
           Roles := "Admin, User, Viewer" |}].
Proof. reflexivity. Qed.

(** C4.  The filter announced as "only include active users (Active =
    True)" lets through records whose [active] is not [True]: the string
    "yes", the number 1 and even the string "false" pass the domain
    filter, are not counted as inactive, and are emitted, with these
    values in the column [Active]. *)
Theorem non_boolean_active_is_emitted :
  PStr "yes" <> PBool true /\
  PInt 1 <> PBool true /\
  PStr "false" <> PBool true /\
  extract_user_data_state sample_builtins
    (api_response [active_yes_user; active_one_user; active_false_text_user])
  = Ok {| user_data :=
            [{| Username := "kim.lee"; Email := "kim.lee@sce.com";
                Active := "yes"; Roles := "Admin" |};
             {| Username := "lou.fox"; Email := "lou.fox@edisonintl.com";
                Active := "1"; Roles := "Viewer" |};
             {| Username := "pat.kay"; Email := "pat.kay@sce.com";
                Active := "false"; Roles := "Viewer" |}];
          filtered_domain_count := 0;
          filtered_inactive_count := 0;
          missing_attributes_count := 0;
          valid_count := 3 |}.
Proof.
  split; [discriminate|]. split; [discriminate|].
  split; [discriminate | reflexivity].
Qed.

(** X22.  What line 659 tests: for a raw record with attributes that
    passes the domain filter, the test on [active] is its truth value as a
    condition.  When it is false (absent, [False], [None], zero, an empty
    string, list or dictionary) the record is dropped and counted as
    filtered-inactive, nothing else changing; when it is true, whatever
    the value, the record is emitted with [str] of the value as
    [Active]. *)
Theorem active_filter_is_truth_value (B : builtins) (st : extract_state)
    (ukvs akvs : pydict) (roles email : string) :
  dict_lookup ukvs "attributes" = Some (PDict akvs) ->
  roles_of (PDict akvs) = Ok roles ->
  py_lower (attr akvs "email" (PStr "")) = Ok email ->
  allowed_domain email = true ->
  (truthy (attr akvs "active" (PBool false)) = false ->
   exists st',
     extract_step B st (PDict ukvs) = Ok st' /\
     user_data st' = user_data st /\
     filtered_inactive_count st' = S (filtered_inactive_count st) /\
     filtered_domain_count st' = filtered_domain_count st /\
     missing_attributes_count st' = missing_attributes_count st /\
     valid_count st' = valid_count st) /\
  (truthy (attr akvs "active" (PBool false)) = true ->
   forall username,
     py_lower (attr akvs "userName" (PStr "")) = Ok username ->
     exists st',
       extract_step B st (PDict ukvs) = Ok st' /\
       user_data st' =
         user_data st ++
         [{| Username := username; Email := email;
             Active := py_str B (attr akvs "active" (PBool false));
             Roles := roles |}] /\
       filtered_inactive_count st' = filtered_inactive_count st).
Proof.
  intros Hattrs Hroles Hemail Hdom.
  assert (Hstep : forall v,
             process_attributes B (PDict akvs) = Ok v ->
             extract_step B st (PDict ukvs) = Ok (record_verdict st v)).
  { intros v Hv. unfold extract_step, process_user.
    cbn [py_get py_in py_index].
    destruct (dict_lookup ukvs "id"); cbn [rbind]; rewrite Hattrs;
      cbn [negb rbind]; rewrite Hv; reflexivity. }
  assert (Hpre : forall k,
             process_attributes B (PDict akvs)
             = (if negb (allowed_domain email) then Ok FilteredDomain
                else k) ->
             process_attributes B (PDict akvs) = k).
  { intros k ->. now rewrite Hdom. }
  split.
  - intros Hact. eexists. split.
    + apply Hstep. unfold process_attributes.
      rewrite Hroles. cbn [rbind]. rewrite !py_get_dict. cbn [rbind].
      rewrite Hemail. cbn [rbind]. rewrite Hdom, Hact. reflexivity.
    + repeat split.
  - intros Hact username Hname. eexists. split.
    + apply Hstep. unfold process_attributes.
      rewrite Hroles. cbn [rbind]. rewrite !py_get_dict. cbn [rbind].
      rewrite Hemail. cbn [rbind]. rewrite Hdom, Hact. cbn [negb].
      rewrite Hname. reflexivity.
    + split; reflexivity.
Qed.

Lemma active_filter_is_truth_value_witness :
  (truthy (attr inactive_attributes "active" (PBool false)) = false ->
   exists st',
     extract_step sample_builtins extract_init (PDict inactive_record) = Ok st' /\
     user_data st' = user_data extract_init /\
     filtered_inactive_count st' = S (filtered_inactive_count extract_init) /\
     filtered_domain_count st' = filtered_domain_count extract_init /\
     missing_attributes_count st' = missing_attributes_count extract_init /\
     valid_count st' = valid_count extract_init) /\
  (truthy (attr inactive_attributes "active" (PBool false)) = true ->
   forall username,
     py_lower (attr inactive_attributes "userName" (PStr "")) = Ok username ->
     exists st',
       extract_step sample_builtins extract_init (PDict inactive_record) = Ok st' /\
       user_data st' =
         user_data extract_init ++
         [{| Username := username; Email := "max.ray@sce.com";
             Active := py_str sample_builtins
                         (attr inactive_attributes "active" (PBool false));
             Roles := "User, Manager" |}] /\
       filtered_inactive_count st' = filtered_inactive_count extract_init).
Proof.
  exact (@active_filter_is_truth_value sample_builtins extract_init
           inactive_record inactive_attributes
           "User, Manager" "max.ray@sce.com"
           eq_refl eq_refl eq_refl eq_refl).
Defined.

(** ** Serialization *)

Section Serialization.

Variable E : environment.

Ltac step := cbn -[path_join sort_by_username expand_data].

Ltac run_save :=
  unfold save_to_csv, save_to_csv_body, write_csv, os_path_exists,
    os_makedirs, os_getsize, attempt_call;
  unfold try_except, bind, lift, get_config, emit, ret, throw; step.

(** With no record to write, [save_to_csv] returns [False] and neither
    opens nor writes a file. *)
Lemma save_to_csv_empty (filename : string) (w : world) :
  exists evs,
    save_to_csv E [] filename w
    = (Ok false, {| g_config := g_config w; trace := trace w ++ evs |}) /\
    existsb is_write_event evs = false.
Proof.
  run_save. destruct w as [c t]. step.
  destruct (py_index c "output_dir") as [v|e]; step.
  2:{ exists []. now rewrite app_nil_r. }
  destruct (as_str v) as [dir|e].
  2:{ exists []. now rewrite app_nil_r. }
  destruct (path_exists E dir); step.
  - exists [EvExists dir true]. split; reflexivity.
  - destruct (makedirs E dir) as [e|]; step.
    + exists [EvExists dir false; EvMakedirs dir (Some e)].
      rewrite <- app_assoc. split; reflexivity.
    + exists [EvExists dir false; EvMakedirs dir None].
      rewrite <- app_assoc. split; reflexivity.
Qed.

(** A write that cannot be opened is reported as [False]. *)
Lemma save_to_csv_open_failure (data : list user_record) (filename : string)
    (w : world) (dir : string) (e : exn) :
  data <> [] ->
  py_index (g_config w) "output_dir" = Ok (PStr dir) ->
  path_exists E dir = true ->
  open_write E (path_join dir filename) = Some e ->
  save_to_csv E data filename w
  = (Ok false,
     {| g_config := g_config w;
        trace := trace w ++ [EvExists dir true;
                             EvOpenWrite (path_join dir filename) (Some e)] |}).
Proof.
  intros Hdata Hdir Hex Hopen. run_save. destruct w as [c t].
  cbn -[path_join sort_by_username expand_data] in *. rewrite Hdir. step. rewrite Hex.
  step. destruct data as [|r data]; [now elim Hdata|].
  step. rewrite Hopen. step.
  now rewrite <- app_assoc.
Qed.

(** On the path where everything succeeds, the rows handed to the writer
    are the expanded rows, sorted. *)
Lemma save_to_csv_writes_sorted_rows (data : list user_record)
    (filename : string) (w : world) (dir : string) :
  data <> [] ->
  py_index (g_config w) "output_dir" = Ok (PStr dir) ->
  path_exists E dir = true ->
  open_write E (path_join dir filename) = None ->
  write_rows E (path_join dir filename) = None ->
  getsize E (path_join dir filename) = None ->
  save_to_csv E data filename w
  = (Ok true,
     {| g_config := g_config w;
        trace := trace w ++
                 [EvExists dir true;
                  EvOpenWrite (path_join dir filename) None;
                  EvWriteRows (path_join dir filename) fieldnames
                    (sort_by_username (expand_data data)) None;
                  EvGetsize (path_join dir filename) None] |}).
Proof.
  intros Hdata Hdir Hex Hopen Hwrite Hsize. run_save. destruct w as [c t].
  cbn -[path_join sort_by_username expand_data] in *. rewrite Hdir. step. rewrite Hex.
  step. destruct data as [|r data]; [now elim Hdata|].
  step. rewrite Hopen. step.
  rewrite Hwrite. step. rewrite Hsize. step.
  now rewrite <- !app_assoc.
Qed.

(** C6, amended.  For a non-empty record sequence and an output directory
    that is absent, [save_to_csv] attempts to create the directory; when the
    creation fails the exception is caught by the handlers of the function,
    the failure outcome is returned and no write is attempted; when it
    succeeds the file is opened for writing next. *)
Theorem directory_creation_failure_is_fatal (data : list user_record)
    (filename : string) (w : world) (dir : string) :
  data <> [] ->
  py_index (g_config w) "output_dir" = Ok (PStr dir) ->
  path_exists E dir = false ->
  (forall e,
     makedirs E dir = Some e ->
     save_to_csv E data filename w
     = (Ok false,
        {| g_config := g_config w;
           trace := trace w ++ [EvExists dir false;
                                EvMakedirs dir (Some e)] |})) /\
  (makedirs E dir = None ->
   exists r evs,
     save_to_csv E data filename w
     = (Ok r,
        {| g_config := g_config w;
           trace := trace w ++
                    EvExists dir false :: EvMakedirs dir None ::
                    EvOpenWrite (path_join dir filename)
                                (open_write E (path_join dir filename)) ::
                    evs |})).
Proof.
  intros Hdata Hdir Hex. destruct w as [c t]. cbn -[path_join sort_by_username expand_data] in *.
  destruct data as [|r0 data]; [now elim Hdata|]. split.
  - intros e Hmk. run_save. rewrite Hdir. step. rewrite Hex.
    step. rewrite Hmk. step.
    now rewrite <- app_assoc.
  - intros Hmk. run_save. rewrite Hdir. step. rewrite Hex.
    step. rewrite Hmk. step.
    destruct (open_write E (path_join dir filename)) as [e|];
      step.
    + exists false, []. now rewrite <- !app_assoc.
    + destruct (write_rows E (path_join dir filename)) as [e|];
        step.
      * eexists false, [_]. now rewrite <- !app_assoc.
      * destruct (getsize E (path_join dir filename)) as [e|];
          step.
        -- eexists false, [_; _]. now rewrite <- !app_assoc.
        -- eexists true, [_; _]. now rewrite <- !app_assoc.
Qed.

End Serialization.

Lemma directory_creation_failure_is_fatal_witness :
  (forall e,
     makedirs no_directory_env "out" = Some e ->
     save_to_csv no_directory_env [sam_record] "report.csv" start_world
     = (Ok false,
        {| g_config := g_config start_world;
           trace := trace start_world ++
                    [EvExists "out" false; EvMakedirs "out" (Some e)] |})) /\
  (makedirs no_directory_env "out" = None ->
   exists r evs,
     save_to_csv no_directory_env [sam_record] "report.csv" start_world
     = (Ok r,
        {| g_config := g_config start_world;
           trace := trace start_world ++
                    EvExists "out" false :: EvMakedirs "out" None ::
                    EvOpenWrite (path_join "out" "report.csv")
                      (open_write no_directory_env
                         (path_join "out" "report.csv")) ::
                    evs |})).
Proof.
  apply (@directory_creation_failure_is_fatal no_directory_env
           [sam_record] "report.csv" start_world "out").
  - discriminate.
  - reflexivity.
  - reflexivity.
Defined.

(** C6 as stated fails: the directory is absent and cannot be created; the
    call returns [False] after the failed creation, and no file is opened
    or written. *)
Lemma write_after_failed_creation_counterexample :
  [sam_record] <> [] /\
  path_exists no_directory_env "out" = false /\
  save_to_csv no_directory_env [sam_record] "report.csv" start_world
  = (Ok false,
     {| g_config := sample_config;
        trace := [EvExists "out" false;
                  EvMakedirs "out" (Some PermissionError)] |}) /\
  existsb is_write_event
    (trace (snd (save_to_csv no_directory_env [sam_record] "report.csv"
                   start_world))) = false.
Proof.
  split; [discriminate|]. split; [reflexivity|]. split; reflexivity.
Qed.

(** C7 as stated fails in one point: the outcome for an empty sequence is
    not distinct from the failure outcome.  An empty sequence and a write
    that is refused both return [False]. *)
Lemma empty_outcome_counterexample :
  save_to_csv (sample_env (fun _ => accepting)) [] "report.csv" start_world
  = (Ok false,
     {| g_config := sample_config; trace := [EvExists "out" true] |}) /\
  save_to_csv read_only_env [sam_record] "report.csv" start_world
  = (Ok false,
     {| g_config := sample_config;
        trace := [EvExists "out" true;
                  EvOpenWrite "out/report.csv" (Some PermissionError)] |}).
Proof. split; reflexivity. Qed.

(** C7, amended.  Extraction of a response whose [data] is the empty list
    yields the empty sequence; [save_to_csv] of the empty sequence returns
    [False] without opening or writing a file; [False] is also what a
    failed write returns, the function having no outcome of its own for
    the empty case. *)
Theorem empty_input_yields_empty_and_false (B : builtins) (E : environment)
    (kvs : pydict) (filename : string) (w : world) :
  dict_lookup kvs "data" = Some (PList []) ->
  extract_user_data B (PDict kvs) = Ok [] /\
  (exists evs,
     save_to_csv E [] filename w
     = (Ok false, {| g_config := g_config w; trace := trace w ++ evs |}) /\
     existsb is_write_event evs = false) /\
  (forall data dir e,
     data <> [] ->
     py_index (g_config w) "output_dir" = Ok (PStr dir) ->
     path_exists E dir = true ->
     open_write E (path_join dir filename) = Some e ->
     fst (save_to_csv E data filename w) = Ok false).
Proof.
  intros Hdata. split; [|split].
  - unfold extract_user_data, extract_user_data_state.
    assert (Ht : truthy (PDict kvs) = true).
    { destruct kvs; [discriminate | reflexivity]. }
    rewrite Ht. cbn [negb py_in py_index rbind]. rewrite Hdata. reflexivity.
  - apply save_to_csv_empty.
  - intros data dir e Hne Hdir Hex Hopen.
    now rewrite (save_to_csv_open_failure E filename w Hne Hdir Hex Hopen).
Qed.

Lemma empty_input_yields_empty_and_false_witness :
  extract_user_data sample_builtins (api_response []) = Ok [] /\
  (exists evs,
     save_to_csv read_only_env [] "report.csv" start_world
     = (Ok false,
        {| g_config := g_config start_world;
           trace := trace start_world ++ evs |}) /\
     existsb is_write_event evs = false) /\
  (forall data dir e,
     data <> [] ->
     py_index (g_config start_world) "output_dir" = Ok (PStr dir) ->
     path_exists read_only_env dir = true ->
     open_write read_only_env (path_join dir "report.csv") = Some e ->
     fst (save_to_csv read_only_env data "report.csv" start_world) = Ok false).
Proof.
  apply (@empty_input_yields_empty_and_false sample_builtins read_only_env
           [("data", PList [])] "report.csv" start_world).
  reflexivity.
Defined.

(** ** Programs that only talk to the environment *)

Section PureIO.

Context {P : event -> Prop}.

Lemma pure_io_ret {A : Type} (a : A) : pure_io P (ret a).
Proof. intros c. exists (Ok a), []. split; [constructor|]. intros t.
  unfold ret. now rewrite app_nil_r. Qed.

Lemma pure_io_throw {A : Type} (e : exn) : pure_io P (@throw A e).
Proof. intros c. exists (Raise e), []. split; [constructor|]. intros t.
  unfold throw. now rewrite app_nil_r. Qed.

Lemma pure_io_lift {A : Type} (r : result A) : pure_io P (lift r).
Proof. intros c. exists r, []. split; [constructor|]. intros t.
  unfold lift. now rewrite app_nil_r. Qed.

Lemma pure_io_get_config : pure_io P get_config.
Proof. intros c. exists (Ok c), []. split; [constructor|]. intros t.
  unfold get_config. cbn. now rewrite app_nil_r. Qed.

Lemma pure_io_emit (ev : event) : P ev -> pure_io P (emit ev).
Proof. intros Hev c. exists (Ok tt), [ev]. split; [now repeat constructor|].
  reflexivity. Qed.

Lemma pure_io_bind {A C : Type} (m : prog A) (k : A -> prog C) :
  pure_io P m -> (forall a, pure_io P (k a)) -> pure_io P (bind m k).
Proof.
  intros Hm Hk c. destruct (Hm c) as (r & evs & Hevs & Hrun).
  destruct r as [a|e].
  - destruct (Hk a c) as (r' & evs' & Hevs' & Hrun').
    exists r', (evs ++ evs'). split; [now apply Forall_app|].
    intros t. unfold bind. now rewrite Hrun, Hrun', app_assoc.
  - exists (Raise e), evs. split; [assumption|].
    intros t. unfold bind. now rewrite Hrun.
Qed.

Lemma pure_io_try {A : Type} (m : prog A) (h : exn -> prog A) :
  pure_io P m -> (forall e, pure_io P (h e)) -> pure_io P (try_except m h).
Proof.
  intros Hm Hh c. destruct (Hm c) as (r & evs & Hevs & Hrun).
  destruct r as [a|e].
  - exists (Ok a), evs. split; [assumption|].
    intros t. unfold try_except. now rewrite Hrun.
  - destruct (Hh e c) as (r' & evs' & Hevs' & Hrun').
    exists r', (evs ++ evs'). split; [now apply Forall_app|].
    intros t. unfold try_except. now rewrite Hrun, Hrun', app_assoc.
Qed.

Lemma pure_io_attempt_call (ev : option exn -> event) (r : option exn) :
  P (ev r) -> pure_io P (attempt_call ev r).
Proof.
  intros Hev. unfold attempt_call. apply pure_io_bind.
  - now apply pure_io_emit.
  - intros _. destruct r; [apply pure_io_throw | apply pure_io_ret].
Qed.

Lemma pure_io_with_exit {A : Type} (s : session) (body : prog A) :
  P (EvQuit (s_quit s)) -> pure_io P body -> pure_io P (with_exit s body).
Proof.
  intros Hq Hb c. destruct (Hb c) as (r & evs & Hevs & Hrun).
  destruct (pure_io_attempt_call EvQuit (s_quit s) Hq c)
    as (rq & evq & Hevq & Hrunq).
  exists (match rq with Ok _ => r | Raise e => Raise e end), (evs ++ evq).
  split; [now apply Forall_app|].
  intros t. unfold with_exit. rewrite Hrun, Hrunq, app_assoc.
  now destruct rq.
Qed.

End PureIO.

Create HintDb pure_io.

#[local] Hint Resolve pure_io_ret pure_io_throw pure_io_lift
  pure_io_get_config : pure_io.

Section Dispatch.

Variable E : environment.
Variable email_config : pyval.
Variable m : message.

Lemma connections_app (t1 t2 : list event) :
  connections (t1 ++ t2) = connections t1 ++ connections t2.
Proof.
  induction t1 as [|ev t1 IH]; [reflexivity|].
  destruct ev; simpl; now rewrite ?IH.
Qed.

Lemma connections_quiet (evs : list event) :
  Forall quiet evs -> connections evs = [].
Proof.
  induction 1 as [|ev evs Hev _ IH]; [reflexivity|].
  destruct ev; simpl; try assumption. discriminate Hev.
Qed.

Lemma conversation_pure (P : event -> Prop) (use_tls : pyval) (s : session) :
  (forall ev, is_connect ev = false -> P ev) ->
  pure_io P (smtp_conversation email_config m use_tls s).
Proof.
  intros HP. unfold smtp_conversation.
  apply pure_io_bind.
  { destruct (truthy use_tls); auto with pure_io.
    apply pure_io_try; [|auto with pure_io].
    apply pure_io_attempt_call. now apply HP. }
  intros _.
  repeat (apply pure_io_bind; [now auto with pure_io | intros ?]).
  apply pure_io_bind.
  { destruct (_ && _); auto with pure_io.
    apply pure_io_attempt_call. now apply HP. }
  intros _. apply pure_io_bind; [|auto with pure_io].
  apply pure_io_attempt_call. now apply HP.
Qed.

Lemma smtp_attempt_pure (i : nat) :
  pure_io (fun _ => True) (smtp_attempt E email_config m i).
Proof.
  unfold smtp_attempt.
  repeat (apply pure_io_bind; [now auto with pure_io | intros ?]).
  apply pure_io_bind.
  - now apply pure_io_attempt_call.
  - intros _. apply pure_io_with_exit; [exact I|].
    now apply conversation_pure.
Qed.

(** One attempt on a well-formed endpoint opens exactly one connection,
    to that endpoint. *)
Lemma smtp_attempt_endpoint (i : nat) (server port : pyval) (use_tls : bool) :
  exists r evs,
    connections evs = [(server, port)] /\
    forall t,
      smtp_attempt E email_config m i
        {| g_config := endpoint server port use_tls; trace := t |}
      = (r, {| g_config := endpoint server port use_tls;
               trace := t ++ evs |}).
Proof.
  pose proof (@pure_io_with_exit quiet bool (smtp E i)
                (smtp_conversation email_config m (PBool use_tls) (smtp E i))
                eq_refl
                (@conversation_pure quiet (PBool use_tls) (smtp E i)
                   (fun _ H => H))
                (endpoint server port use_tls))
    as (r & evs & Hevs & Hrun).
  destruct (s_connect (smtp E i)) as [e|] eqn:Hc.
  - exists (Raise e), [EvConnect server port (Some e)].
    split; [reflexivity|]. intros t.
    unfold smtp_attempt, bind, get_config, lift, attempt_call, emit, throw.
    cbn. now rewrite Hc.
  - exists r, (EvConnect server port None :: evs). split.
    + cbn. now rewrite (connections_quiet Hevs).
    + intros t.
      unfold smtp_attempt, bind, get_config, lift, attempt_call, emit, ret.
      cbn -[with_exit smtp_conversation]. rewrite Hc.
      cbn -[with_exit smtp_conversation]. rewrite Hrun.
      now rewrite <- app_assoc.
Qed.

(** The outcome of an attempt does not depend on the calls made before. *)
Lemma smtp_attempt_outcome (i : nat) (c : pyval) (t : list event) :
  exists evs,
    try_except (smtp_attempt E email_config m i) (fun _ => ret false)
      {| g_config := c; trace := t |}
    = (Ok (endpoint_succeeds E email_config m i c),
       {| g_config := c; trace := t ++ evs |}) /\
    (forall server port use_tls,
       c = endpoint server port use_tls ->
       connections evs = [(server, port)]).
Proof.
  destruct (smtp_attempt_pure i c) as (r & evs & _ & Hrun).
  exists evs. split.
  - unfold try_except, endpoint_succeeds, ret.
    rewrite (Hrun t), (Hrun []).
    destruct r as [[|]|e]; reflexivity.
  - intros server port use_tls ->.
    destruct (smtp_attempt_endpoint i server port use_tls)
      as (r' & evs' & Hconn & Hrun').
    specialize (Hrun []). rewrite Hrun' in Hrun.
    inversion Hrun; subst. assumption.
Qed.

End Dispatch.

(** ** The dispatch loop *)

Section Failover.

Variable E : environment.
Variable email_config : pyval.
Variable m : message.

(** One iteration: [config] is rebound to the endpoint, the attempt is
    made, and the loop stops on success or moves on. *)
Lemma dispatch_cons (i : nat) (c : pyval) (rest : list pyval) (w : world) :
  exists evs,
    (forall server port use_tls,
       c = endpoint server port use_tls ->
       connections evs = [(server, port)]) /\
    dispatch E email_config m i (c :: rest) w
    = if endpoint_succeeds E email_config m i c
      then (Ok true, {| g_config := c; trace := trace w ++ evs |})
      else dispatch E email_config m (S i) rest
             {| g_config := c; trace := trace w ++ evs |}.
Proof.
  destruct (smtp_attempt_outcome E email_config m i c (trace w))
    as (evs & Hrun & Hconn).
  exists evs. split; [exact Hconn|].
  cbn [dispatch]. unfold bind at 1. unfold set_config at 1.
  unfold bind at 1. rewrite Hrun.
  destruct (endpoint_succeeds E email_config m i c); reflexivity.
Qed.

Lemma as_endpoint_address (e : pyval * pyval * bool) :
  exists server port use_tls,
    as_endpoint e = endpoint server port use_tls /\
    address e = (server, port).
Proof. destruct e as [[s p] tls]. exists s, p, tls. split; reflexivity. Qed.

Lemma dispatch_exhausted (eps : list (pyval * pyval * bool)) (i : nat)
    (w : world) :
  all_fail E email_config m i eps = true ->
  exists evs c,
    dispatch E email_config m i (map as_endpoint eps) w
    = (Raise OtherException, {| g_config := c; trace := trace w ++ evs |}) /\
    connections evs = map address eps.
Proof.
  revert i w. induction eps as [|e eps IH]; intros i w Hall.
  - exists [], (g_config w). destruct w. cbn. now rewrite app_nil_r.
  - cbn [all_fail] in Hall. apply andb_prop in Hall as [He Hrest].
    apply negb_true_iff in He.
    cbn [map].
    destruct (dispatch_cons i (as_endpoint e) (map as_endpoint eps) w)
      as (evs & Hconn & Hrun).
    rewrite He in Hrun.
    destruct (IH (S i) {| g_config := as_endpoint e;
                          trace := trace w ++ evs |} Hrest)
      as (evs' & c & Hrun' & Hconn').
    cbn [trace] in Hrun'.
    exists (evs ++ evs'), c. split.
    + now rewrite Hrun, Hrun', app_assoc.
    + destruct (as_endpoint_address e) as (s & p & tls & Hend & Haddr).
      rewrite connections_app, (Hconn _ _ _ Hend), Hconn', Haddr.
      reflexivity.
Qed.

Lemma dispatch_first_success (pre : list (pyval * pyval * bool)) (i : nat)
    (e : pyval * pyval * bool) (post : list (pyval * pyval * bool))
    (w : world) :
  all_fail E email_config m i pre = true ->
  endpoint_succeeds E email_config m (i + List.length pre) (as_endpoint e)
    = true ->
  exists evs,
    dispatch E email_config m i (map as_endpoint (pre ++ e :: post)) w
    = (Ok true, {| g_config := as_endpoint e; trace := trace w ++ evs |}) /\
    connections evs = map address (pre ++ [e]).
Proof.
  revert i w. induction pre as [|f pre IH]; intros i w Hall Hok.
  - cbn [app map List.length] in *. rewrite Nat.add_0_r in Hok.
    destruct (dispatch_cons i (as_endpoint e) (map as_endpoint post) w)
      as (evs & Hconn & Hrun).
    rewrite Hok in Hrun. exists evs. split; [exact Hrun|].
    destruct (as_endpoint_address e) as (s & p & tls & Hend & Haddr).
    now rewrite (Hconn _ _ _ Hend), Haddr.
  - cbn [all_fail] in Hall. apply andb_prop in Hall as [Hf Hrest].
    apply negb_true_iff in Hf.
    cbn [app map List.length] in *.
    destruct (dispatch_cons i (as_endpoint f)
                (map as_endpoint (pre ++ e :: post)) w)
      as (evs & Hconn & Hrun).
    rewrite Hf in Hrun.
    rewrite Nat.add_succ_r in Hok.
    destruct (IH (S i) {| g_config := as_endpoint f;
                          trace := trace w ++ evs |} Hrest Hok)
      as (evs' & Hrun' & Hconn').
    cbn [trace] in Hrun'.
    exists (evs ++ evs'). split.
    + now rewrite Hrun, Hrun', app_assoc.
    + destruct (as_endpoint_address f) as (s & p & tls & Hend & Haddr).
      rewrite connections_app, (Hconn _ _ _ Hend), Hconn', Haddr.
      reflexivity.
Qed.

(** X21.  For every ordered list of endpoints, an iteration counting as
    a success when it returns [True] (the connection, the optional login,
    [send_message] and the QUIT on leaving the [with] block all complete):
    when the first [k-1] iterations fail and the [k]-th succeeds, the loop
    opens exactly [k] connections, to the first [k] endpoints in list
    order, one each, and [True] is returned; when all [N] fail it opens
    exactly [N] connections, one per endpoint in list order, and [False]
    is returned. *)
Theorem failover_attempts :
  (forall pre e post w,
     all_fail E email_config m 0 pre = true ->
     endpoint_succeeds E email_config m (List.length pre) (as_endpoint e)
       = true ->
     exists evs w',
       dispatch_reported E email_config m
         (map as_endpoint (pre ++ e :: post)) w = (Ok true, w') /\
       trace w' = trace w ++ evs /\
       connections evs = map address (pre ++ [e]) /\
       List.length (connections evs) = S (List.length pre)) /\
  (forall eps w,
     all_fail E email_config m 0 eps = true ->
     exists evs w',
       dispatch_reported E email_config m (map as_endpoint eps) w
       = (Ok false, w') /\
       trace w' = trace w ++ evs /\
       connections evs = map address eps /\
       List.length (connections evs) = List.length eps).
Proof.
  split.
  - intros pre e post w Hall Hok.
    destruct (dispatch_first_success pre 0 e post w Hall Hok)
      as (evs & Hrun & Hconn).
    exists evs. eexists. unfold dispatch_reported, try_except.
    rewrite Hrun. split; [reflexivity|]. split; [reflexivity|].
    split; [assumption|].
    rewrite Hconn, length_map, length_app. cbn. lia.
  - intros eps w Hall.
    destruct (dispatch_exhausted eps 0 w Hall) as (evs & c & Hrun & Hconn).
    exists evs. eexists. unfold dispatch_reported, try_except.
    rewrite Hrun. split; [reflexivity|]. split; [reflexivity|].
    split; [assumption|].
    now rewrite Hconn, length_map.
Qed.

End Failover.

Lemma failover_attempts_witness :
  (exists evs w',
     dispatch_reported (sample_env third_accepts) sample_email_config
       sample_message (map as_endpoint sample_endpoints) start_world
     = (Ok true, w') /\
     trace w' = trace start_world ++ evs /\
     connections evs =
       [(PStr "smtp.example.net", PInt 25);
        (PStr "smtp.example.net", PInt 25);
        (PStr "mail.sce.com", PInt 25)] /\
     List.length (connections evs) = 3) /\
  (exists evs w',
     dispatch_reported (sample_env (fun _ => refusing)) sample_email_config
       sample_message (map as_endpoint sample_endpoints) start_world
     = (Ok false, w') /\
     trace w' = trace start_world ++ evs /\
     connections evs = map address sample_endpoints /\
     List.length (connections evs) = 8).
Proof.
  split.
  - exact (proj1 (failover_attempts (sample_env third_accepts)
                    sample_email_config sample_message)
             (firstn 2 sample_endpoints)
             (PStr "mail.sce.com", PInt 25, false)
             (skipn 3 sample_endpoints) start_world eq_refl eq_refl).
  - exact (proj2 (failover_attempts (sample_env (fun _ => refusing))
                    sample_email_config sample_message)
             sample_endpoints start_world eq_refl).
Defined.

(** ** [send_email] *)

Section Notification.

Variable B : builtins.
Variable E : environment.

Lemma returns_only_ret {A : Type} (Q : A -> Prop) (a : A) :
  Q a -> returns_only Q (ret a).
Proof. intros Ha w a' w' H. unfold ret in H. now inversion H; subst. Qed.

Lemma returns_only_throw {A : Type} (Q : A -> Prop) (e : exn) :
  returns_only Q (@throw A e).
Proof. intros w a w' H. discriminate H. Qed.

Lemma returns_only_bind {A C : Type} (Q : C -> Prop) (m : prog A)
    (k : A -> prog C) :
  (forall a, returns_only Q (k a)) -> returns_only Q (bind m k).
Proof.
  intros Hk w c w' H. unfold bind in H.
  destruct (m w) as [[a|e] w1]; [|discriminate].
  eapply Hk; eassumption.
Qed.

Lemma returns_only_try {A : Type} (Q : A -> Prop) (m : prog A)
    (h : exn -> prog A) :
  returns_only Q m -> (forall e, returns_only Q (h e)) ->
  returns_only Q (try_except m h).
Proof.
  intros Hm Hh w a w' H. unfold try_except in H.
  destruct (m w) as [[a0|e] w1] eqn:Hrun.
  - inversion H; subst. eapply Hm; eassumption.
  - eapply Hh; eassumption.
Qed.

Ltac through_binds :=
  repeat lazymatch goal with
         | |- returns_only _ (bind _ _) =>
             apply returns_only_bind; intros ?
         end.

(** The loop returns [True] only from an attempt that succeeded. *)
Lemma dispatch_returns_false (email_config : pyval) (m : message)
    (configs : list pyval) (i : nat) :
  (forall i c, endpoint_succeeds E email_config m i c = false) ->
  returns_only (fun b => b = false) (dispatch E email_config m i configs).
Proof.
  intros Hfail. revert i.
  induction configs as [|c rest IH]; intros i.
  - apply returns_only_throw.
  - intros w b w' H.
    destruct (dispatch_cons E email_config m i c rest w) as (evs & _ & Hrun).
    rewrite Hfail in Hrun. rewrite Hrun in H.
    eapply IH; eassumption.
Qed.

Lemma send_email_body_returns_false (csv_file_path : option string)
    (execution_time : pyval) (success : bool) :
  (forall email_config m i c,
     endpoint_succeeds E email_config m i c = false) ->
  returns_only (fun b => b = false)
    (send_email_body B E csv_file_path execution_time success).
Proof.
  intros Hfail. unfold send_email_body.
  through_binds.
  destruct (_ || _); [now apply returns_only_ret|].
  cbv zeta. destruct (parse_recipients _); [now apply returns_only_ret|].
  through_binds.
  cbv zeta.
  through_binds.
  apply dispatch_returns_false. intros i c. apply Hfail.
Qed.

(** The test of [enabled] cannot raise on a configuration of the expected
    shape, and the handler turns every exception of the body into
    [False]. *)
Lemma send_email_total (csv_file_path : option string)
    (execution_time : pyval) (success : bool) (w : world) :
  config_shape (g_config w) = true ->
  exists b w',
    send_email B E csv_file_path execution_time success w = (Ok b, w').
Proof.
  destruct w as [c t]. cbn [g_config]. intros Hshape.
  destruct c as [| | | | | |kvs]; try discriminate.
  unfold send_email, bind, get_config, lift. cbn [g_config py_get].
  cbn [config_shape] in Hshape.
  destruct (dict_lookup kvs "email") as [v|].
  - destruct v as [| | | | | |ekvs]; try discriminate.
    cbn [py_get]. destruct (dict_lookup ekvs "enabled") as [en|].
    + destruct (truthy en); cbn [negb]; [|unfold ret; eauto].
      unfold try_except.
      destruct (send_email_body _ _ _ _ _ _) as [[b|e] w1];
        unfold ret; eauto.
    + cbn. unfold ret. eauto.
  - cbn. unfold ret. eauto.
Qed.

(** C8.  On a configuration of the shape [load_config] produces (a
    dictionary whose [email] entry, if any, is a dictionary), [send_email]
    returns a boolean for every input and every behaviour of the
    environment: no exception leaves it.  When no endpoint can succeed, the
    boolean is [False]. *)
Theorem send_email_never_raises (csv_file_path : option string)
    (execution_time : pyval) (success : bool) (w : world) :
  config_shape (g_config w) = true ->
  (exists b w',
     send_email B E csv_file_path execution_time success w = (Ok b, w')) /\
  ((forall email_config m i c,
      endpoint_succeeds E email_config m i c = false) ->
   exists w',
     send_email B E csv_file_path execution_time success w = (Ok false, w')).
Proof.
  intros Hshape.
  destruct (send_email_total csv_file_path execution_time success w Hshape)
    as (b & w' & Hrun).
  split; [eauto|].
  intros Hfail. exists w'. rewrite Hrun. do 2 f_equal.
  revert Hrun. unfold send_email.
  generalize w b w'. change (returns_only (fun b => b = false)
    (config <-- get_config ;;
     email_section <-- lift (py_get config "email" (PDict [])) ;;
     enabled <-- lift (py_get email_section "enabled" (PBool false)) ;;
     if negb (truthy enabled) then ret false
     else
       try_except (send_email_body B E csv_file_path execution_time success)
                  (fun _ => ret false))%prog).
  through_binds.
  destruct (negb _); [now apply returns_only_ret|].
  apply returns_only_try.
  - now apply send_email_body_returns_false.
  - intros _. now apply returns_only_ret.
Qed.

End Notification.

Lemma send_email_never_raises_witness :
  (exists b w',
     send_email sample_builtins (sample_env (fun _ => refusing)) None
       elapsed_sample false start_world = (Ok b, w')) /\
  ((forall email_config m i c,
      endpoint_succeeds (sample_env (fun _ => refusing)) email_config m i c
      = false) ->
   exists w',
     send_email sample_builtins (sample_env (fun _ => refusing)) None
       elapsed_sample false start_world = (Ok false, w')).
Proof.
  apply (@send_email_never_raises sample_builtins
           (sample_env (fun _ => refusing)) None elapsed_sample false
           start_world).
  reflexivity.
Defined.

(** ** The module-level [config] across a call of [send_email] *)

Section ConfigRebinding.

Variable B : builtins.
Variable E : environment.

Lemma pure_io_rebinds {A : Type} (m : prog A) :
  pure_io quiet m -> rebinds_when_connecting m.
Proof.
  intros Hm c t. destruct (Hm c) as (r & evs & Hevs & Hrun).
  exists r, c, evs. split; [apply Hrun|].
  left. split; [reflexivity | now apply connections_quiet].
Qed.

Lemma rebinds_bind {A C : Type} (m : prog A) (k : A -> prog C) :
  pure_io quiet m -> (forall a, rebinds_when_connecting (k a)) ->
  rebinds_when_connecting (bind m k).
Proof.
  intros Hm Hk c t. destruct (Hm c) as (r & evs & Hevs & Hrun).
  pose proof (connections_quiet Hevs) as Hq.
  destruct r as [a|e].
  - destruct (Hk a c (t ++ evs)) as (r' & c' & evs' & Hrun' & Hcases).
    exists r', c', (evs ++ evs'). split.
    + unfold bind. now rewrite Hrun, Hrun', app_assoc.
    + rewrite connections_app, Hq. exact Hcases.
  - exists (Raise e), c, evs. split.
    + unfold bind. now rewrite Hrun.
    + left. now split.
Qed.

Lemma rebinds_try {A : Type} (m : prog A) (a : A) :
  rebinds_when_connecting m ->
  rebinds_when_connecting (try_except m (fun _ => ret a)).
Proof.
  intros Hm c t. destruct (Hm c t) as (r & c' & evs & Hrun & Hcases).
  exists (match r with Ok x => Ok x | Raise _ => Ok a end), c', evs.
  split; [|exact Hcases].
  unfold try_except. rewrite Hrun. now destruct r.
Qed.

Lemma dispatch_rebinds (email_config : pyval) (m : message)
    (eps : list (pyval * pyval * bool)) (i : nat) (w : world) :
  eps <> [] ->
  exists r c' evs,
    dispatch E email_config m i (map as_endpoint eps) w
    = (r, {| g_config := c'; trace := trace w ++ evs |}) /\
    connections evs <> [] /\
    exists server port use_tls, c' = endpoint server port use_tls.
Proof.
  revert i w. induction eps as [|e eps IH]; intros i w Hne; [now elim Hne|].
  cbn [map].
  destruct (dispatch_cons E email_config m i (as_endpoint e)
              (map as_endpoint eps) w) as (evs & Hconn & Hrun).
  destruct (as_endpoint_address e) as (s & p & tls & Hend & Haddr).
  pose proof (Hconn _ _ _ Hend) as Hc.
  destruct (endpoint_succeeds E email_config m i (as_endpoint e)).
  - exists (Ok true), (as_endpoint e), evs. split; [exact Hrun|].
    split; [now rewrite Hc | eauto].
  - destruct eps as [|f eps].
    + exists (Raise OtherException), (as_endpoint e), evs.
      split; [exact Hrun|]. split; [now rewrite Hc | eauto].
    + destruct (IH (S i) {| g_config := as_endpoint e;
                            trace := trace w ++ evs |})
        as (r & c' & evs' & Hrun' & Hne' & Hshape); [discriminate|].
      cbn [trace] in Hrun'.
      exists r, c', (evs ++ evs'). split.
      * now rewrite Hrun, Hrun', app_assoc.
      * split; [|exact Hshape].
        rewrite connections_app, Hc. discriminate.
Qed.

Lemma smtp_configs_endpoints (smtp_server : pyval) (smtp_port : Z) :
  smtp_configs smtp_server smtp_port
  = map as_endpoint (smtp_endpoints smtp_server smtp_port).
Proof. reflexivity. Qed.

Lemma os_path_exists_quiet (p : string) : pure_io quiet (os_path_exists E p).
Proof.
  unfold os_path_exists. apply pure_io_bind; [|auto with pure_io].
  now apply pure_io_emit.
Qed.

Lemma os_getsize_quiet (p : string) : pure_io quiet (os_getsize E p).
Proof. unfold os_getsize. now apply pure_io_attempt_call. Qed.

Lemma os_read_file_quiet (p : string) : pure_io quiet (os_read_file E p).
Proof.
  unfold os_read_file. destruct (read_file E p);
    (apply pure_io_bind; [now apply pure_io_emit | auto with pure_io]).
Qed.

#[local] Hint Resolve os_path_exists_quiet os_getsize_quiet
  os_read_file_quiet : pure_io.

Lemma check_report_file_quiet (include_report : pyval)
    (csv_file_path : option string) :
  pure_io quiet (check_report_file E include_report csv_file_path).
Proof.
  unfold check_report_file. destruct csv_file_path; auto with pure_io.
  destruct (_ && _); auto with pure_io.
  apply pure_io_bind; auto with pure_io.
  intros []; auto with pure_io.
Qed.

Lemma report_available_quiet (success : bool) (include_report : pyval)
    (csv_file_path : option string) :
  pure_io quiet (report_available E success include_report csv_file_path).
Proof.
  unfold report_available. destruct csv_file_path; auto with pure_io.
  destruct (_ && _); auto with pure_io.
Qed.

Lemma attach_report_quiet (success : bool) (include_report : pyval)
    (csv_file_path : option string) (m : message) :
  pure_io quiet (attach_report E success include_report csv_file_path m).
Proof.
  unfold attach_report. apply pure_io_bind.
  - apply report_available_quiet.
  - intros available. destruct csv_file_path; auto with pure_io.
    destruct available; auto with pure_io.
    apply pure_io_bind; auto with pure_io.
Qed.

Ltac io_binds :=
  repeat lazymatch goal with
         | |- pure_io _ (bind _ _) =>
             apply pure_io_bind; [now auto with pure_io | intros ?]
         end.

Lemma attach_log_quiet (m : message) : pure_io quiet (attach_log E m).
Proof.
  unfold attach_log. io_binds. cbv zeta. io_binds.
  match goal with |- pure_io _ (if ?b then _ else _) => destruct b end;
    auto with pure_io.
  apply pure_io_try; auto with pure_io.
  apply pure_io_bind; auto with pure_io.
Qed.

Lemma attach_visualization_quiet (csv_file_path : option string)
    (m : message) :
  pure_io quiet (attach_visualization E csv_file_path m).
Proof.
  unfold attach_visualization. apply pure_io_try; auto with pure_io.
  cbv zeta. apply pure_io_bind; auto with pure_io.
  intros []; auto with pure_io.
  destruct (run_visualization E _ _).
  - apply pure_io_bind; [now apply pure_io_emit|]. intros _.
    apply pure_io_bind; auto with pure_io.
    intros []; auto with pure_io.
    apply pure_io_bind; auto with pure_io.
  - apply pure_io_bind; [now apply pure_io_emit | auto with pure_io].
Qed.

#[local] Hint Resolve check_report_file_quiet report_available_quiet
  attach_report_quiet attach_log_quiet attach_visualization_quiet : pure_io.

Ltac quiet_binds :=
  repeat lazymatch goal with
         | |- rebinds_when_connecting (bind _ _) =>
             apply rebinds_bind; [now auto with pure_io | intros ?]
         end.

Lemma send_email_body_rebinds (csv_file_path : option string)
    (execution_time : pyval) (success : bool) :
  rebinds_when_connecting
    (send_email_body B E csv_file_path execution_time success).
Proof.
  unfold send_email_body. quiet_binds.
  destruct (_ || _); [apply pure_io_rebinds; auto with pure_io|].
  cbv zeta.
  destruct (parse_recipients _); [apply pure_io_rebinds; auto with pure_io|].
  quiet_binds. cbv zeta. quiet_binds.
  rewrite smtp_configs_endpoints. intros c t.
  match goal with
  | |- context [dispatch E ?ec ?m 0 (map as_endpoint ?eps)] =>
      destruct (@dispatch_rebinds ec m eps 0 {| g_config := c; trace := t |})
        as (r & c' & evs & Hrun & Hne & Hshape); [discriminate|]
  end.
  exists r, c', evs. split; [exact Hrun|]. right. now split.
Qed.

Lemma send_email_rebinds (csv_file_path : option string)
    (execution_time : pyval) (success : bool) :
  rebinds_when_connecting
    (send_email B E csv_file_path execution_time success).
Proof.
  unfold send_email. quiet_binds.
  destruct (negb _); [apply pure_io_rebinds; auto with pure_io|].
  apply rebinds_try, send_email_body_rebinds.
Qed.

End ConfigRebinding.

(** C10, the defect.  On the sample configuration, with a first endpoint
    that accepts the message, [send_email] returns [True] and leaves in the
    module-level [config] the descriptor of that endpoint instead of the
    configuration loaded at startup; a second notification in the same
    process then finds no [email] section and returns [False] without
    trying any endpoint. *)
Theorem send_email_overwrites_config :
  let E := sample_env (fun _ => accepting) in
  let run := send_email sample_builtins E None elapsed_sample true start_world in
  fst run = Ok true /\
  connections (trace (snd run)) = [(PStr "smtp.example.net", PInt 25)] /\
  g_config (snd run) = endpoint (PStr "smtp.example.net") (PInt 25) true /\
  g_config (snd run) <> g_config start_world /\
  send_email sample_builtins E None elapsed_sample false (snd run)
  = (Ok false, snd run).
Proof.
  cbv zeta. split; [reflexivity|]. split; [reflexivity|].
  split; [reflexivity|]. split; [discriminate | reflexivity].
Qed.

(** On every call, [config] is left alone when no connection is opened and
    holds an endpoint descriptor afterwards - never the former value - as
    soon as one endpoint is attempted. *)
Lemma send_email_config_after (B : builtins) (E : environment)
    (csv_file_path : option string) (execution_time : pyval) (success : bool)
    (w : world) :
  exists r w' evs,
    send_email B E csv_file_path execution_time success w = (r, w') /\
    trace w' = trace w ++ evs /\
    (connections evs = [] -> g_config w' = g_config w) /\
    (connections evs <> [] ->
     g_config w' <> g_config w /\
     exists server port use_tls,
       g_config w' = endpoint server port use_tls).
Proof.
  destruct w as [c t].
  destruct (send_email_rebinds B E csv_file_path execution_time success c t)
    as (r & c' & evs & Hrun & Hcases).
  exists r, {| g_config := c'; trace := t ++ evs |}, evs.
  split; [exact Hrun|]. split; [reflexivity|]. cbn [g_config].
  destruct Hcases as [[-> Hnone] | [Hsome (s & p & tls & ->)]].
  - split; [reflexivity | intros Hne; now elim Hne].
  - split; [intros Hnone; now elim Hsome|].
    intros _. split; [|eauto].
    intros Heq. subst c. apply Hsome.
    unfold send_email, bind, get_config, lift, ret in Hrun. cbn in Hrun.
    inversion Hrun as [[Hr Ht]].
    assert (Hevs : evs = []).
    { apply (app_inv_head t). now rewrite app_nil_r. }
    now rewrite Hevs.
Qed.

(** The shape of [config] that [send_email] relies on is kept by it. *)
Lemma send_email_keeps_config_shape (B : builtins) (E : environment)
    (csv_file_path : option string) (execution_time : pyval) (success : bool)
    (w : world) :
  config_shape (g_config w) = true ->
  config_shape
    (g_config (snd (send_email B E csv_file_path execution_time success w)))
  = true.
Proof.
  intros Hshape.
  destruct (send_email_config_after B E csv_file_path execution_time success w)
    as (r & w' & evs & Hrun & _ & Hsame & Hnew).
  rewrite Hrun. cbn [snd].
  destruct (connections evs) as [|a l] eqn:Hc.
  - now rewrite Hsame.
  - destruct Hnew as (_ & s & p & tls & ->); [discriminate | reflexivity].
Qed.

(** ** Small checks of the primitives *)

Example lower_example : PyStr.lower "Jane.Doe@SCE.com" = "jane.doe@sce.com".
Proof. reflexivity. Qed.

Example split_example : PyStr.split "," "a,,b" = ["a"; ""; "b"].
Proof. reflexivity. Qed.

Example strip_example : PyStr.strip "  a b  " = "a b".
Proof. reflexivity. Qed.

Example endswith_example :
  PyStr.endswith "x@notsce.com" "@sce.com" = false /\
  PyStr.endswith "x@sce.com" "@sce.com" = true /\
  PyStr.endswith "x@sce.com.evil.org" "@sce.com" = false.
Proof. split; [|split]; reflexivity. Qed.

Example str_of_Z_example :
  str_of_Z 0 = "0" /\ str_of_Z 25 = "25" /\ str_of_Z (-3) = "-3".
Proof. split; [|split]; reflexivity. Qed.

Example name_order_is_by_character_code :
  String.ltb "Zed" "adam" = true /\ String.ltb "adam" "zed" = true.
Proof. split; reflexivity. Qed.

Example jane_expands_to_three_rows :
  expand_data
    [{| Username := ""; Email := "jane.doe@sce.com"; Active := "True";
        Roles := "Admin, User, Viewer" |}]
  = [{| Username := ""; Email := "jane.doe@sce.com"; Active := "True";
        Roles := "Admin" |};
     {| Username := ""; Email := "jane.doe@sce.com"; Active := "True";
        Roles := "User" |};
     {| Username := ""; Email := "jane.doe@sce.com"; Active := "True";
        Roles := "Viewer" |}].
Proof. reflexivity. Qed.

(* ================================================================== *)
(** * Further properties *)

(** ** ASCII text is kept ASCII *)

Section AsciiText.

Import PyStr.

Lemma lower_char_ascii (c : ascii) :
  ascii_char c = true -> ascii_char (lower_char c) = true.
Proof.
  unfold ascii_char, lower_char. intros Hc.
  destruct ((65 <=? nat_of_ascii c) && (nat_of_ascii c <=? 90))%nat eqn:Hup;
    [|assumption].
  apply andb_prop in Hup as [_ Hle]. apply Nat.leb_le in Hle.
  rewrite nat_ascii_embedding by lia. apply Nat.ltb_lt. lia.
Qed.

Lemma lower_ascii (s : string) :
  ascii_only s = true -> ascii_only (lower s) = true.
Proof.
  induction s as [|c s IH]; [reflexivity|]. cbn [ascii_only lower].
  intros H. apply andb_prop in H as [Hc Hs].
  now rewrite (lower_char_ascii _ Hc), (IH Hs).
Qed.

Lemma lstrip_ascii (s : string) :
  ascii_only s = true -> ascii_only (lstrip s) = true.
Proof.
  induction s as [|c s IH]; [reflexivity|]. cbn [lstrip]. intros H.
  destruct (is_space c); [|assumption].
  cbn [ascii_only] in H. apply andb_prop in H as [_ Hs]. now apply IH.
Qed.

Lemma rstrip_ascii (s : string) :
  ascii_only s = true -> ascii_only (rstrip s) = true.
Proof.
  induction s as [|c s IH]; [reflexivity|]. cbn [rstrip ascii_only].
  intros H. apply andb_prop in H as [Hc Hs]. specialize (IH Hs).
  destruct (rstrip s) as [|d r].
  - destruct (is_space c); [reflexivity|]. cbn [ascii_only].
    now rewrite Hc.
  - cbn [ascii_only] in *. now rewrite Hc, IH.
Qed.

Lemma strip_ascii (s : string) :
  ascii_only s = true -> ascii_only (strip s) = true.
Proof. intros H. unfold strip. now apply lstrip_ascii, rstrip_ascii. Qed.

Lemma split_ascii (c : ascii) (s : string) :
  ascii_only s = true -> forallb ascii_only (split c s) = true.
Proof.
  induction s as [|a s IH]; [reflexivity|]. cbn [ascii_only split].
  intros H. apply andb_prop in H as [Ha Hs]. specialize (IH Hs).
  destruct (Ascii.eqb a c); [exact IH|].
  destruct (split c s) as [|q qs]; cbn [forallb ascii_only] in *.
  - now rewrite Ha.
  - apply andb_prop in IH as [Hq Hqs]. now rewrite Ha, Hq, Hqs.
Qed.

Lemma role_tokens_ascii (s t : string) :
  ascii_only s = true -> In t (role_tokens s) -> ascii_only t = true.
Proof.
  intros Hs Ht. unfold role_tokens in Ht.
  apply filter_In in Ht as [Ht _].
  apply in_flat_map in Ht as (part & Hpart & Ht).
  apply in_map_iff in Ht as (piece & <- & Hpiece).
  apply strip_ascii.
  pose proof (split_ascii "|" s Hs) as H1. rewrite forallb_forall in H1.
  pose proof (split_ascii "," part (H1 _ Hpart)) as H2.
  rewrite forallb_forall in H2. now apply H2.
Qed.

Lemma chars_ascii (s : string) :
  ascii_only s = true -> forallb ascii_pyval (map PStr (chars s)) = true.
Proof.
  induction s as [|c s IH]; [reflexivity|]. cbn [ascii_only chars map forallb].
  intros H. apply andb_prop in H as [Hc Hs].
  cbn [ascii_pyval ascii_only]. now rewrite Hc, (IH Hs).
Qed.

Lemma dict_lookup_ascii (kvs : pydict) (k : string) (v : pyval) :
  ascii_pyval (PDict kvs) = true ->
  dict_lookup kvs k = Some v -> ascii_pyval v = true.
Proof.
  cbn [ascii_pyval]. induction kvs as [|[k' v'] kvs IH]; [discriminate|].
  cbn [forallb dict_lookup fst snd]. intros H.
  apply andb_prop in H as [Hkv Hrest]. apply andb_prop in Hkv as [_ Hv'].
  destruct (String.eqb k' k).
  - intros Heq. now inversion Heq; subst.
  - now apply IH.
Qed.

Lemma dict_keys_ascii (kvs : pydict) :
  ascii_pyval (PDict kvs) = true ->
  forallb ascii_pyval (map PStr (dict_keys kvs)) = true.
Proof.
  cbn [ascii_pyval]. intros H. apply forallb_forall. intros x Hx.
  apply in_map_iff in Hx as (k & <- & Hk). cbn [ascii_pyval].
  rewrite forallb_forall in H.
  assert (Hin : exists v, In (k, v) kvs).
  { clear H. induction kvs as [|[k' v'] kvs IH]; [destruct Hk|].
    cbn [dict_keys] in Hk. destruct Hk as [<- | Hk].
    - exists v'. now left.
    - apply filter_In in Hk as [Hk _]. destruct (IH Hk) as (v & Hv).
      exists v. now right. }
  destruct Hin as (v & Hv). specialize (H _ Hv). cbn [fst snd] in H.
  now apply andb_prop in H as [H _].
Qed.

Lemma py_index_ascii (v : pyval) (k : string) (x : pyval) :
  ascii_pyval v = true -> py_index v k = Ok x -> ascii_pyval x = true.
Proof.
  destruct v as [| | | | | |kvs]; try discriminate. intros Hv. cbn [py_index].
  destruct (dict_lookup kvs k) as [y|] eqn:Hy; [|discriminate].
  intros Heq. inversion Heq; subst. eapply dict_lookup_ascii; eassumption.
Qed.

Lemma py_iter_ascii (v : pyval) (l : list pyval) :
  ascii_pyval v = true -> py_iter v = Ok l -> forallb ascii_pyval l = true.
Proof.
  destruct v as [| | | |s|items|kvs]; try discriminate;
    intros Hv Heq; cbn [py_iter] in Heq; inversion Heq; subst.
  - now apply chars_ascii.
  - exact Hv.
  - now apply dict_keys_ascii.
Qed.

Lemma py_lower_attr_ascii (akvs : pydict) (k s : string) :
  ascii_pyval (PDict akvs) = true ->
  py_lower (attr akvs k (PStr "")) = Ok s -> ascii_only s = true.
Proof.
  intros Ha. unfold attr.
  destruct (dict_lookup akvs k) as [v|] eqn:Hv.
  - pose proof (dict_lookup_ascii _ _ Ha Hv) as Hasc.
    destruct v; try discriminate. cbn [py_lower]. intros Heq.
    inversion Heq. now apply lower_ascii.
  - cbn [py_lower]. intros Heq. now inversion Heq.
Qed.

End AsciiText.

(** ** Extraction: tallies, output invariant, malformed records *)

Section ExtractionMore.

Variable B : builtins.

Lemma extract_state_runs (api_data : pyval) (st : extract_state) :
  extract_user_data_state B api_data = Ok st ->
  exists users vs,
    Forall2 (fun u v => process_user B u = Ok v) users vs /\
    st = fold_left record_verdict vs extract_init /\
    (forall kvs l, api_data = PDict kvs ->
                   dict_lookup kvs "data" = Some (PList l) -> users = l).
Proof.
  unfold extract_user_data_state. intros H.
  destruct (truthy api_data) eqn:Ht; cbn [negb] in H.
  2:{ inversion H; subst. exists [], []. split; [constructor|].
      split; [reflexivity|]. intros kvs l -> Hd.
      destruct kvs; [discriminate Hd | discriminate Ht]. }
  bind_inv H. destruct x; cbn [negb] in H.
  - bind_inv H. bind_inv H. bind_inv H.
    apply foldM_extract in H as (vs & Hvs & ->).
    exists x1, vs. split; [assumption|]. split; [reflexivity|].
    intros kvs l -> Hd. cbn [py_index] in Hx0. rewrite Hd in Hx0.
    inversion Hx0; subst x. now inversion Hx2.
  - inversion H; subst. exists [], []. split; [constructor|].
    split; [reflexivity|]. intros kvs l -> Hd.
    cbn [py_in] in Hx. rewrite Hd in Hx. discriminate Hx.
Qed.

Lemma fold_tallies (vs : list verdict) (st : extract_state) :
  records_seen (fold_left record_verdict vs st)
  = records_seen st + List.length vs /\
  (valid_count st = List.length (user_data st) ->
   valid_count (fold_left record_verdict vs st)
   = List.length (user_data (fold_left record_verdict vs st))).
Proof.
  revert st. induction vs as [|v vs IH]; intros st; cbn [fold_left].
  - split; [unfold records_seen; cbn; lia | auto].
  - destruct (IH (record_verdict st v)) as [Hseen Hvalid]. split.
    + rewrite Hseen. destruct v; unfold records_seen; cbn; lia.
    + intros Hst. apply Hvalid.
      destruct v; cbn; try assumption.
      rewrite length_app. cbn. lia.
Qed.

(** X1.  When extraction returns, every raw record has been tallied once:
    the four counters add up to the number of records in [data], and the
    count of valid records is the length of the output. *)
Theorem extraction_tallies_add_up (kvs : pydict) (users : list pyval)
    (st : extract_state) :
  dict_lookup kvs "data" = Some (PList users) ->
  extract_user_data_state B (PDict kvs) = Ok st ->
  records_seen st = List.length users /\
  valid_count st = List.length (user_data st).
Proof.
  intros Hdata Hrun.
  destruct (extract_state_runs _ Hrun) as (us & vs & Hvs & -> & Hus).
  rewrite (Hus kvs users eq_refl Hdata) in Hvs.
  destruct (fold_tallies vs extract_init) as [Hseen Hvalid].
  split.
  - rewrite Hseen. cbn. symmetry. eapply Forall2_length; eassumption.
  - now apply Hvalid.
Qed.

Lemma valid_is_canonical (u : pyval) (r : user_record) :
  process_user B u = Ok (Valid r) -> canonical r.
Proof.
  intros H. apply process_user_verdict in H as (ukvs & -> & H).
  destruct (dict_lookup ukvs "attributes") as [a|]; [|discriminate H].
  destruct H as (akvs & email & -> & Hemail & Hiff & Hder).
  destruct (Hder r eq_refl) as (He & Hn & _ & _).
  assert (email = Email r) as -> by congruence.
  destruct (proj1 Hiff eq_refl) as [Hdom _].
  unfold canonical. repeat split; try assumption.
  - destruct (attr akvs "userName" (PStr "")); try discriminate Hn.
    cbn in Hn. inversion Hn. apply lower_idem.
  - destruct (attr akvs "email" (PStr "")); try discriminate He.
    cbn in He. inversion He. apply lower_idem.
Qed.

Lemma valid_is_ascii (u : pyval) (r : user_record) :
  ascii_pyval u = true ->
  process_user B u = Ok (Valid r) -> ascii_names r = true.
Proof.
  intros Hu H. apply process_user_verdict in H as (ukvs & -> & H).
  destruct (dict_lookup ukvs "attributes") as [a|] eqn:Ha; [|discriminate H].
  destruct H as (akvs & email & -> & _ & _ & Hder).
  destruct (Hder r eq_refl) as (He & Hn & _ & _).
  pose proof (dict_lookup_ascii _ _ Hu Ha) as Hakvs.
  unfold ascii_names.
  now rewrite (py_lower_attr_ascii _ _ Hakvs Hn),
    (py_lower_attr_ascii _ _ Hakvs He).
Qed.

Lemma extract_state_users (api_data : pyval) (st : extract_state) :
  extract_user_data_state B api_data = Ok st ->
  exists users vs,
    Forall2 (fun u v => process_user B u = Ok v) users vs /\
    st = fold_left record_verdict vs extract_init /\
    (users = [] \/
     exists data, py_index api_data "data" = Ok data /\
                  py_iter data = Ok users).
Proof.
  unfold extract_user_data_state. intros H.
  destruct (truthy api_data); cbn [negb] in H.
  2:{ inversion H; subst. exists [], []. split; [constructor|]. auto. }
  bind_inv H. destruct x; cbn [negb] in H.
  - bind_inv H. bind_inv H. bind_inv H.
    apply foldM_extract in H as (vs & Hvs & ->).
    exists x1, vs. split; [assumption|]. split; [reflexivity|]. eauto.
  - inversion H; subst. exists [], []. split; [constructor|]. auto.
Qed.

(** X2.  For a response whose text is ASCII, every record extraction
    returns is canonical: user name and address are ASCII and lower case,
    and the address ends with "@sce.com" or "@edisonintl.com". *)
Theorem extracted_records_are_canonical (api_data : pyval)
    (out : list user_record) :
  ascii_pyval api_data = true ->
  extract_user_data B api_data = Ok out ->
  Forall (fun r => canonical r /\ ascii_names r = true) out.
Proof.
  unfold extract_user_data. intros Hascii H. bind_inv H.
  inversion H; subst out.
  destruct (extract_state_users _ Hx) as (us & vs & Hvs & -> & Hus).
  assert (Hall : forallb ascii_pyval us = true).
  { destruct Hus as [-> | (data & Hidx & Hit)]; [reflexivity|].
    eapply py_iter_ascii; [|exact Hit].
    eapply py_index_ascii; eassumption. }
  rewrite user_data_fold. cbn [user_data extract_init app].
  clear Hx H Hus. induction Hvs as [|u v us vs Hu _ IH]; [constructor|].
  cbn [forallb] in Hall. apply andb_prop in Hall as [Hua Hall].
  cbn [emitted flat_map]. apply Forall_app. split; [|exact (IH Hall)].
  destruct v; try constructor; [|constructor].
  split; [eapply valid_is_canonical | eapply valid_is_ascii]; eassumption.
Qed.

Lemma foldM_extract_raises (pre : list pyval) (u : pyval)
    (post : list pyval) (e : exn) (st : extract_state) :
  forallb wf_user pre = true ->
  process_user B u = Raise e ->
  foldM (extract_step B) (pre ++ u :: post) st = Raise e.
Proof.
  revert st. induction pre as [|p pre IH]; intros st Hpre Hu.
  - cbn. unfold extract_step. now rewrite Hu.
  - cbn [forallb] in Hpre. apply andb_prop in Hpre as [Hp Hpre].
    cbn. unfold extract_step at 1.
    destruct (process_user_total B p Hp) as (v & ->). cbn [rbind].
    now apply IH.
Qed.

Lemma process_user_breaks (u : pyval) :
  breaks_extraction u = true -> process_user B u = Raise AttributeError.
Proof.
  destruct u as [| | | | | |ukvs]; try reflexivity.
  unfold breaks_extraction, process_user. cbn [py_get py_in py_index].
  destruct (dict_lookup ukvs "id"); cbn [rbind];
    (destruct (dict_lookup ukvs "attributes") as [a|];
     [|discriminate]; cbn [negb rbind];
     destruct a as [| | | | | |akvs]; try reflexivity;
     intros H;
     apply andb_prop in H as [H Hemail]; apply andb_prop in H as [H Horg];
     apply andb_prop in H as [Hwm Hlic];
     unfold process_attributes;
     destruct (roles_of_total akvs Hwm Hlic Horg) as (roles & ->);
     rewrite py_get_dict; cbn [rbind];
     unfold opt_field in Hemail; unfold attr;
     destruct (dict_lookup akvs "email") as [v|]; [|discriminate];
     destruct v; try reflexivity; discriminate).
Qed.

(** X3.  One malformed record aborts the whole extraction: when the
    records before it are well formed and it is not an object, or its
    [attributes] is not an object, or its [email] is present and not a
    string, [extract_user_data] raises [AttributeError] and returns none
    of the records already kept. *)
Theorem malformed_record_aborts_extraction (kvs : pydict)
    (pre : list pyval) (u : pyval) (post : list pyval) :
  dict_lookup kvs "data" = Some (PList (pre ++ u :: post)) ->
  forallb wf_user pre = true ->
  breaks_extraction u = true ->
  extract_user_data B (PDict kvs) = Raise AttributeError.
Proof.
  intros Hdata Hpre Hu.
  unfold extract_user_data, extract_user_data_state.
  assert (Ht : truthy (PDict kvs) = true).
  { destruct kvs; [discriminate | reflexivity]. }
  rewrite Ht. cbn [negb py_in py_index rbind]. rewrite Hdata.
  cbn [negb py_len py_iter rbind].
  now rewrite (foldM_extract_raises pre u post extract_init Hpre
                 (process_user_breaks u Hu)).
Qed.

End ExtractionMore.

(** ** Expansion: what a row carries *)

Section ExpansionMore.

Import PyStr.

Lemma raw_tokens_free_of_delims (s p : string) :
  In p (raw_tokens s) ->
  has_char "|" p = false /\ has_char "," p = false.
Proof.
  revert p. induction s as [|a s IH]; intros p Hp.
  - destruct Hp as [<-|[]]. split; reflexivity.
  - rewrite raw_tokens_cons in Hp.
    destruct (is_delim a) eqn:Hd.
    + destruct Hp as [<-|Hp]; [split; reflexivity | now apply IH].
    + destruct (raw_tokens s) as [|h t] eqn:Hs.
      { now apply raw_tokens_not_nil in Hs. }
      destruct Hp as [<-|Hp].
      * destruct (IH h (or_introl eq_refl)) as [H1 H2].
        unfold is_delim in Hd. apply orb_false_elim in Hd as [Hd1 Hd2].
        cbn [has_char]. rewrite H1, H2.
        rewrite (Ascii.eqb_sym "|" a), Hd1, (Ascii.eqb_sym "," a), Hd2.
        split; reflexivity.
      * apply IH. now right.
Qed.

Lemma has_char_lstrip (c : ascii) (s : string) :
  has_char c s = false -> has_char c (lstrip s) = false.
Proof.
  induction s as [|a s IH]; [auto|]. cbn [lstrip has_char]. intros H.
  apply orb_false_elim in H as [H1 H2].
  destruct (is_space a); [auto|]. cbn [has_char]. now rewrite H1, H2.
Qed.

Lemma has_char_rstrip (c : ascii) (s : string) :
  has_char c s = false -> has_char c (rstrip s) = false.
Proof.
  induction s as [|a s IH]; [auto|]. cbn [rstrip has_char]. intros H.
  apply orb_false_elim in H as [H1 H2]. specialize (IH H2).
  destruct (rstrip s) as [|b r].
  - destruct (is_space a); [reflexivity|]. cbn [has_char]. now rewrite H1.
  - cbn [has_char] in *. now rewrite H1, IH.
Qed.

Lemma has_char_strip (c : ascii) (s : string) :
  has_char c s = false -> has_char c (strip s) = false.
Proof. intros H. unfold strip. now apply has_char_lstrip, has_char_rstrip. Qed.

Lemma role_tokens_are_clean (s t : string) :
  In t (role_tokens s) -> clean_role t = true.
Proof.
  rewrite role_tokens_raw. intros H.
  apply filter_In in H as [H Hne]. apply in_map_iff in H as (p & <- & Hp).
  destruct (raw_tokens_free_of_delims s p Hp) as [H1 H2].
  unfold clean_role.
  rewrite (has_char_strip _ _ H1), (has_char_strip _ _ H2).
  rewrite strip_idem, String.eqb_refl, Hne. reflexivity.
Qed.

Lemma expand_record_row (r row : user_record) :
  In row (expand_record r) ->
  same_user r row /\
  (if nonempty (Roles r) then clean_role (Roles row) = true else row = r).
Proof.
  rewrite expand_record_rows. destruct (nonempty (Roles r)).
  - intros H. apply in_map_iff in H as (t & <- & Ht). split.
    + repeat split.
    + cbn. eapply role_tokens_are_clean; eassumption.
  - intros [<-|[]]. split; [repeat split | reflexivity].
Qed.

Lemma expand_record_row_ascii (r row : user_record) :
  ascii_only (Roles r) = true ->
  In row (expand_record r) ->
  nonempty (Roles r) = true ->
  ascii_only (Roles row) = true.
Proof.
  intros Hr Hrow Hne. rewrite expand_record_rows, Hne in Hrow.
  apply in_map_iff in Hrow as (t & <- & Ht). cbn [set_roles Roles].
  eapply role_tokens_ascii; eassumption.
Qed.

(** X4.  For records whose roles text is ASCII, every row written comes
    from one input record and keeps its user name, address and status;
    when that record has a roles string, the row carries one role: ASCII,
    not empty, free of "|" and ",", and without white space at either
    end; when it has none, the row is the record itself. *)
Theorem written_rows_carry_one_role (data : list user_record)
    (row : user_record) :
  (forall r, In r data -> ascii_only (Roles r) = true) ->
  In row (sort_by_username (expand_data data)) ->
  exists r,
    In r data /\ same_user r row /\
    (if nonempty (Roles r) then plain_role (Roles row) = true else row = r).
Proof.
  intros Hascii H.
  apply (Permutation_in _ (Permutation_sym (sort_perm (expand_data data))))
    in H.
  unfold expand_data in H. apply in_flat_map in H as (r & Hr & Hrow).
  exists r. split; [assumption|].
  destruct (expand_record_row _ _ Hrow) as (Hsame & Hrole).
  split; [assumption|].
  destruct (nonempty (Roles r)) eqn:Hne; [|assumption].
  unfold plain_role. rewrite Hrole.
  now rewrite (expand_record_row_ascii _ _ (Hascii _ Hr) Hrow Hne).
Qed.

End ExpansionMore.

(** ** From the API record to the rows: the roles round trip *)

Lemma roles_tokens_flat (attributes : pyval) (s : string) :
  roles_of attributes = Ok s ->
  exists flat,
    flat_role_list attributes = Ok flat /\
    role_tokens s = flat_map role_tokens flat.
Proof.
  unfold roles_of. intros H.
  bind_inv H. apply workspace_memberships_tokens in Hx
    as (wm & memberships & rss & Hwm & Hms & Hrss & Hws).
  bind_inv H. bind_inv H. bind_inv H. bind_inv H. inversion H; subst.
  apply py_join_ok in Hx3 as (items & org_roles & Hitems & Hstrs & ->).
  exists (List.concat rss ++ org_roles). split.
  - unfold flat_role_list. rewrite Hwm. simpl. rewrite Hms. simpl.
    rewrite Hrss. simpl. rewrite Hx2. simpl. rewrite Hitems. simpl.
    rewrite Hstrs. reflexivity.
  - now rewrite role_tokens_append_org, Hws, role_tokens_join_comma,
      flat_map_app.
Qed.

(** X5.  Round trip between extraction and expansion, for role names
    that are ASCII, not empty, free of "|" and "," and without white space
    at either end, when the user has at least one: expanding the record
    built from the roles string of extraction gives back exactly the
    user's roles (workspace roles in order, then organization roles), one
    row per role, each row keeping user name, address and status. *)
Theorem expansion_restores_roles (attributes : pyval) (flat : list string)
    (r : user_record) :
  roles_of attributes = Ok (Roles r) ->
  flat_role_list attributes = Ok flat ->
  forallb plain_role flat = true ->
  flat <> [] ->
  map Roles (expand_record r) = flat /\
  Forall (same_user r) (expand_record r) /\
  Forall (fun row => plain_role (Roles row) = true) (expand_record r).
Proof.
  intros Hroles Hflat Hplain Hne.
  assert (Hclean : forallb clean_role flat = true).
  { apply forallb_forall. intros t Ht.
    rewrite forallb_forall in Hplain. specialize (Hplain _ Ht).
    unfold plain_role in Hplain. now apply andb_prop in Hplain as [H _]. }
  destruct (roles_tokens_flat _ Hroles) as (flat' & Hflat' & Htok).
  assert (flat' = flat) as -> by congruence.
  rewrite (clean_roles_tokens flat Hclean) in Htok.
  assert (Hmap : map Roles (expand_record r) = flat /\
                 Forall (same_user r) (expand_record r)).
  { rewrite expand_record_rows.
    destruct (Roles r) as [|c s] eqn:Hr.
    - rewrite role_tokens_empty in Htok. now elim Hne.
    - cbn [PyStr.nonempty]. rewrite Htok. split.
      + rewrite map_map. cbn. apply map_id.
      + apply Forall_forall. intros row Hrow.
        apply in_map_iff in Hrow as (t & <- & _). repeat split. }
  destruct Hmap as [Hmap Hsame]. split; [exact Hmap|].
  split; [exact Hsame|].
  apply Forall_forall. intros row Hrow.
  rewrite forallb_forall in Hplain. apply Hplain.
  rewrite <- Hmap. now apply in_map.
Qed.

(** ** Serialization: what [True] means *)

Section Inversion.

Lemma log_nil (w : world) : log w [] = w.
Proof. destruct w. unfold log. cbn. now rewrite app_nil_r. Qed.

Lemma log_log (w : world) (a b : list event) :
  log (log w a) b = log w (a ++ b).
Proof. unfold log. cbn. now rewrite app_assoc. Qed.

Lemma bind_ok_inv {A C : Type} (m : prog A) (k : A -> prog C) (w w' : world)
    (c : C) :
  bind m k w = (Ok c, w') ->
  exists a w1, m w = (Ok a, w1) /\ k a w1 = (Ok c, w').
Proof.
  unfold bind. destruct (m w) as [[a|e] w1]; [eauto | discriminate].
Qed.

Lemma try_false_inv (m : prog bool) (w w' : world) :
  try_except m (fun _ => ret false) w = (Ok true, w') ->
  m w = (Ok true, w').
Proof.
  unfold try_except, ret. destruct (m w) as [[b|e] w1]; [auto | discriminate].
Qed.

Lemma get_config_inv (w w' : world) (c : pyval) :
  get_config w = (Ok c, w') -> c = g_config w /\ w' = w.
Proof. unfold get_config. intros H. inversion H. auto. Qed.

Lemma lift_inv {A : Type} (r : result A) (a : A) (w w' : world) :
  lift r w = (Ok a, w') -> r = Ok a /\ w' = w.
Proof. unfold lift. intros H. inversion H. auto. Qed.

Lemma ret_inv {A : Type} (a b : A) (w w' : world) :
  ret a w = (Ok b, w') -> b = a /\ w' = w.
Proof. unfold ret. intros H. inversion H. auto. Qed.

Lemma attempt_call_inv (ev : option exn -> event) (r : option exn)
    (u : unit) (w w' : world) :
  attempt_call ev r w = (Ok u, w') -> r = None /\ w' = log w [ev None].
Proof.
  unfold attempt_call, bind, emit, ret, throw, log. destruct r; cbn.
  - discriminate.
  - intros H. inversion H. auto.
Qed.

Lemma os_path_exists_inv (E : environment) (p : string) (b : bool)
    (w w' : world) :
  os_path_exists E p w = (Ok b, w') ->
  b = path_exists E p /\ w' = log w [EvExists p (path_exists E p)].
Proof.
  unfold os_path_exists, bind, emit, ret, log. cbn. intros H.
  inversion H. auto.
Qed.

End Inversion.

Tactic Notation "prog_inv" hyp(H) "as" ident(a) ident(w1) ident(Ha) :=
  apply bind_ok_inv in H; destruct H as (a & w1 & Ha & H).

Lemma save_to_csv_true_inv (E : environment) (data : list user_record)
    (filename : string) (w w' : world) :
  save_to_csv E data filename w = (Ok true, w') ->
  data <> [] /\
  g_config w' = g_config w /\
  exists dir pre,
    py_index (g_config w) "output_dir" = Ok (PStr dir) /\
    existsb is_write_event pre = false /\
    trace w' =
      trace w ++ pre ++
      [EvOpenWrite (path_join dir filename) None;
       EvWriteRows (path_join dir filename) fieldnames
         (sort_by_username (expand_data data)) None;
       EvGetsize (path_join dir filename) None].
Proof.
  intros H. apply try_false_inv in H. unfold save_to_csv_body in H.
  prog_inv H as config w0 Hc. apply get_config_inv in Hc as [-> ->].
  prog_inv H as v w0 Hdir. apply lift_inv in Hdir as [Hdir ->].
  prog_inv H as dir w0 Hstr. apply lift_inv in Hstr as [Hstr ->].
  destruct v as [| | | |d| |]; try discriminate Hstr.
  inversion Hstr; subst d. clear Hstr.
  prog_inv H as present w0 Hex.
  apply os_path_exists_inv in Hex as [-> ->].
  prog_inv H as u w1 Hmk.
  assert (Hpre : exists pre, w1 = log w pre /\
                             existsb is_write_event pre = false).
  { destruct (path_exists E dir); cbn [negb] in Hmk.
    - apply ret_inv in Hmk as [_ ->]. now exists [EvExists dir true].
    - unfold os_makedirs in Hmk. apply attempt_call_inv in Hmk as [_ ->].
      rewrite log_log. now eexists. }
  destruct Hpre as (pre & -> & Hpre). clear Hmk.
  cbv zeta in H. destruct data as [|r0 data].
  { apply ret_inv in H as [H _]. discriminate H. }
  prog_inv H as u1 w2 Hwrite. unfold write_csv in Hwrite.
  prog_inv Hwrite as u2 w3 Hopen.
  apply attempt_call_inv in Hopen as [_ ->].
  apply attempt_call_inv in Hwrite as [_ ->].
  prog_inv H as u3 w4 Hsize. unfold os_getsize in Hsize.
  apply attempt_call_inv in Hsize as [_ ->].
  apply ret_inv in H as [_ ->].
  split; [discriminate|]. split; [reflexivity|].
  exists dir, pre. split; [assumption|]. split; [assumption|].
  cbn [log trace g_config]. now rewrite <- !app_assoc.
Qed.

(** X6.  [save_to_csv] returns [True] only after the file has been opened,
    the header [Username, Email, Active, Roles] and the sorted expanded
    rows have been written to [output_dir/filename], and its size has been
    read, all without error; the input was not empty, and the
    module-level [config] is as before. *)
Theorem save_true_means_written (E : environment) (data : list user_record)
    (filename : string) (w w' : world) :
  save_to_csv E data filename w = (Ok true, w') ->
  data <> [] /\
  g_config w' = g_config w /\
  exists dir pre,
    py_index (g_config w) "output_dir" = Ok (PStr dir) /\
    existsb is_write_event pre = false /\
    trace w' =
      trace w ++ pre ++
      [EvOpenWrite (path_join dir filename) None;
       EvWriteRows (path_join dir filename) fieldnames
         (sort_by_username (expand_data data)) None;
       EvGetsize (path_join dir filename) None].
Proof. apply save_to_csv_true_inv. Qed.

(** ** Notification: when nothing is sent *)

(** X8.  When notifications are not enabled (or there is no [email]
    section), when the server name is empty, or when no recipient is left
    after blanks are dropped, [send_email] returns [False] at once: it
    makes no call to the file system or to any server and leaves the
    module-level [config] as it was. *)
Theorem send_email_off_is_noop (B : builtins) (E : environment)
    (csv_file_path : option string) (execution_time : pyval) (success : bool)
    (w : world) :
  notification_off (g_config w) = true ->
  send_email B E csv_file_path execution_time success w = (Ok false, w).
Proof.
  destruct w as [c t]. cbn [g_config]. intros Hoff.
  destruct c as [| | | | | |kvs]; try discriminate.
  cbn [notification_off] in Hoff.
  unfold send_email, bind at 1, get_config. cbn [g_config].
  unfold bind at 1, lift at 1. rewrite py_get_dict.
  destruct (attr kvs "email" (PDict [])) as [| | | | | |ekvs] eqn:Hemail;
    try discriminate.
  unfold bind at 1, lift at 1. rewrite py_get_dict.
  destruct (truthy (attr ekvs "enabled" (PBool false))) eqn:Hen;
    cbn [negb orb] in *; [|reflexivity].
  assert (Hsec : dict_lookup kvs "email" = Some (PDict ekvs)).
  { unfold attr in Hemail. destruct (dict_lookup kvs "email").
    - now subst.
    - inversion Hemail; subst ekvs. discriminate Hen. }
  unfold try_except, send_email_body.
  unfold bind at 1, get_config. cbn [g_config].
  unfold bind at 1, lift at 1. cbn [py_index]. rewrite Hsec.
  unfold bind at 1, lift at 1. cbn [py_index].
  destruct (dict_lookup ekvs "smtp_server") as [server|]; [|discriminate].
  unfold bind at 1, lift at 1. rewrite py_get_dict.
  destruct (attr ekvs "recipients" (PStr "")) as [| | | |rcp| |];
    try discriminate.
  unfold bind at 1, lift at 1. cbn [py_strip].
  destruct (PyStr.nonempty (PyStr.strip rcp)) eqn:Hrcp; cbn [negb orb].
  - destruct (truthy server); cbn [negb orb] in *; [|reflexivity].
    destruct (parse_recipients (PyStr.strip rcp)); [reflexivity|discriminate].
  - reflexivity.
Qed.

(** ** One attempt: the calls it can make *)

Section AttemptCalls.

Variable E : environment.
Variable email_config : pyval.
Variable m : message.

Lemma pure_io_bind_lift {P : event -> Prop} {A C : Type} (r : result A)
    (k : A -> prog C) :
  (forall a, r = Ok a -> pure_io P (k a)) -> pure_io P (bind (lift r) k).
Proof.
  intros Hk c. destruct r as [a|e].
  - destruct (Hk a eq_refl c) as (r' & evs & Hevs & Hrun).
    exists r', evs. split; [assumption|]. intros t.
    unfold bind, lift. apply Hrun.
  - exists (Raise e), []. split; [constructor|]. intros t.
    unfold bind, lift. now rewrite app_nil_r.
Qed.

Lemma conversation_calls (use_tls : pyval) (s : session) :
  pure_io (attempt_event email_config m)
          (smtp_conversation email_config m use_tls s).
Proof.
  unfold smtp_conversation. apply pure_io_bind.
  { destruct (truthy use_tls); [|apply pure_io_ret].
    apply pure_io_try; [|intros _; apply pure_io_ret].
    now apply pure_io_attempt_call. }
  intros _.
  apply pure_io_bind_lift. intros user_v Huv.
  apply pure_io_bind_lift. intros user Hu.
  apply pure_io_bind_lift. intros pass_v Hpv.
  apply pure_io_bind_lift. intros pass Hp.
  apply pure_io_bind.
  { destruct (PyStr.nonempty user && PyStr.nonempty pass) eqn:Hboth;
      [|apply pure_io_ret].
    apply pure_io_attempt_call. cbn [attempt_event].
    unfold has_credentials. rewrite Huv, Hpv. cbn [rbind].
    now rewrite Hu, Hp. }
  intros _. apply pure_io_bind; [|intros _; apply pure_io_ret].
  now apply pure_io_attempt_call.
Qed.

Lemma smtp_attempt_calls (i : nat) :
  pure_io (attempt_event email_config m) (smtp_attempt E email_config m i).
Proof.
  unfold smtp_attempt.
  apply pure_io_bind; [apply pure_io_get_config | intros config].
  apply pure_io_bind; [apply pure_io_lift | intros server].
  apply pure_io_bind; [apply pure_io_lift | intros port].
  apply pure_io_bind; [apply pure_io_lift | intros use_tls].
  apply pure_io_bind.
  - now apply pure_io_attempt_call.
  - intros _. apply pure_io_with_exit; [exact I|].
    apply conversation_calls.
Qed.

Lemma attempt_events_calls (i : nat) (c : pyval) :
  Forall (attempt_event email_config m)
         (attempt_events E email_config m i c).
Proof.
  destruct (smtp_attempt_calls i c) as (r & evs & Hevs & Hrun).
  unfold attempt_events. now rewrite (Hrun []).
Qed.

(** The loop, one iteration at a time, with the calls of the attempt
    spelled out. *)
Lemma dispatch_step (i : nat) (c : pyval) (rest : list pyval) (w : world) :
  dispatch E email_config m i (c :: rest) w
  = if endpoint_succeeds E email_config m i c
    then (Ok true,
          {| g_config := c;
             trace := trace w ++ attempt_events E email_config m i c |})
    else dispatch E email_config m (S i) rest
           {| g_config := c;
              trace := trace w ++ attempt_events E email_config m i c |}.
Proof.
  destruct (smtp_attempt_calls i c) as (r & evs & _ & Hrun).
  cbn [dispatch]. unfold bind at 1. unfold set_config at 1.
  unfold bind at 1, try_except, endpoint_succeeds, attempt_events, ret.
  rewrite (Hrun (trace w)), (Hrun []). cbn [snd trace app].
  destruct r as [[|]|e]; reflexivity.
Qed.

Lemma with_exit_ok_inv {A : Type} (s : session) (body : prog A) (a : A)
    (w w' : world) :
  with_exit s body w = (Ok a, w') ->
  exists w1, body w = (Ok a, w1) /\ w' = log w1 [EvQuit None].
Proof.
  unfold with_exit. destruct (body w) as [r w1].
  unfold attempt_call, bind, emit, ret, throw, log.
  destruct (s_quit s); cbn; [discriminate|].
  intros H. inversion H; subst. eauto.
Qed.

(** An attempt that succeeds has handed the message over. *)
Lemma success_hands_off (i : nat) (c : pyval) :
  endpoint_succeeds E email_config m i c = true ->
  In (EvSendMessage m None) (attempt_events E email_config m i c).
Proof.
  unfold endpoint_succeeds, attempt_events.
  destruct (smtp_attempt E email_config m i {| g_config := c; trace := [] |})
    as [[[|]|e] w'] eqn:Hrun; try discriminate. intros _.
  unfold smtp_attempt in Hrun.
  prog_inv Hrun as config w0 H0. apply get_config_inv in H0 as [-> ->].
  prog_inv Hrun as server w0 H0. apply lift_inv in H0 as [_ ->].
  prog_inv Hrun as port w0 H0. apply lift_inv in H0 as [_ ->].
  prog_inv Hrun as use_tls w0 H0. apply lift_inv in H0 as [_ ->].
  prog_inv Hrun as u w0 H0. apply attempt_call_inv in H0 as [_ ->].
  apply with_exit_ok_inv in Hrun as (w1 & Hconv & ->).
  unfold smtp_conversation in Hconv.
  prog_inv Hconv as u1 w2 Htls.
  prog_inv Hconv as user_v w3 H0. apply lift_inv in H0 as [_ ->].
  prog_inv Hconv as user w3 H0. apply lift_inv in H0 as [_ ->].
  prog_inv Hconv as pass_v w3 H0. apply lift_inv in H0 as [_ ->].
  prog_inv Hconv as pass w3 H0. apply lift_inv in H0 as [_ ->].
  prog_inv Hconv as u2 w3 Hlogin.
  prog_inv Hconv as u3 w4 Hsend. apply attempt_call_inv in Hsend as [_ ->].
  apply ret_inv in Hconv as [_ ->].
  cbn [snd log trace]. apply in_or_app. left. apply in_or_app. right.
  now left.
Qed.

End AttemptCalls.

(** ** Opportunistic encryption *)

(** X7.  Whether STARTTLS fails or succeeds decides nothing: two servers
    that differ only in their answer to STARTTLS make the same attempt
    succeed or fail, with or without TLS requested by the endpoint. *)
Theorem starttls_failure_is_tolerated (E E' : environment)
    (email_config : pyval) (m : message) (i : nat) (c : pyval)
    (r : option exn) :
  smtp E' i = with_starttls (smtp E i) r ->
  endpoint_succeeds E' email_config m i c
  = endpoint_succeeds E email_config m i c.
Proof.
  intros Hs. unfold endpoint_succeeds, smtp_attempt.
  unfold with_exit, smtp_conversation, attempt_call, try_except, bind,
    get_config, lift, emit, ret, throw.
  rewrite Hs. destruct (smtp E i) as [sc st sl ss sq].
  cbn [with_starttls s_connect s_starttls s_login s_send s_quit g_config
       trace].
  destruct (py_index c "server") as [server|e]; [|reflexivity].
  destruct (py_index c "port") as [port|e]; [|reflexivity].
  destruct (py_index c "use_tls") as [use_tls|e]; [|reflexivity].
  destruct sc as [e|]; [reflexivity|].
  destruct (py_get email_config "smtp_username" (PStr "")) as [uv|e];
    [|destruct (truthy use_tls), r, st, sq; reflexivity].
  destruct (py_strip uv) as [u|e];
    [|destruct (truthy use_tls), r, st, sq; reflexivity].
  destruct (py_get email_config "smtp_password" (PStr "")) as [pv|e];
    [|destruct (truthy use_tls), r, st, sq; reflexivity].
  destruct (py_strip pv) as [p|e];
    [|destruct (truthy use_tls), r, st, sq; reflexivity].
  destruct (PyStr.nonempty u && PyStr.nonempty p);
    destruct (truthy use_tls), r, st, sl, ss, sq; reflexivity.
Qed.

(** ** Composing the message: calls and status *)

Section ComposeCalls.

Variable E : environment.
Variable P : event -> Prop.
Hypothesis file_calls : forall ev, touches_files ev = true -> P ev.

Lemma os_path_exists_io (p : string) : pure_io P (os_path_exists E p).
Proof.
  unfold os_path_exists. apply pure_io_bind; [|intros _; apply pure_io_ret].
  apply pure_io_emit. now apply file_calls.
Qed.

Lemma os_getsize_io (p : string) : pure_io P (os_getsize E p).
Proof.
  unfold os_getsize. apply pure_io_attempt_call. now apply file_calls.
Qed.

Lemma os_read_file_io (p : string) : pure_io P (os_read_file E p).
Proof.
  unfold os_read_file. destruct (read_file E p);
    (apply pure_io_bind;
     [apply pure_io_emit; now apply file_calls
     | intros _; first [apply pure_io_ret | apply pure_io_throw]]).
Qed.

Lemma check_report_file_io (include_report : pyval)
    (csv_file_path : option string) :
  pure_io P (check_report_file E include_report csv_file_path).
Proof.
  unfold check_report_file.
  destruct csv_file_path as [p|]; [|apply pure_io_ret].
  destruct (_ && _); [|apply pure_io_ret].
  apply pure_io_bind; [apply os_path_exists_io|].
  intros []; [apply os_getsize_io | apply pure_io_ret].
Qed.

Lemma report_available_io (success : bool) (include_report : pyval)
    (csv_file_path : option string) :
  pure_io P (report_available E success include_report csv_file_path).
Proof.
  unfold report_available.
  destruct csv_file_path as [p|]; [|apply pure_io_ret].
  destruct (_ && _); [apply os_path_exists_io | apply pure_io_ret].
Qed.

Lemma attach_report_io (success : bool) (include_report : pyval)
    (csv_file_path : option string) (m : message) :
  pure_io P (attach_report E success include_report csv_file_path m).
Proof.
  unfold attach_report. apply pure_io_bind; [apply report_available_io|].
  intros available. destruct csv_file_path as [p|]; [|apply pure_io_ret].
  destruct available; [|apply pure_io_ret].
  apply pure_io_bind; [apply os_read_file_io | intros ?; apply pure_io_ret].
Qed.

Lemma attach_log_io (m : message) : pure_io P (attach_log E m).
Proof.
  unfold attach_log.
  apply pure_io_bind; [apply pure_io_get_config | intros config].
  apply pure_io_bind; [apply pure_io_lift | intros v].
  apply pure_io_bind; [apply pure_io_lift | intros dir].
  cbv zeta. apply pure_io_bind; [apply os_path_exists_io|].
  intros []; [|apply pure_io_ret].
  apply pure_io_try; [|intros _; apply pure_io_ret].
  apply pure_io_bind; [apply os_read_file_io | intros ?; apply pure_io_ret].
Qed.

Lemma attach_visualization_io (csv_file_path : option string)
    (m : message) :
  pure_io P (attach_visualization E csv_file_path m).
Proof.
  unfold attach_visualization.
  apply pure_io_try; [|intros _; apply pure_io_ret].
  cbv zeta. apply pure_io_bind; [apply os_path_exists_io|].
  intros []; [|apply pure_io_ret].
  destruct (run_visualization E _ _).
  - apply pure_io_bind; [apply pure_io_emit; now apply file_calls|].
    intros _. apply pure_io_bind; [apply os_path_exists_io|].
    intros []; [|apply pure_io_ret].
    apply pure_io_bind; [apply os_read_file_io | intros ?; apply pure_io_ret].
  - apply pure_io_bind; [apply pure_io_emit; now apply file_calls|].
    intros _. apply pure_io_throw.
Qed.

End ComposeCalls.

Section ComposeStatus.

Variable E : environment.

Lemma attach_report_status (success : bool) (include_report : pyval)
    (csv_file_path : option string) (m : message) :
  returns_only (fun m' => msg_success m' = msg_success m)
    (attach_report E success include_report csv_file_path m).
Proof.
  unfold attach_report. apply returns_only_bind. intros available.
  destruct csv_file_path as [p|]; [|now apply returns_only_ret].
  destruct available; [|now apply returns_only_ret].
  apply returns_only_bind. intros content. now apply returns_only_ret.
Qed.

Lemma attach_log_status (m : message) :
  returns_only (fun m' => msg_success m' = msg_success m) (attach_log E m).
Proof.
  unfold attach_log. do 3 (apply returns_only_bind; intros ?).
  cbv zeta. apply returns_only_bind. intros [];
    [|now apply returns_only_ret].
  apply returns_only_try; [|intros _; now apply returns_only_ret].
  apply returns_only_bind. intros content. now apply returns_only_ret.
Qed.

Lemma attach_visualization_status (csv_file_path : option string)
    (m : message) :
  returns_only (fun m' => msg_success m' = msg_success m)
    (attach_visualization E csv_file_path m).
Proof.
  unfold attach_visualization.
  apply returns_only_try; [|intros _; now apply returns_only_ret].
  cbv zeta. apply returns_only_bind. intros [];
    [|now apply returns_only_ret].
  destruct (run_visualization E _ _).
  - apply returns_only_bind. intros _. apply returns_only_bind.
    intros []; [|now apply returns_only_ret].
    apply returns_only_bind. intros content. now apply returns_only_ret.
  - apply returns_only_bind. intros _. apply returns_only_throw.
Qed.

End ComposeStatus.

(** ** A call of [send_email], property by property *)

Section SendEmailRuns.

Variable B : builtins.
Variable E : environment.
Variable csv_file_path : option string.
Variable execution_time : pyval.
Variable success : bool.
Variable c : pyval.
Variable R : result bool -> list event -> Prop.

Let P (ev : event) : Prop := touches_files ev = true.

Hypothesis R_false : forall evs, Forall P evs -> R (Ok false) evs.
Hypothesis R_raise : forall evs e, Forall P evs -> R (Raise e) evs.
Hypothesis R_after : forall q r evs, Forall P q -> R r evs -> R r (q ++ evs).
Hypothesis R_caught : forall e evs, R (Raise e) evs -> R (Ok false) evs.
Hypothesis R_dispatch :
  forall email_config m smtp_server smtp_port,
    py_index c "email" = Ok email_config ->
    msg_success m = success ->
    run_spec_at c R
      (dispatch E email_config m 0 (smtp_configs smtp_server smtp_port)).

Lemma run_ret_false : run_spec_at c R (ret false).
Proof.
  intros t. exists (Ok false), c, []. split.
  - unfold ret. now rewrite app_nil_r.
  - apply R_false. constructor.
Qed.

Lemma run_bind {A : Type} (Q : A -> Prop) (m : prog A) (k : A -> prog bool) :
  pure_io P m ->
  (forall t a w', m {| g_config := c; trace := t |} = (Ok a, w') -> Q a) ->
  (forall a, Q a -> run_spec_at c R (k a)) ->
  run_spec_at c R (bind m k).
Proof.
  intros Hm HQ Hk t. destruct (Hm c) as (r & q & Hq & Hrun).
  destruct r as [a|e].
  - destruct (Hk a (HQ _ _ _ (Hrun t)) (t ++ q))
      as (r' & c' & evs & Hrun' & HR).
    exists r', c', (q ++ evs). split.
    + unfold bind. now rewrite Hrun, Hrun', app_assoc.
    + now apply R_after.
  - exists (Raise e), c, q. split.
    + unfold bind. now rewrite Hrun.
    + now apply R_raise.
Qed.

Lemma run_bind_any {A : Type} (m : prog A) (k : A -> prog bool) :
  pure_io P m -> (forall a, run_spec_at c R (k a)) ->
  run_spec_at c R (bind m k).
Proof.
  intros Hm Hk. apply (run_bind (fun _ => True)); auto.
Qed.

Lemma run_bind_config (k : pyval -> prog bool) :
  run_spec_at c R (k c) -> run_spec_at c R (bind get_config k).
Proof.
  intros Hk. apply (run_bind (fun x => x = c)).
  - apply pure_io_get_config.
  - intros t a w' H. apply get_config_inv in H as [-> _]. reflexivity.
  - now intros a ->.
Qed.

Lemma run_bind_lift {A : Type} (r : result A) (k : A -> prog bool) :
  (forall a, r = Ok a -> run_spec_at c R (k a)) ->
  run_spec_at c R (bind (lift r) k).
Proof.
  intros Hk. apply (run_bind (fun a => r = Ok a)).
  - apply pure_io_lift.
  - intros t a w' H. now apply lift_inv in H as [-> _].
  - exact Hk.
Qed.

Lemma run_bind_status {A : Type} (Q : A -> Prop) (m : prog A)
    (k : A -> prog bool) :
  pure_io P m -> returns_only Q m ->
  (forall a, Q a -> run_spec_at c R (k a)) ->
  run_spec_at c R (bind m k).
Proof.
  intros Hm HQ Hk. apply (run_bind Q); auto.
  intros t a w' H. eapply HQ; eassumption.
Qed.

Lemma send_email_body_runs :
  run_spec_at c R
    (send_email_body B E csv_file_path execution_time success).
Proof.
  unfold send_email_body.
  apply run_bind_config.
  apply run_bind_lift. intros email_config Hec.
  apply run_bind_lift. intros smtp_server _.
  apply run_bind_lift. intros recipients_v _.
  apply run_bind_lift. intros recipients _.
  destruct (_ || _); [apply run_ret_false|].
  cbv zeta. destruct (parse_recipients recipients); [apply run_ret_false|].
  apply run_bind_lift. intros port_v _.
  apply run_bind_lift. intros smtp_port _.
  apply run_bind_lift. intros sender_email _.
  apply run_bind_lift. intros include_v _.
  cbv zeta.
  apply run_bind_lift. intros subject_v _.
  apply run_bind_lift. intros subject _.
  apply run_bind_any; [now apply check_report_file_io | intros _].
  apply run_bind_lift. intros u _.
  apply run_bind_any; [now apply report_available_io | intros noted].
  cbv zeta.
  eapply run_bind_status;
    [now apply attach_report_io | apply attach_report_status |].
  intros m1 H1.
  eapply run_bind_status; [now apply attach_log_io | apply attach_log_status |].
  intros m2 H2.
  eapply run_bind_status;
    [now apply attach_visualization_io | apply attach_visualization_status |].
  intros m3 H3.
  apply R_dispatch; [assumption|].
  rewrite H3, H2, H1. reflexivity.
Qed.

Lemma send_email_runs :
  run_spec_at c R (send_email B E csv_file_path execution_time success).
Proof.
  unfold send_email.
  apply run_bind_config.
  apply run_bind_lift. intros email_section _.
  apply run_bind_lift. intros enabled _.
  destruct (negb _); [apply run_ret_false|].
  intros t. destruct (send_email_body_runs t) as (r & c' & evs & Hrun & HR).
  exists (match r with Ok b => Ok b | Raise _ => Ok false end), c', evs.
  split.
  - unfold try_except, ret. rewrite Hrun. now destruct r.
  - destruct r; [assumption|]. eapply R_caught; eassumption.
Qed.

End SendEmailRuns.

(** ** Bounds and status of a notification *)

Section NotificationBounds.

Variable E : environment.

Lemma attempt_connects_once (email_config : pyval) (m : message) (i : nat)
    (c : pyval) :
  List.length (connections (attempt_events E email_config m i c)) <= 1.
Proof.
  unfold attempt_events, smtp_attempt.
  unfold bind at 1, get_config. cbn [g_config].
  unfold bind at 1, lift at 1.
  destruct (py_index c "server") as [server|e]; [|cbn; lia].
  unfold bind at 1, lift at 1.
  destruct (py_index c "port") as [port|e]; [|cbn; lia].
  unfold bind at 1, lift at 1.
  destruct (py_index c "use_tls") as [use_tls|e]; [|cbn; lia].
  unfold bind at 1, attempt_call at 1, bind at 1, emit, ret, throw.
  cbn [g_config trace app].
  destruct (s_connect (smtp E i)) as [e|]; [cbn; lia|].
  pose proof (@pure_io_with_exit quiet bool (smtp E i)
                (smtp_conversation email_config m use_tls (smtp E i))
                eq_refl
                (@conversation_pure email_config m quiet use_tls (smtp E i)
                   (fun _ H => H)) c)
    as (r & evs & Hevs & Hrun).
  rewrite Hrun. cbn [snd trace app connections].
  rewrite (connections_quiet Hevs). cbn. lia.
Qed.

Lemma dispatch_runs (Pd : event -> Prop) (email_config : pyval)
    (m : message) :
  (forall i c, Forall Pd (attempt_events E email_config m i c)) ->
  forall configs i w, exists r c' evs,
    dispatch E email_config m i configs w
    = (r, {| g_config := c'; trace := trace w ++ evs |}) /\
    Forall Pd evs /\
    List.length (connections evs) <= List.length configs /\
    (r = Ok true -> In (EvSendMessage m None) evs).
Proof.
  intros Hcalls configs. induction configs as [|c rest IH]; intros i w.
  - exists (Raise OtherException), (g_config w), [].
    destruct w. cbn. rewrite app_nil_r.
    split; [reflexivity|]. split; [constructor|].
    split; [lia | discriminate].
  - rewrite dispatch_step.
    pose proof (attempt_connects_once email_config m i c) as Hone.
    destruct (endpoint_succeeds E email_config m i c) eqn:Hok.
    + exists (Ok true), c, (attempt_events E email_config m i c).
      split; [reflexivity|]. split; [apply Hcalls|].
      split; [cbn [List.length]; lia|].
      intros _. now apply success_hands_off.
    + destruct (IH (S i)
                  {| g_config := c;
                     trace := trace w ++ attempt_events E email_config m i c |})
        as (r & c' & evs & Hrun & Hevs & Hlen & Hsent).
      cbn [trace] in Hrun.
      exists r, c', (attempt_events E email_config m i c ++ evs).
      split; [now rewrite Hrun, app_assoc|].
      split; [apply Forall_app; split; [apply Hcalls | assumption]|].
      split.
      * rewrite connections_app, length_app. cbn [List.length]. lia.
      * intros Hr. apply in_or_app. right. now apply Hsent.
Qed.

Variable B : builtins.

Lemma file_calls_quiet (evs : list event) :
  Forall (fun ev => touches_files ev = true) evs -> connections evs = [].
Proof.
  intros H. apply connections_quiet. eapply Forall_impl; [|exact H].
  intros ev Hev. destruct ev; try reflexivity; discriminate Hev.
Qed.

(** X9.  A call of [send_email] opens at most eight connections; every
    message it hands to a server reports the status given by the caller;
    and it returns [True] only if a server has accepted the message. *)
Theorem send_email_bounded_and_truthful (csv_file_path : option string)
    (execution_time : pyval) (success : bool) (w : world) :
  exists r w' evs,
    send_email B E csv_file_path execution_time success w = (r, w') /\
    trace w' = trace w ++ evs /\
    List.length (connections evs) <= 8 /\
    Forall (reports_status success) evs /\
    (r = Ok true -> existsb is_handoff evs = true).
Proof.
  destruct w as [c t].
  destruct (@send_email_runs B E csv_file_path execution_time success c
              (fun r evs =>
                 List.length (connections evs) <= 8 /\
                 Forall (reports_status success) evs /\
                 (r = Ok true -> existsb is_handoff evs = true))) with (t := t)
    as (r & c' & evs & Hrun & HR).
  - intros evs Hevs. split; [rewrite (file_calls_quiet Hevs); cbn; lia|].
    split; [|discriminate].
    eapply Forall_impl; [|exact Hevs]. intros ev Hev.
    destruct ev; try exact I; discriminate Hev.
  - intros evs e Hevs. split; [rewrite (file_calls_quiet Hevs); cbn; lia|].
    split; [|discriminate].
    eapply Forall_impl; [|exact Hevs]. intros ev Hev.
    destruct ev; try exact I; discriminate Hev.
  - intros q r evs Hq (Hlen & Hst & Hsent).
    split; [now rewrite connections_app, (file_calls_quiet Hq)|].
    split.
    + apply Forall_app. split; [|assumption].
      eapply Forall_impl; [|exact Hq]. intros ev Hev.
      destruct ev; try exact I; discriminate Hev.
    + intros Hr. rewrite existsb_app, (Hsent Hr). apply orb_true_r.
  - intros e evs (Hlen & Hst & _). split; [assumption|].
    split; [assumption | discriminate].
  - intros email_config m smtp_server smtp_port _ Hm t0.
    destruct (@dispatch_runs (reports_status success) email_config m)
      with (configs := smtp_configs smtp_server smtp_port) (i := 0)
           (w := {| g_config := c; trace := t0 |})
      as (r & c' & evs & Hrun & Hevs & Hlen & Hsent).
    { intros i c0. eapply Forall_impl; [|apply attempt_events_calls].
      intros ev Hev. destruct ev; try exact I. cbn in *. now subst. }
    exists r, c', evs. split; [exact Hrun|].
    split; [exact Hlen|]. split; [exact Hevs|].
    intros Hr. apply existsb_exists.
    exists (EvSendMessage m None). split; [now apply Hsent | reflexivity].
  - exists r, {| g_config := c'; trace := t ++ evs |}, evs.
    split; [exact Hrun|]. split; [reflexivity | exact HR].
Qed.

(** X10.  Without both credentials in the e-mail section - [smtp_username]
    and [smtp_password] present and not blank - [send_email] never
    authenticates: no login is attempted on any server. *)
Theorem no_login_without_credentials (csv_file_path : option string)
    (execution_time : pyval) (success : bool) (w : world) :
  (forall email_config,
     py_index (g_config w) "email" = Ok email_config ->
     has_credentials email_config = false) ->
  exists r w' evs,
    send_email B E csv_file_path execution_time success w = (r, w') /\
    trace w' = trace w ++ evs /\
    Forall not_login evs.
Proof.
  destruct w as [c t]. cbn [g_config]. intros Hcred.
  assert (Hfile : forall evs,
             Forall (fun ev => touches_files ev = true) evs ->
             Forall not_login evs).
  { intros evs Hevs. eapply Forall_impl; [|exact Hevs]. intros ev Hev.
    destruct ev; try exact I; discriminate Hev. }
  destruct (@send_email_runs B E csv_file_path execution_time success c
              (fun _ evs => Forall not_login evs)) with (t := t)
    as (r & c' & evs & Hrun & HR); auto.
  - intros q r evs Hq Hevs. apply Forall_app. split; auto.
  - intros email_config m smtp_server smtp_port Hec _ t0.
    destruct (@dispatch_runs not_login email_config m)
      with (configs := smtp_configs smtp_server smtp_port) (i := 0)
           (w := {| g_config := c; trace := t0 |})
      as (r & c' & evs & Hrun & Hevs & _).
    { intros i c0. eapply Forall_impl; [|apply attempt_events_calls].
      intros ev Hev. destruct ev; try exact I. cbn in Hev.
      rewrite (Hcred _ Hec) in Hev. discriminate Hev. }
    exists r, c', evs. split; [exact Hrun | exact Hevs].
  - exists r, {| g_config := c'; trace := t ++ evs |}, evs.
    split; [exact Hrun|]. split; [reflexivity | exact HR].
Qed.

End NotificationBounds.

(* ================================================================== *)
(** * Further properties: the two requests *)

Section ApiRequests.

Variable B : builtins.
Variable S : api_settings.
Variable Net : http_env.

Lemma read_token_ok (resp : http_response) (token : pyval) :
  read_token resp = Ok token ->
  truthy token = true ->
  exists token_data,
    raise_for_status resp = None /\
    json resp = Ok token_data /\
    py_index token_data "access_token" = Ok token.
Proof.
  unfold read_token, check_status. intros Hr Ht.
  destruct (raise_for_status resp); [discriminate Hr|]. cbn [rbind] in Hr.
  destruct (json resp) as [token_data|]; [|discriminate Hr].
  cbn [rbind] in Hr. bind_inv Hr. destruct x; cbn [negb] in Hr.
  - bind_inv Hr. bind_inv Hr. bind_inv Hr. eauto.
  - inversion Hr; subst. discriminate Ht.
Qed.

Lemma read_users_ok (resp : http_response) (data : pyval) :
  read_users resp = Ok data ->
  raise_for_status resp = None /\
  json resp = Ok data /\
  exists has_data,
    py_in "data" data = Ok has_data /\
    (has_data = true ->
     exists users n, py_index data "data" = Ok users /\ py_len users = Ok n).
Proof.
  unfold read_users, check_status. intros Hr.
  destruct (raise_for_status resp); [discriminate Hr|]. cbn [rbind] in Hr.
  destruct (json resp) as [d|]; [|discriminate Hr].
  cbn [rbind] in Hr. bind_inv Hr. destruct x; cbn [negb] in Hr.
  - bind_inv Hr. bind_inv Hr. inversion Hr; subst.
    split; [reflexivity|]. split; [reflexivity|].
    exists true. split; [assumption|]. eauto.
  - inversion Hr; subst. split; [reflexivity|]. split; [reflexivity|].
    exists false. split; [assumption | discriminate].
Qed.

(** What [make_api_request] returns and the requests it has made, case by
    case. *)
Lemma make_api_request_cases :
  let post := HPost (token_url S) (client_id S) (client_secret S) in
  (fst (make_api_request B S Net) = PNone /\
   exists r, snd (make_api_request B S Net) = [post r]) \/
  exists resp0 token,
    post_token Net (token_url S) (client_id S) (client_secret S) = Ok resp0 /\
    read_token resp0 = Ok token /\
    truthy token = true /\
    let authorization := String.append "Bearer " (py_str B token) in
    (fst (make_api_request B S Net) = PNone /\
     exists e,
       get_users Net (users_url S) authorization = Raise e /\
       snd (make_api_request B S Net)
       = [post None; HGet (users_url S) authorization (Some e)]) \/
    exists resp,
      get_users Net (users_url S) authorization = Ok resp /\
      fst (make_api_request B S Net)
      = match read_users resp with Ok data => data | Raise _ => PNone end /\
      snd (make_api_request B S Net)
      = [post None; HGet (users_url S) authorization None].
Proof.
  cbv zeta. unfold make_api_request, get_access_token.
  destruct (post_token Net (token_url S) (client_id S) (client_secret S))
    as [resp0|e0] eqn:Hpost.
  2:{ left. cbn. eauto. }
  destruct (read_token resp0) as [token|e1] eqn:Htok.
  2:{ left. cbn. eauto. }
  destruct (truthy token) eqn:Ht; cbn [negb].
  2:{ left. cbn. eauto. }
  destruct (py_slice token) eqn:Hs.
  2:{ left. cbn. eauto. }
  right. exists resp0, token. split; [reflexivity|]. split; [exact Htok|].
  split; [assumption|].
  destruct (get_users Net (users_url S)
              (String.append "Bearer " (py_str B token))) as [resp|e].
  - right. exists resp. cbn. auto.
  - left. cbn. eauto.
Qed.

(** X11.  The users endpoint is contacted only with a token: every GET
    that [make_api_request] makes goes to [users_url] and carries
    [Bearer <token>], where the token is the truthy [access_token] field
    of the JSON body of a token response that passed the status check;
    without such a token no GET is made. *)
Theorem users_requested_only_with_token (url authorization : string)
    (r : option exn) :
  In (HGet url authorization r) (snd (make_api_request B S Net)) ->
  exists resp token_data token,
    post_token Net (token_url S) (client_id S) (client_secret S) = Ok resp /\
    raise_for_status resp = None /\
    json resp = Ok token_data /\
    py_index token_data "access_token" = Ok token /\
    truthy token = true /\
    url = users_url S /\
    authorization = String.append "Bearer " (py_str B token).
Proof.
  intros Hin.
  destruct make_api_request_cases
    as [(_ & r0 & Hev) | (resp0 & token & Hpost & Htok & Ht & Hget)].
  { rewrite Hev in Hin. destruct Hin as [Hin|[]]. discriminate Hin. }
  destruct (@read_token_ok resp0 token Htok Ht) as (token_data & Hst & Hjs & Hidx).
  assert (Hgoal : url = users_url S /\
                  authorization = String.append "Bearer " (py_str B token)).
  { cbv zeta in Hget.
    destruct Hget as [(_ & e & _ & Hev) | (resp & _ & _ & Hev)];
      rewrite Hev in Hin;
      (destruct Hin as [Hin|[Hin|[]]]; [discriminate Hin|]);
      inversion Hin; auto. }
  destruct Hgoal as [-> ->].
  exists resp0, token_data, token. auto 10.
Qed.

(** X12.  A value other than [None] returned by [make_api_request] is the
    JSON body of the answer of the users endpoint, which passed the status
    check; exactly two requests were made, the POST of the credentials to
    [token_url] and the GET to [users_url], and both completed. *)
Theorem api_data_comes_from_users_response (data : pyval) :
  fst (make_api_request B S Net) = data ->
  data <> PNone ->
  exists authorization resp,
    snd (make_api_request B S Net)
    = [HPost (token_url S) (client_id S) (client_secret S) None;
       HGet (users_url S) authorization None] /\
    get_users Net (users_url S) authorization = Ok resp /\
    raise_for_status resp = None /\
    json resp = Ok data.
Proof.
  intros Hdata Hne.
  destruct make_api_request_cases
    as [(Hnone & _) | (resp0 & token & _ & _ & _ & Hget)].
  { congruence. }
  cbv zeta in Hget.
  destruct Hget as [(Hnone & _) | (resp & Hg & Hfst & Hev)].
  { congruence. }
  rewrite Hdata in Hfst.
  destruct (read_users resp) as [d|e] eqn:Hr; [|congruence]. subst d.
  apply read_users_ok in Hr as (Hst & Hjs & _).
  eauto 10.
Qed.

Lemma foldM_raise_inv {A St : Type} (f : St -> A -> result St) (l : list A)
    (s : St) (e : exn) :
  foldM f l s = Raise e ->
  exists pre u post s',
    l = pre ++ u :: post /\
    foldM f pre s = Ok s' /\
    f s' u = Raise e.
Proof.
  revert s. induction l as [|x l IH]; intros s Hr; [discriminate Hr|].
  cbn [foldM] in Hr. destruct (f s x) as [s1|e1] eqn:Hx; cbn [rbind] in Hr.
  - destruct (IH _ Hr) as (pre & u & post & s' & -> & Hpre & Hu).
    exists (x :: pre), u, post, s'. split; [reflexivity|].
    split; [|assumption]. cbn [foldM]. now rewrite Hx.
  - inversion Hr; subst e1. exists [], x, l, s. auto.
Qed.

Lemma foldM_extract_ok (pre : list pyval) (st st' : extract_state) :
  foldM (extract_step B) pre st = Ok st' ->
  Forall (fun p => exists v, process_user B p = Ok v) pre.
Proof.
  revert st. induction pre as [|p pre IH]; intros st Hr; [constructor|].
  cbn [foldM] in Hr. bind_inv Hr. unfold extract_step in Hx.
  bind_inv Hx. constructor; [eauto | eapply IH; eassumption].
Qed.

(** X13.  [make_api_request] has looked at [data['data']] before it
    returns, so what it returns passes the first steps of
    [extract_user_data]: if the extraction of that value raises, the
    exception comes from one record of the list, every record before it
    having been processed. *)
Theorem extraction_of_api_data_fails_only_on_a_record (e : exn) :
  extract_user_data B (fst (make_api_request B S Net)) = Raise e ->
  exists users pre u post,
    py_index (fst (make_api_request B S Net)) "data" = Ok users /\
    py_iter users = Ok (pre ++ u :: post) /\
    Forall (fun p => exists v, process_user B p = Ok v) pre /\
    process_user B u = Raise e.
Proof.
  intros Hx.
  assert (Hcases : fst (make_api_request B S Net) = PNone \/
                   exists resp,
                     read_users resp = Ok (fst (make_api_request B S Net))).
  { destruct make_api_request_cases
      as [(Hnone & _) | (resp0 & token & _ & _ & _ & Hget)]; [now left|].
    cbv zeta in Hget.
    destruct Hget as [(Hnone & _) | (resp & _ & Hfst & _)]; [now left|].
    destruct (read_users resp) as [d|e'] eqn:Hr; [|now left].
    right. exists resp. now rewrite Hfst. }
  destruct Hcases as [Hnone | (resp & Hr)].
  { rewrite Hnone in Hx. discriminate Hx. }
  revert Hx Hr. generalize (fst (make_api_request B S Net)) as data.
  intros data Hx Hr.
  apply read_users_ok in Hr as (_ & _ & has_data & Hin & Hhas).
  unfold extract_user_data, extract_user_data_state in Hx.
  destruct (truthy data); cbn [negb] in Hx; [|discriminate Hx].
  rewrite Hin in Hx. cbn [rbind] in Hx.
  destruct has_data; cbn [negb] in Hx; [|discriminate Hx].
  destruct (Hhas eq_refl) as (users & n & Hidx & Hlen).
  rewrite Hidx in Hx. cbn [rbind] in Hx. rewrite Hlen in Hx.
  cbn [rbind] in Hx.
  destruct (py_iter users) as [l|e0] eqn:Hit.
  2:{ destruct users; discriminate. }
  cbn [rbind] in Hx.
  destruct (foldM (extract_step B) l extract_init) as [st|e1] eqn:Hf;
    [discriminate Hx|].
  cbn [rbind] in Hx. inversion Hx; subst e1.
  apply foldM_raise_inv in Hf as (pre & u & post & s' & -> & Hpre & Hu).
  exists users, pre, u, post. split; [assumption|]. split; [exact Hit|].
  split; [eapply foldM_extract_ok; eassumption|].
  unfold extract_step in Hu.
  destruct (process_user B u) as [v|e1]; [discriminate Hu|].
  cbn [rbind] in Hu. congruence.
Qed.

End ApiRequests.

(* ================================================================== *)
(** * Further properties: the main block *)

Section RunningPrograms.

Lemma bind_run_ok {A C : Type} (m : prog A) (k : A -> prog C) (w w1 : world)
    (a : A) :
  m w = (Ok a, w1) -> bind m k w = k a w1.
Proof. intros Hm. unfold bind. now rewrite Hm. Qed.

Lemma bind_run_raise {A C : Type} (m : prog A) (k : A -> prog C)
    (w w1 : world) (e : exn) :
  m w = (Raise e, w1) -> bind m k w = (Raise e, w1).
Proof. intros Hm. unfold bind. now rewrite Hm. Qed.

Lemma try_run_ok {A : Type} (m : prog A) (h : exn -> prog A) (w w1 : world)
    (a : A) :
  m w = (Ok a, w1) -> try_except m h w = (Ok a, w1).
Proof. intros Hm. unfold try_except. now rewrite Hm. Qed.

Lemma try_run_raise {A : Type} (m : prog A) (h : exn -> prog A)
    (w w1 : world) (e : exn) :
  m w = (Raise e, w1) -> try_except m h w = h e w1.
Proof. intros Hm. unfold try_except. now rewrite Hm. Qed.

Lemma try_false_total (m : prog bool) (w : world) :
  exists b w', try_except m (fun _ => ret false) w = (Ok b, w').
Proof.
  unfold try_except, ret. destruct (m w) as [[b|e] w1]; eauto.
Qed.


Lemma pure_io_run {P : event -> Prop} {A : Type} (m : prog A) (w : world) :
  pure_io P m -> exists r evs, m w = (r, log w evs) /\ Forall P evs.
Proof.
  intros Hm. destruct w as [c t].
  destruct (Hm c) as (r & evs & Hevs & Hrun).
  exists r, evs. split; [apply Hrun | assumption].
Qed.

End RunningPrograms.

Ltac run_bind_with x y :=
  eapply eq_trans; [apply bind_run_ok with (a := x) (w1 := y)|].

Section Pipeline.

Variable B : builtins.
Variable E : environment.

Lemma prepare_directory_io (output_dir : string) :
  pure_io (fun ev => touches_files ev = true)
    (bind (os_path_exists E output_dir)
       (fun present =>
          if negb present then os_makedirs E output_dir else ret tt)).
Proof.
  apply pure_io_bind; [apply os_path_exists_io; auto|].
  intros present. destruct (negb present); [|apply pure_io_ret].
  unfold os_makedirs. now apply pure_io_attempt_call.
Qed.

Lemma save_to_csv_io (data : list user_record) (filename : string) :
  pure_io (fun ev => touches_files ev = true) (save_to_csv E data filename).
Proof.
  unfold save_to_csv, save_to_csv_body.
  apply pure_io_try; [|intros _; apply pure_io_ret].
  apply pure_io_bind; [apply pure_io_get_config | intros config].
  apply pure_io_bind; [apply pure_io_lift | intros v].
  apply pure_io_bind; [apply pure_io_lift | intros dir].
  apply pure_io_bind; [apply os_path_exists_io; auto | intros present].
  apply pure_io_bind.
  { destruct (negb present); [|apply pure_io_ret].
    unfold os_makedirs. now apply pure_io_attempt_call. }
  intros _. cbv zeta. destruct data as [|r data]; [apply pure_io_ret|].
  apply pure_io_bind.
  { unfold write_csv. apply pure_io_bind.
    - now apply pure_io_attempt_call.
    - intros _. now apply pure_io_attempt_call. }
  intros _. apply pure_io_bind; [apply os_getsize_io; auto|].
  intros _. apply pure_io_ret.
Qed.

Lemma save_with_name_io (data : list user_record) (csv_filename : pyval) :
  pure_io (fun ev => touches_files ev = true) (save_with_name E data csv_filename).
Proof.
  assert (Hother :
    pure_io (fun ev => touches_files ev = true)
      (try_except
         (bind get_config (fun config =>
          bind (lift (py_index config "output_dir")) (fun output_dir_v =>
          bind (lift (as_str output_dir_v)) (fun output_dir =>
          bind (os_path_exists E output_dir) (fun present =>
          bind (if negb present then os_makedirs E output_dir else ret tt)
               (fun _ => throw TypeError))))))
         (fun _ => ret false))).
  { apply pure_io_try; [|intros _; apply pure_io_ret].
    apply pure_io_bind; [apply pure_io_get_config | intros config].
    apply pure_io_bind; [apply pure_io_lift | intros v].
    apply pure_io_bind; [apply pure_io_lift | intros dir].
    apply pure_io_bind; [apply os_path_exists_io; auto | intros present].
    apply pure_io_bind; [|intros _; apply pure_io_throw].
    destruct (negb present); [|apply pure_io_ret].
    unfold os_makedirs. now apply pure_io_attempt_call. }
  destruct csv_filename; try exact Hother. apply save_to_csv_io.
Qed.

Lemma save_with_name_true (data : list user_record) (csv_filename : pyval)
    (w w' : world) :
  save_with_name E data csv_filename w = (Ok true, w') ->
  exists f, csv_filename = PStr f.
Proof.
  intros H. destruct csv_filename; try (now eexists);
    (unfold save_with_name in H; apply try_false_inv in H;
     prog_inv H as config w0 Hc; prog_inv H as v w1 Hv;
     prog_inv H as dir w2 Hd; prog_inv H as present w3 Hp;
     prog_inv H as u w4 Hm; discriminate H).
Qed.

Lemma save_with_name_runs (data : list user_record) (csv_filename : pyval)
    (w : world) :
  exists b evs,
    save_with_name E data csv_filename w = (Ok b, log w evs) /\
    file_calls evs.
Proof.
  destruct (pure_io_run w (save_with_name_io data csv_filename))
    as (r & evs & Hrun & Hevs).
  assert (Hok : exists b w',
             save_with_name E data csv_filename w = (Ok b, w')).
  { destruct csv_filename; apply try_false_total. }
  destruct Hok as (b & w' & Hok). rewrite Hok in Hrun.
  inversion Hrun; subst. exists b, evs. split; [|exact Hevs].
  now rewrite Hok.
Qed.

Lemma save_with_name_empty (csv_filename : pyval) (w : world) :
  exists evs,
    save_with_name E [] csv_filename w = (Ok false, log w evs) /\
    existsb is_write_event evs = false.
Proof.
  assert (Hother : exists evs,
    try_except
      (bind get_config (fun config =>
       bind (lift (py_index config "output_dir")) (fun output_dir_v =>
       bind (lift (as_str output_dir_v)) (fun output_dir =>
       bind (os_path_exists E output_dir) (fun present =>
       bind (if negb present then os_makedirs E output_dir else ret tt)
            (fun _ => throw TypeError))))))
      (fun _ => ret false) w = (Ok false, log w evs) /\
    existsb is_write_event evs = false).
  { unfold os_path_exists, os_makedirs, attempt_call.
    unfold try_except, bind, lift, get_config, emit, ret, throw, log.
    destruct w as [c t]. cbn [g_config trace fst snd].
    destruct (py_index c "output_dir") as [v|e].
    2:{ exists []. now rewrite app_nil_r. }
    destruct (as_str v) as [dir|e].
    2:{ exists []. now rewrite app_nil_r. }
    destruct (path_exists E dir); cbn [negb g_config trace].
    - exists [EvExists dir true]. split; reflexivity.
    - destruct (makedirs E dir) as [e|]; cbn [g_config trace].
      + exists [EvExists dir false; EvMakedirs dir (Some e)].
        rewrite <- app_assoc. split; reflexivity.
      + exists [EvExists dir false; EvMakedirs dir None].
        rewrite <- app_assoc. split; reflexivity. }
  destruct csv_filename; try exact Hother. apply save_to_csv_empty.
Qed.

Lemma notify_runs (csv_file_path : option string) (execution_time : pyval)
    (success : bool) (w : world) :
  config_shape (g_config w) = true ->
  notify B E csv_file_path execution_time success w
  = (Ok tt,
     snd (send_email B E csv_file_path execution_time success w)).
Proof.
  intros Hshape.
  destruct (send_email_total B E csv_file_path execution_time success w Hshape)
    as (b & w' & Hs).
  unfold notify, bind. rewrite Hs. reflexivity.
Qed.

Lemma pipeline_runs (api_data elapsed : pyval) (w : world) :
  config_shape (g_config w) = true ->
  exists evs path success,
    file_calls evs /\
    pipeline B E api_data elapsed w
    = (Ok tt, snd (send_email B E path elapsed success (log w evs))) /\
    notification_matches B api_data (g_config w) evs path success.
Proof.
  intros Hshape. unfold pipeline.
  destruct (truthy api_data) eqn:Ht.
  2:{ exists [], None, false. split; [constructor|]. split; [|reflexivity].
      rewrite log_nil. apply try_run_ok. now apply notify_runs. }
  destruct (extract_user_data B api_data) as [data|e] eqn:Hx.
  2:{ exists [], None, false. split; [constructor|]. split; [|reflexivity].
      rewrite log_nil.
      eapply eq_trans;
        [apply try_run_raise with (e := e) (w1 := w);
         apply bind_run_raise; reflexivity|].
      apply try_run_ok. now apply notify_runs. }
  destruct (g_config w) as [| | | | | |kvs] eqn:Hc; try discriminate Hshape.
  destruct (py_get (PDict kvs) "file_name"
              (PStr "Workiva_Account_Aggregation.csv")) as [v|e] eqn:Hv.
  2:{ cbn [py_get] in Hv. destruct (dict_lookup kvs "file_name");
        discriminate Hv. }
  destruct (save_with_name_runs data v w) as (b & evs & Hsave & Hevs).
  assert (Hshape' : config_shape (g_config (log w evs)) = true).
  { cbn [log g_config]. now rewrite Hc. }
  destruct b.
  - destruct (save_with_name_true _ _ _ Hsave) as (f & ->).
    cbn [save_with_name] in Hsave.
    destruct (save_to_csv_true_inv _ _ _ _ Hsave)
      as (Hne & _ & dir & pre & Hdir & Hpre & Htr).
    rewrite Hc in Hdir.
    assert (Hevs' : evs = pre ++ written (path_join dir f)
                                   (sort_by_username (expand_data data))).
    { cbn [log trace] in Htr. now apply app_inv_head in Htr. }
    exists evs, (Some (path_join dir f)), true.
    split; [exact Hevs|]. split.
    + apply try_run_ok.
      run_bind_with data w; [reflexivity|]. cbv beta.
      run_bind_with (PDict kvs) w; [unfold get_config; now rewrite Hc|].
      cbv beta.
      run_bind_with (PStr f) w; [unfold lift; now rewrite Hv|]. cbv beta.
      run_bind_with true (log w evs); [exact Hsave|]. cbv beta iota.
      run_bind_with (PDict kvs) (log w evs);
        [unfold get_config; cbn [log g_config]; now rewrite Hc|].
      cbv beta.
      run_bind_with (PStr dir) (log w evs); [unfold lift; now rewrite Hdir|].
      cbv beta.
      run_bind_with (path_join dir f) (log w evs); [reflexivity|]. cbv beta.
      now apply notify_runs.
    + split; [reflexivity|]. exists data, f, dir, pre. auto 10.
  - exists evs, None, false. split; [exact Hevs|]. split; [|reflexivity].
    apply try_run_ok.
    run_bind_with data w; [reflexivity|]. cbv beta.
    run_bind_with (PDict kvs) w; [unfold get_config; now rewrite Hc|].
    cbv beta.
    run_bind_with v w; [unfold lift; now rewrite Hv|]. cbv beta.
    run_bind_with false (log w evs); [exact Hsave|]. cbv beta iota.
    now apply notify_runs.
Qed.

(** X14.  On a configuration of the shape [load_config] produces, the
    main block, given the value of [make_api_request()], ends normally
    after exactly one call of [send_email], preceded by file-system calls
    only.  That call reports success with a path only when [save_to_csv]
    has just written the sorted expansion of the non-empty extraction
    result to that very path, [output_dir/file_name]; otherwise it reports
    failure with no path. *)
Theorem pipeline_ends_with_one_notification (api_data elapsed : pyval)
    (w : world) :
  config_shape (g_config w) = true ->
  exists evs path success,
    file_calls evs /\
    pipeline B E api_data elapsed w
    = (Ok tt, snd (send_email B E path elapsed success (log w evs))) /\
    notification_matches B api_data (g_config w) evs path success.
Proof. apply pipeline_runs. Qed.

(** X15.  When the request gave nothing, when the extraction raises, or
    when no record survives the filters, the main block writes no file and
    sends the failure notification: [send_email(None, ..., success=False)],
    once. *)
Theorem pipeline_failure_notifies (api_data elapsed : pyval) (w : world) :
  config_shape (g_config w) = true ->
  truthy api_data = false \/
  (exists e, extract_user_data B api_data = Raise e) \/
  extract_user_data B api_data = Ok [] ->
  exists evs,
    existsb is_write_event evs = false /\
    pipeline B E api_data elapsed w
    = (Ok tt, snd (send_email B E None elapsed false (log w evs))).
Proof.
  intros Hshape Hcases. unfold pipeline.
  destruct (truthy api_data) eqn:Ht.
  2:{ exists []. split; [reflexivity|]. rewrite log_nil.
      apply try_run_ok. now apply notify_runs. }
  destruct Hcases as [Hf | [(e & Hx) | Hx]]; [discriminate Hf| |].
  { exists []. split; [reflexivity|]. rewrite log_nil.
    eapply eq_trans;
      [apply try_run_raise with (e := e) (w1 := w);
       apply bind_run_raise; unfold lift; now rewrite Hx|].
    apply try_run_ok. now apply notify_runs. }
  destruct (g_config w) as [| | | | | |kvs] eqn:Hc; try discriminate Hshape.
  destruct (py_get (PDict kvs) "file_name"
              (PStr "Workiva_Account_Aggregation.csv")) as [v|e] eqn:Hv.
  2:{ cbn [py_get] in Hv. destruct (dict_lookup kvs "file_name");
        discriminate Hv. }
  destruct (save_with_name_empty v w) as (evs & Hsave & Hevs).
  exists evs. split; [exact Hevs|].
  apply try_run_ok.
  run_bind_with (@nil user_record) w; [unfold lift; now rewrite Hx|].
  cbv beta.
  run_bind_with (PDict kvs) w; [unfold get_config; now rewrite Hc|].
  cbv beta.
  run_bind_with v w; [unfold lift; now rewrite Hv|]. cbv beta.
  run_bind_with false (log w evs); [exact Hsave|]. cbv beta iota.
  apply notify_runs. cbn [log g_config]. now rewrite Hc.
Qed.



End Pipeline.

(* ================================================================== *)
(** * Further properties: the configuration loader *)

Section LoadConfig.

Variable L : loader_env.
Variable E : environment.

Lemma mapM_ok_in {A C : Type} (f : A -> result C) (l : list A) (rs : list C)
    (x : A) :
  mapM f l = Ok rs -> In x l -> exists r, f x = Ok r /\ In r rs.
Proof.
  revert rs. induction l as [|y l IH]; intros rs Hm Hin; [destruct Hin|].
  cbn [mapM] in Hm. bind_inv Hm. bind_inv Hm. inversion Hm; subst rs.
  destruct Hin as [-> | Hin].
  - exists x0. split; [assumption | now left].
  - destruct (IH _ Hx1 Hin) as (r & Hr & Hr'). exists r.
    split; [assumption | now right].
Qed.

Lemma existsb_false_in {A : Type} (p : A -> bool) (l : list A) (x : A) :
  existsb p l = false -> In x l -> p x = false.
Proof.
  intros Hex Hin. destruct (p x) eqn:Hp; [|reflexivity].
  rewrite <- Hex. symmetry. apply existsb_exists. eauto.
Qed.

Lemma check_key_present (ini : ini_file) (section key : string) :
  check_key ini section key = Ok KeyPresent ->
  ini_has_option ini section key = true /\
  exists v, ini_get ini section key = Ok v /\
            PyStr.nonempty (PyStr.strip v) = true.
Proof.
  unfold check_key. destruct (ini_has_option ini section key);
    cbn [negb]; [|discriminate].
  destruct (ini_get ini section key) as [v|e]; [|discriminate].
  cbn [rbind]. destruct (PyStr.nonempty (PyStr.strip v)) eqn:Hnb;
    cbn [negb]; [|discriminate].
  intros _. split; [reflexivity|]. exists v. split; [reflexivity|].
  exact Hnb.
Qed.

Lemma check_keys_present (ini : ini_file) (states : list key_state)
    (section key : string) :
  check_keys ini = Ok states ->
  existsb is_missing states = false ->
  existsb is_empty states = false ->
  In (section, key) required_options ->
  ini_has_option ini section key = true /\
  exists v, ini_get ini section key = Ok v /\
            PyStr.nonempty (PyStr.strip v) = true.
Proof.
  intros Hk Hmiss Hemp Hin.
  destruct (mapM_ok_in _ _ (section, key) Hk Hin) as (st & Hst & Hin').
  cbn [fst snd] in Hst. apply check_key_present.
  pose proof (existsb_false_in _ _ _ Hmiss Hin') as H1.
  pose proof (existsb_false_in _ _ _ Hemp Hin') as H2.
  destruct st; [assumption | discriminate H1 | discriminate H2].
Qed.

Lemma check_keys_incomplete (ini : ini_file) (section key : string) :
  In (section, key) required_options ->
  ini_has_option ini section key = false \/
  (exists e, ini_get ini section key = Raise e) \/
  (exists v, ini_get ini section key = Ok v /\
             PyStr.nonempty (PyStr.strip v) = false) ->
  match check_keys ini with
  | Ok states => existsb is_missing states || existsb is_empty states = true
  | Raise _ => True
  end.
Proof.
  intros Hin Hbad. destruct (check_keys ini) as [states|e] eqn:Hk; [|exact I].
  destruct (mapM_ok_in _ _ (section, key) Hk Hin) as (st & Hst & Hin').
  cbn [fst snd] in Hst. unfold check_key in Hst.
  assert (Hst' : is_missing st || is_empty st = true).
  { destruct (ini_has_option ini section key); cbn [negb] in Hst.
    - destruct Hbad as [Hf | [(e & He) | (v & Hv & Hblank)]];
        [discriminate Hf | rewrite He in Hst; discriminate Hst|].
      rewrite Hv in Hst. cbn [rbind] in Hst. rewrite Hblank in Hst.
      cbn [negb] in Hst. inversion Hst. reflexivity.
    - inversion Hst. reflexivity. }
  apply orb_true_iff in Hst'. apply orb_true_iff.
  destruct Hst' as [Hm | He]; [left | right];
    apply existsb_exists; eauto.
Qed.

Lemma required_value_ok (ini : ini_file) (section key : string) (x : pyval) :
  required_value ini section key = Ok x ->
  exists v, ini_get ini section key = Ok v /\ x = PStr (strip_quotes v).
Proof.
  unfold required_value. destruct (ini_get ini section key) as [v|e];
    [|discriminate].
  cbn [rbind]. intros H. inversion H. eauto.
Qed.

Lemma email_section_shape (ini : ini_file) (email : pyval) :
  email_section ini = Ok email ->
  exists ekvs, email = PDict ekvs /\ has_credentials email = false.
Proof.
  unfold email_section. destruct (in_list "email" (ini_sections ini)).
  - intros H. do 8 bind_inv H. inversion H; subst email.
    eexists. split; reflexivity.
  - intros H. inversion H; subst email. eexists. split; reflexivity.
Qed.

Lemma ensure_output_dir_io (config_dict : pydict) :
  pure_io (fun ev => touches_files ev = true)
    (ensure_output_dir E config_dict).
Proof.
  unfold ensure_output_dir.
  destruct (dict_lookup config_dict "output_dir") as [v|];
    [|apply pure_io_throw].
  destruct v; try apply pure_io_throw.
  apply pure_io_bind; [apply os_path_exists_io; auto | intros present].
  destruct (negb present); [|apply pure_io_ret].
  apply pure_io_try; [|intros _; apply pure_io_ret].
  unfold os_makedirs. now apply pure_io_attempt_call.
Qed.

Lemma load_config_body_inv (c : pyval) (w w' : world) :
  load_config L E w = (Ok c, w') ->
  c <> PNone ->
  load_config_body L E w = (Ok c, w').
Proof.
  unfold load_config. intros H Hne.
  destruct (config_exists L); cbn [negb] in H.
  - unfold try_except in H.
    destruct (load_config_body L E w) as [[a|e] w1]; [exact H|].
    apply ret_inv in H as [-> _]. congruence.
  - apply ret_inv in H as [-> _]. congruence.
Qed.

Lemma load_config_ok_inv (c : pyval) (w w' : world) :
  load_config L E w = (Ok c, w') ->
  c <> PNone ->
  exists ini config_dict email evs,
    config_parse L = Ok ini /\
    forallb (fun s => in_list s (ini_sections ini)) required_sections
    = true /\
    (forall section key,
       In (section, key) required_options ->
       ini_has_option ini section key = true /\
       exists v, ini_get ini section key = Ok v /\
                 PyStr.nonempty (PyStr.strip v) = true) /\
    required_values ini = Ok config_dict /\
    email_section ini = Ok email /\
    c = PDict (config_dict ++ [("email", email)]) /\
    w' = log w evs /\
    file_calls evs.
Proof.
  intros H Hne. apply load_config_body_inv in H; [|assumption].
  unfold load_config_body in H.
  prog_inv H as u w0 Hstat. apply lift_inv in Hstat as [_ ->].
  prog_inv H as ini w0 Hparse. apply lift_inv in Hparse as [Hparse ->].
  destruct (forallb (fun s => in_list s (ini_sections ini))
              required_sections) eqn:Hsec; cbn [negb] in H.
  2:{ apply ret_inv in H as [-> _]. congruence. }
  prog_inv H as states w0 Hstates. apply lift_inv in Hstates as [Hstates ->].
  destruct (existsb is_missing states) eqn:Hmiss.
  { apply ret_inv in H as [-> _]. congruence. }
  destruct (existsb is_empty states) eqn:Hemp.
  { apply ret_inv in H as [-> _]. congruence. }
  prog_inv H as config_dict w0 Hvals. apply lift_inv in Hvals as [Hvals ->].
  prog_inv H as u2 w1 Hdir.
  prog_inv H as email w2 Hemail. apply lift_inv in Hemail as [Hemail ->].
  apply ret_inv in H as [-> ->].
  destruct (pure_io_run w (ensure_output_dir_io config_dict))
    as (r & evs & Hrun & Hevs).
  rewrite Hdir in Hrun. inversion Hrun; subst.
  exists ini, config_dict, email, evs.
  split; [assumption|]. split; [exact Hsec|].
  split; [intros section key Hin; eapply check_keys_present; eassumption|].
  auto 10.
Qed.

(** X17.  A configuration accepted at import comes from a [config.ini]
    that parsed, has the sections [api], [auth] and [output], and has each
    of the six required options with a value that is not blank; the
    module-level [config] then maps each of these keys to that value with
    surrounding quotes removed, and the four API settings are read from
    it.  Its [email] entry is a dictionary without credentials, so the
    configuration has the shape [send_email] relies on and never makes it
    authenticate.  The loader has made file-system calls only. *)
Theorem imported_config_is_well_formed (w w' : world) :
  import_module L E w = (Ok true, w') ->
  exists ini evs,
    config_parse L = Ok ini /\
    forallb (fun s => in_list s (ini_sections ini)) required_sections
    = true /\
    (forall section key,
       In (section, key) required_options ->
       exists v,
         ini_has_option ini section key = true /\
         ini_get ini section key = Ok v /\
         PyStr.nonempty (PyStr.strip v) = true /\
         py_index (g_config w') key = Ok (PStr (strip_quotes v))) /\
    (exists S,
       settings_of (g_config w') = Ok S /\
       py_index (g_config w') "token_url" = Ok (PStr (token_url S)) /\
       py_index (g_config w') "users_url" = Ok (PStr (users_url S)) /\
       py_index (g_config w') "client_id" = Ok (PStr (client_id S)) /\
       py_index (g_config w') "client_secret"
       = Ok (PStr (client_secret S))) /\
    config_shape (g_config w') = true /\
    (exists email_config,
       py_index (g_config w') "email" = Ok email_config /\
       has_credentials email_config = false) /\
    trace w' = trace w ++ evs /\
    file_calls evs.
Proof.
  intros H. unfold import_module in H.
  prog_inv H as c w1 Hload.
  destruct (truthy c) eqn:Ht; cbn [negb] in H.
  2:{ apply ret_inv in H as [H _]. discriminate H. }
  prog_inv H as u w2 Hset. apply ret_inv in H as [_ ->].
  unfold set_config in Hset. inversion Hset; subst w2. clear Hset.
  cbn [g_config trace].
  assert (Hne : c <> PNone) by (intros ->; discriminate Ht).
  destruct (@load_config_ok_inv c w w1 Hload Hne)
    as (ini & config_dict & email & evs & Hparse & Hsec & Hkeys & Hvals &
        Hemail & -> & -> & Hevs).
  destruct (email_section_shape _ Hemail) as (ekvs & -> & Hcred).
  unfold required_values in Hvals.
  bind_inv Hvals. apply required_value_ok in Hx as (v1 & Hv1 & ->).
  bind_inv Hvals. apply required_value_ok in Hx as (v2 & Hv2 & ->).
  bind_inv Hvals. apply required_value_ok in Hx as (v3 & Hv3 & ->).
  bind_inv Hvals. apply required_value_ok in Hx as (v4 & Hv4 & ->).
  bind_inv Hvals. apply required_value_ok in Hx as (v5 & Hv5 & ->).
  bind_inv Hvals. apply required_value_ok in Hx as (v6 & Hv6 & ->).
  inversion Hvals; subst config_dict. clear Hvals.
  exists ini, evs. split; [assumption|]. split; [assumption|].
  split.
  { intros section key Hin.
    destruct (Hkeys section key Hin) as (Hhas & v & Hv & Hnb).
    exists v. split; [assumption|]. split; [assumption|].
    split; [assumption|].
    cbn in Hin.
    destruct Hin as [Hin|[Hin|[Hin|[Hin|[Hin|[Hin|[]]]]]]];
      inversion Hin; subst section key; cbn; congruence. }
  split.
  { eexists. split; [reflexivity|]. cbn. auto. }
  split; [reflexivity|].
  split; [exists (PDict ekvs); split; [reflexivity | assumption]|].
  split; [reflexivity | assumption].
Qed.

(** X18.  [load_config] returns [None], having touched nothing, and the
    import stops, when [config.ini] is absent, cannot be inspected or
    parsed, lacks one of the sections [api], [auth] and [output], or when
    one of the six required options is missing, cannot be read, or is
    blank - whatever the rest of the file says. *)
Theorem load_config_rejects_incomplete (w : world) :
  config_exists L = false \/
  (exists e, config_stat L = Some e) \/
  (exists e, config_parse L = Raise e) \/
  (exists ini,
     config_parse L = Ok ini /\
     ((exists section,
         In section required_sections /\
         in_list section (ini_sections ini) = false) \/
      (exists section key,
         In (section, key) required_options /\
         (ini_has_option ini section key = false \/
          (exists e, ini_get ini section key = Raise e) \/
          (exists v, ini_get ini section key = Ok v /\
                     PyStr.nonempty (PyStr.strip v) = false))))) ->
  load_config L E w = (Ok PNone, w) /\
  import_module L E w = (Ok false, w).
Proof.
  intros Hbad.
  assert (Hload : load_config L E w = (Ok PNone, w)).
  { unfold load_config.
    destruct (config_exists L) eqn:Hex; cbn [negb]; [|reflexivity].
    destruct Hbad as [Hf | Hbad]; [discriminate Hf|].
    unfold load_config_body, try_except, bind, lift, ret.
    destruct (config_stat L) as [e0|]; [reflexivity|].
    destruct Hbad as [(e & He) | Hbad]; [discriminate He|].
    destruct (config_parse L) as [ini|e0]; [|reflexivity].
    destruct Hbad as [(e & He) | (ini' & Hini & Hbad)]; [discriminate He|].
    inversion Hini; subst ini'. clear Hini.
    destruct (forallb (fun s => in_list s (ini_sections ini))
                required_sections) eqn:Hsec; cbn [negb]; [|reflexivity].
    destruct Hbad as [(section & Hin & Hno) | (section & key & Hin & Hkey)].
    { rewrite forallb_forall in Hsec. rewrite (Hsec _ Hin) in Hno.
      discriminate Hno. }
    pose proof (check_keys_incomplete ini Hin Hkey) as Hk.
    destruct (check_keys ini) as [states|e0]; [|reflexivity].
    apply orb_true_iff in Hk. destruct Hk as [-> | Hk]; [reflexivity|].
    rewrite Hk. now destruct (existsb is_missing states). }
  split; [exact Hload|].
  unfold import_module, bind. now rewrite Hload.
Qed.

End LoadConfig.

(* ================================================================== *)
(** * The further properties on the sample data *)

Lemma extraction_tallies_add_up_witness :
  records_seen sample_state = List.length sample_users /\
  valid_count sample_state = List.length (user_data sample_state).
Proof.
  exact (@extraction_tallies_add_up sample_builtins
           [("data", PList sample_users)] sample_users sample_state
           eq_refl eq_refl).
Defined.

Lemma extracted_records_are_canonical_witness :
  Forall (fun r => canonical r /\ ascii_names r = true)
    (user_data sample_state).
Proof.
  exact (@extracted_records_are_canonical sample_builtins
           (api_response sample_users) (user_data sample_state)
           eq_refl eq_refl).
Defined.

Lemma malformed_record_aborts_extraction_witness :
  extract_user_data sample_builtins
    (PDict [("data", PList ([jane] ++ null_email_user :: [outsider]))])
  = Raise AttributeError.
Proof.
  exact (@malformed_record_aborts_extraction sample_builtins
           [("data", PList ([jane] ++ null_email_user :: [outsider]))]
           [jane] null_email_user [outsider] eq_refl eq_refl eq_refl).
Defined.

Lemma written_rows_carry_one_role_witness :
  exists r,
    In r [jane_record] /\ same_user r jane_user_row /\
    (if PyStr.nonempty (Roles r)
     then plain_role (Roles jane_user_row) = true
     else jane_user_row = r).
Proof.
  apply (@written_rows_carry_one_role [jane_record] jane_user_row).
  - intros r [<- | []]. reflexivity.
  - right. left. reflexivity.
Defined.

Lemma expansion_restores_roles_witness :
  map Roles (expand_record jane_record) = ["Admin"; "User"; "Viewer"] /\
  Forall (same_user jane_record) (expand_record jane_record) /\
  Forall (fun row => plain_role (Roles row) = true)
    (expand_record jane_record).
Proof.
  apply (@expansion_restores_roles jane_attributes
           ["Admin"; "User"; "Viewer"] jane_record).
  - reflexivity.
  - reflexivity.
  - reflexivity.
  - discriminate.
Defined.

Lemma save_true_means_written_witness :
  [jane_record] <> [] /\
  g_config saved_world = g_config start_world /\
  exists dir pre,
    py_index (g_config start_world) "output_dir" = Ok (PStr dir) /\
    existsb is_write_event pre = false /\
    trace saved_world =
      trace start_world ++ pre ++
      [EvOpenWrite (path_join dir "report.csv") None;
       EvWriteRows (path_join dir "report.csv") fieldnames
         (sort_by_username (expand_data [jane_record])) None;
       EvGetsize (path_join dir "report.csv") None].
Proof.
  exact (@save_true_means_written (sample_env (fun _ => refusing))
           [jane_record] "report.csv" start_world saved_world eq_refl).
Defined.

Lemma starttls_failure_is_tolerated_witness :
  endpoint_succeeds (sample_env (fun _ => no_starttls)) sample_email_config
    sample_message 0 (endpoint (PStr "smtp.example.net") (PInt 25) true)
  = endpoint_succeeds (sample_env (fun _ => accepting)) sample_email_config
      sample_message 0 (endpoint (PStr "smtp.example.net") (PInt 25) true).
Proof.
  exact (@starttls_failure_is_tolerated (sample_env (fun _ => accepting))
           (sample_env (fun _ => no_starttls)) sample_email_config
           sample_message 0 (endpoint (PStr "smtp.example.net") (PInt 25) true)
           (Some SMTPException) eq_refl).
Defined.

Lemma send_email_off_is_noop_witness :
  send_email sample_builtins (sample_env (fun _ => accepting)) None
    elapsed_sample false quiet_world
  = (Ok false, quiet_world).
Proof.
  exact (@send_email_off_is_noop sample_builtins
           (sample_env (fun _ => accepting)) None elapsed_sample false
           quiet_world eq_refl).
Defined.

Lemma no_login_without_credentials_witness :
  exists r w' evs,
    send_email sample_builtins (sample_env (fun _ => accepting)) None
      elapsed_sample false start_world = (r, w') /\
    trace w' = trace start_world ++ evs /\
    Forall not_login evs.
Proof.
  apply (@no_login_without_credentials (sample_env (fun _ => accepting))
           sample_builtins None elapsed_sample false start_world).
  intros email_config Hec. injection Hec as <-. reflexivity.
Defined.

Lemma users_requested_only_with_token_witness :
  exists resp token_data token,
    post_token (sample_net sample_users) (token_url sample_settings)
      (client_id sample_settings) (client_secret sample_settings) = Ok resp /\
    raise_for_status resp = None /\
    json resp = Ok token_data /\
    py_index token_data "access_token" = Ok token /\
    truthy token = true /\
    "https://api.example.net/users" = users_url sample_settings /\
    "Bearer tok" = String.append "Bearer " (py_str sample_builtins token).
Proof.
  exact (@users_requested_only_with_token sample_builtins sample_settings
           (sample_net sample_users) "https://api.example.net/users"
           "Bearer tok" None (or_intror (or_introl eq_refl))).
Defined.

Lemma api_data_comes_from_users_response_witness :
  exists authorization resp,
    snd (make_api_request sample_builtins sample_settings
           (sample_net sample_users))
    = [HPost (token_url sample_settings) (client_id sample_settings)
         (client_secret sample_settings) None;
       HGet (users_url sample_settings) authorization None] /\
    get_users (sample_net sample_users) (users_url sample_settings)
      authorization = Ok resp /\
    raise_for_status resp = None /\
    json resp = Ok (api_response sample_users).
Proof.
  apply (@api_data_comes_from_users_response sample_builtins sample_settings
           (sample_net sample_users) (api_response sample_users)).
  - reflexivity.
  - discriminate.
Defined.

Lemma extraction_of_api_data_fails_only_on_a_record_witness :
  exists users pre u post,
    py_index
      (fst (make_api_request sample_builtins sample_settings
              (sample_net [jane; null_email_user]))) "data" = Ok users /\
    py_iter users = Ok (pre ++ u :: post) /\
    Forall (fun p => exists v, process_user sample_builtins p = Ok v) pre /\
    process_user sample_builtins u = Raise AttributeError.
Proof.
  exact (@extraction_of_api_data_fails_only_on_a_record sample_builtins
           sample_settings (sample_net [jane; null_email_user])
           AttributeError eq_refl).
Defined.

Lemma pipeline_ends_with_one_notification_witness :
  exists evs path success,
    file_calls evs /\
    pipeline sample_builtins (sample_env (fun _ => accepting))
      (api_response sample_users) elapsed_sample start_world
    = (Ok tt,
       snd (send_email sample_builtins (sample_env (fun _ => accepting))
              path elapsed_sample success (log start_world evs))) /\
    notification_matches sample_builtins (api_response sample_users)
      (g_config start_world) evs path success.
Proof.
  exact (@pipeline_ends_with_one_notification sample_builtins
           (sample_env (fun _ => accepting)) (api_response sample_users)
           elapsed_sample start_world eq_refl).
Defined.

Lemma pipeline_failure_notifies_witness :
  exists evs,
    existsb is_write_event evs = false /\
    pipeline sample_builtins (sample_env (fun _ => accepting)) PNone
      elapsed_sample start_world
    = (Ok tt,
       snd (send_email sample_builtins (sample_env (fun _ => accepting))
              None elapsed_sample false (log start_world evs))).
Proof.
  exact (@pipeline_failure_notifies sample_builtins
           (sample_env (fun _ => accepting)) PNone elapsed_sample start_world
           eq_refl (or_introl eq_refl)).
Defined.


Lemma imported_config_is_well_formed_witness :
  exists ini evs,
    config_parse sample_loader = Ok ini /\
    forallb (fun s => in_list s (ini_sections ini)) required_sections
    = true /\
    (forall section key,
       In (section, key) required_options ->
       exists v,
         ini_has_option ini section key = true /\
         ini_get ini section key = Ok v /\
         PyStr.nonempty (PyStr.strip v) = true /\
         py_index (g_config imported_world) key
         = Ok (PStr (strip_quotes v))) /\
    (exists S,
       settings_of (g_config imported_world) = Ok S /\
       py_index (g_config imported_world) "token_url"
       = Ok (PStr (token_url S)) /\
       py_index (g_config imported_world) "users_url"
       = Ok (PStr (users_url S)) /\
       py_index (g_config imported_world) "client_id"
       = Ok (PStr (client_id S)) /\
       py_index (g_config imported_world) "client_secret"
       = Ok (PStr (client_secret S))) /\
    config_shape (g_config imported_world) = true /\
    (exists email_config,
       py_index (g_config imported_world) "email" = Ok email_config /\
       has_credentials email_config = false) /\
    trace imported_world = trace blank_world ++ evs /\
    file_calls evs.
Proof.
  exact (@imported_config_is_well_formed sample_loader
           (sample_env (fun _ => refusing)) blank_world imported_world
           eq_refl).
Defined.

Lemma load_config_rejects_incomplete_witness :
  load_config absent_loader (sample_env (fun _ => refusing)) blank_world
  = (Ok PNone, blank_world) /\
  import_module absent_loader (sample_env (fun _ => refusing)) blank_world
  = (Ok false, blank_world).
Proof.
  exact (@load_config_rejects_incomplete absent_loader
           (sample_env (fun _ => refusing)) blank_world
           (or_introl eq_refl)).
Defined.

(* ================================================================== *)
(** * Further properties: the visualization's reading of the file *)

Section LoadData.

Lemma in_list_In (x : string) (l : list string) :
  in_list x l = true <-> In x l.
Proof.
  unfold in_list. rewrite existsb_exists. split.
  - intros (y & Hy & Heq). apply String.eqb_eq in Heq. now subst.
  - intros Hin. exists x. split; [assumption | apply String.eqb_refl].
Qed.

Lemma set_add_in (x r : string) (s : list string) :
  In x (set_add r s) <-> x = r \/ In x s.
Proof.
  unfold set_add. destruct (in_list r s) eqn:Hr.
  - apply in_list_In in Hr. split; [auto|]. intros [->|H]; assumption.
  - rewrite in_app_iff. cbn. split.
    + intros [H|[H|[]]]; auto.
    + intros [H|H]; auto.
Qed.

Lemma set_add_nodup (r : string) (s : list string) :
  NoDup s -> NoDup (set_add r s).
Proof.
  intros Hs. unfold set_add. destruct (in_list r s) eqn:Hr; [assumption|].
  apply NoDup_app; [assumption | repeat constructor; intros [] |].
  intros x Hx [<-|[]]. apply in_list_In in Hx. congruence.
Qed.

Lemma add_role_keys (u r : string) (acc : list (string * list string)) :
  map fst (add_role u r acc)
  = if in_list u (map fst acc) then map fst acc else map fst acc ++ [u].
Proof.
  induction acc as [|[k roles] acc IH]; [reflexivity|].
  cbn [add_role map fst]. unfold in_list. cbn [existsb].
  rewrite (String.eqb_sym u k).
  destruct (String.eqb k u) eqn:Hk; cbn [orb map fst]; [reflexivity|].
  rewrite IH. unfold in_list.
  now destruct (existsb (String.eqb u) (map fst acc)).
Qed.

Lemma add_role_in (u u' r : string) (roles : list string)
    (acc : list (string * list string)) :
  NoDup (map fst acc) ->
  In (u, roles) (add_role u' r acc) ->
  (u <> u' /\ In (u, roles) acc) \/
  (u = u' /\
   ((exists old, In (u, old) acc /\ roles = set_add r old) \/
    (~ In u (map fst acc) /\ roles = set_add r []))).
Proof.
  induction acc as [|[k old] acc IH]; cbn [add_role]; intros Hnd.
  - intros [H|[]]. inversion H; subst. right. split; [reflexivity|].
    right. split; [intros [] | reflexivity].
  - cbn [map fst] in Hnd. inversion Hnd as [|k' l' Hk' Hnd']; subst.
    destruct (String.eqb k u') eqn:Hk.
    + apply String.eqb_eq in Hk. subst k. intros [H|H].
      * inversion H; subst. right. split; [reflexivity|]. left.
        exists old. split; [now left | reflexivity].
      * left. split; [|now right].
        intros ->. apply Hk'. apply in_map_iff. now exists (u', roles).
    + apply String.eqb_neq in Hk. intros [H|H].
      * inversion H; subst. left. split; [congruence | now left].
      * destruct (IH Hnd' H) as [(Hne & Hin) | (-> & Hcase)].
        -- left. split; [assumption | now right].
        -- right. split; [reflexivity|].
           destruct Hcase as [(o & Ho & ->) | (Hnew & ->)].
           ++ left. exists o. split; [now right | reflexivity].
           ++ right. split; [|reflexivity].
              cbn [map fst]. intros [Heq|Hin]; [congruence | auto].
Qed.

Lemma add_role_keys_nodup (u r : string) (acc : list (string * list string)) :
  NoDup (map fst acc) -> NoDup (map fst (add_role u r acc)).
Proof.
  intros Hnd. rewrite add_role_keys.
  destruct (in_list u (map fst acc)) eqn:Hu; [assumption|].
  apply NoDup_app; [assumption | repeat constructor; intros [] |].
  intros x Hx [<-|[]]. apply in_list_In in Hx. congruence.
Qed.

Lemma add_role_has_key (u r : string) (acc : list (string * list string)) :
  In u (map fst (add_role u r acc)) /\
  forall k, In k (map fst acc) -> In k (map fst (add_role u r acc)).
Proof.
  rewrite add_role_keys. destruct (in_list u (map fst acc)) eqn:Hu.
  - apply in_list_In in Hu. auto.
  - split; [apply in_or_app; right; now left|].
    intros k Hk. apply in_or_app. now left.
Qed.

Lemma groups_step (seen : list user_record) (row : user_record)
    (acc : list (string * list string)) :
  groups seen acc ->
  groups (seen ++ [row]) (add_role (Username row) (Roles row) acc).
Proof.
  intros (Hnd & Hroles & Hkeys). split; [|split].
  - now apply add_role_keys_nodup.
  - intros u roles Hin.
    apply add_role_in in Hin; [|assumption].
    destruct Hin as [(Hne & Hin) | (-> & [(old & Hold & ->) | (Hnew & ->)])].
    + destruct (Hroles _ _ Hin) as (Hnd' & Hiff). split; [assumption|].
      intros role. rewrite Hiff. split.
      * intros (row' & Hrow' & Hu & Hr). exists row'.
        split; [apply in_or_app; now left | auto].
      * intros (row' & Hrow' & Hu & Hr). exists row'.
        split; [|auto]. apply in_app_or in Hrow' as [H|[<-|[]]];
          [assumption | congruence].
    + destruct (Hroles _ _ Hold) as (Hnd' & Hiff).
      split; [now apply set_add_nodup|].
      intros role. rewrite set_add_in, Hiff. split.
      * intros [-> | (row' & Hrow' & Hu & Hr)].
        -- exists row. split; [apply in_or_app; right; now left | auto].
        -- exists row'. split; [apply in_or_app; now left | auto].
      * intros (row' & Hrow' & Hu & Hr).
        apply in_app_or in Hrow' as [H|[<-|[]]]; [right; eauto | now left].
    + split; [apply set_add_nodup; constructor|].
      intros role. rewrite set_add_in. split.
      * intros [-> | []]. exists row.
        split; [apply in_or_app; right; now left | auto].
      * intros (row' & Hrow' & Hu & Hr).
        apply in_app_or in Hrow' as [H|[<-|[]]]; [|now left].
        elim Hnew. rewrite <- Hu. now apply Hkeys.
  - intros row' Hrow'.
    destruct (add_role_has_key (Username row) (Roles row) acc) as (Hk1 & Hk2).
    apply in_app_or in Hrow' as [H|[<-|[]]]; [|assumption].
    apply Hk2. now apply Hkeys.
Qed.

Lemma groups_fold (rows seen : list user_record)
    (acc : list (string * list string)) :
  groups seen acc ->
  groups (seen ++ rows)
    (fold_left (fun acc row => add_role (Username row) (Roles row) acc)
       rows acc).
Proof.
  revert seen acc. induction rows as [|row rows IH]; intros seen acc Hg.
  - now rewrite app_nil_r.
  - cbn [fold_left].
    replace (seen ++ row :: rows) with ((seen ++ [row]) ++ rows)
      by now rewrite <- app_assoc.
    apply IH. now apply groups_step.
Qed.

Lemma group_roles_groups (rows : list user_record) :
  groups rows (group_roles rows).
Proof.
  apply (groups_fold rows (seen := []) (acc := [])).
  split; [constructor|]. split; intros; contradiction.
Qed.

Lemma insert_by_key_perm (x : string * list string)
    (l : list (string * list string)) :
  Permutation (x :: l) (insert_by_key x l).
Proof.
  induction l as [|y l IH]; simpl; [reflexivity|].
  destruct (String.ltb (fst y) (fst x)); [|reflexivity].
  rewrite perm_swap. now constructor.
Qed.

Lemma sort_by_key_perm (l : list (string * list string)) :
  Permutation l (sort_by_key l).
Proof.
  induction l as [|x l IH]; simpl; [constructor|].
  rewrite <- insert_by_key_perm. now constructor.
Qed.

Lemma insert_by_key_sorted (x : string * list string)
    (l : list (string * list string)) :
  StronglySorted key_le l -> StronglySorted key_le (insert_by_key x l).
Proof.
  induction 1 as [|y l Hl IH Hy]; simpl.
  - repeat constructor.
  - destruct (String.ltb (fst y) (fst x)) eqn:Hlt.
    + constructor; [assumption|].
      rewrite <- insert_by_key_perm. constructor; [|assumption].
      now apply ltb_leb.
    + apply ltb_false_leb in Hlt.
      constructor; [now constructor|].
      constructor; [assumption|].
      eapply Forall_impl; [|exact Hy].
      intros z Hz. unfold key_le in *. eapply leb_trans; eassumption.
Qed.

Lemma sort_by_key_sorted (l : list (string * list string)) :
  StronglySorted key_le (sort_by_key l).
Proof.
  induction l as [|x l IH]; simpl; [constructor|].
  now apply insert_by_key_sorted.
Qed.

Lemma sorted_distinct_strict (l : list (string * list string)) :
  StronglySorted key_le l -> NoDup (map fst l) -> StronglySorted key_lt l.
Proof.
  induction 1 as [|y l Hl IH Hy]; intros Hnd; [constructor|].
  cbn [map] in Hnd. inversion Hnd as [|k ks Hk Hnd']; subst.
  constructor; [now apply IH|].
  apply Forall_forall. intros z Hz.
  rewrite Forall_forall in Hy. specialize (Hy z Hz).
  unfold key_le in Hy. unfold key_lt, String.ltb.
  destruct (leb_cases _ _ Hy) as [Heq | ->]; [|reflexivity].
  elim Hk. rewrite Heq. now apply in_map.
Qed.

(** X19.  [load_data] lists every user name of the file once, in
    increasing order of the names; the entry of a user holds exactly the
    roles of the rows bearing that name, each once; and the set of all
    roles holds exactly the roles of the rows. *)
Theorem load_data_groups_rows (rows : list user_record) :
  StronglySorted key_lt (fst (load_data rows)) /\
  (forall row, In row rows ->
     exists roles, In (Username row, roles) (fst (load_data rows))) /\
  (forall u roles,
     In (u, roles) (fst (load_data rows)) ->
     NoDup roles /\
     forall role,
       In role roles <->
       exists row, In row rows /\ Username row = u /\ Roles row = role) /\
  (forall role,
     In role (snd (load_data rows)) <->
     exists row, In row rows /\ Roles row = role).
Proof.
  unfold load_data. cbn [fst snd].
  destruct (group_roles_groups rows) as (Hnd & Hroles & Hkeys).
  split; [|split; [|split]].
  - apply sorted_distinct_strict; [apply sort_by_key_sorted|].
    eapply Permutation_NoDup; [|exact Hnd].
    apply Permutation_map. apply sort_by_key_perm.
  - intros row Hrow. specialize (Hkeys row Hrow).
    apply in_map_iff in Hkeys as ([u roles] & Hu & Hin). cbn in Hu. subst u.
    exists roles. eapply Permutation_in; [apply sort_by_key_perm | exact Hin].
  - intros u roles Hin. apply Hroles.
    eapply Permutation_in; [symmetry; apply sort_by_key_perm | exact Hin].
  - assert (Hgen : forall l acc role,
               In role (fold_left (fun acc row => set_add (Roles row) acc)
                          l acc) <->
               In role acc \/ exists row, In row l /\ Roles row = role).
    { induction l as [|row l IH]; intros acc role; cbn [fold_left].
      - split; [auto | intros [H|(row & [] & _)]; exact H].
      - rewrite IH, set_add_in. split.
        + intros [[-> | H] | (row' & Hin & Hr)]; [right | now left | right].
          * exists row. split; [now left | reflexivity].
          * exists row'. split; [now right | assumption].
        + intros [H | (row' & [<- | Hin] & Hr)]; [left; now right | |].
          * left. now left.
          * right. eauto. }
    intros role. rewrite Hgen. split; [intros [[]|H]; exact H | auto].
Qed.

(** X20.  Read back from the file that [save_to_csv] writes for the
    records [data], the visualization shows under a user name exactly the
    roles of the rows into which the records of that name were
    expanded. *)
Theorem visualization_lists_written_roles (data : list user_record)
    (u : string) (roles : list string) :
  In (u, roles) (fst (load_data (sort_by_username (expand_data data)))) ->
  forall role,
    In role roles <->
    exists r row,
      In r data /\ Username r = u /\
      In row (expand_record r) /\ Roles row = role.
Proof.
  intros Hin role. unfold load_data in Hin. cbn [fst] in Hin.
  apply (Permutation_in _ (Permutation_sym (sort_by_key_perm _))) in Hin.
  destruct (group_roles_groups (sort_by_username (expand_data data)))
    as (_ & Hroles & _).
  destruct (Hroles _ _ Hin) as (_ & Hiff). rewrite Hiff. split.
  - intros (row & Hrow & Hu & Hr).
    apply (Permutation_in _ (Permutation_sym (sort_perm _))) in Hrow.
    unfold expand_data in Hrow. apply in_flat_map in Hrow as (r & Hr' & Hrow).
    exists r, row. split; [assumption|].
    destruct (expand_record_row _ _ Hrow) as ((Hname & _) & _).
    split; [congruence | auto].
  - intros (r & row & Hr' & Hu & Hrow & Hrole).
    exists row. split.
    + apply (Permutation_in _ (sort_perm _)). unfold expand_data.
      apply in_flat_map. eauto.
    + destruct (expand_record_row _ _ Hrow) as ((Hname & _) & _).
      split; [congruence | assumption].
Qed.

End LoadData.

Lemma visualization_lists_written_roles_witness :
  In "User" ["Admin"; "User"; "Viewer"] <->
  exists r row,
    In r [jane_record] /\ Username r = "jane.doe" /\
    In row (expand_record r) /\ Roles row = "User".
Proof.
  exact (@visualization_lists_written_roles [jane_record] "jane.doe"
           ["Admin"; "User"; "Viewer"] (or_introl eq_refl) "User").
Defined.

(* ================================================================== *)
(** * A completed handoff and the end of the loop *)

(** C3.  The first endpoint that completes the handoff is not always the
    last one tried.  With the eight endpoints of [send_email]: when the
    first server accepts the message and then fails the QUIT sent on
    leaving the [with] block, the exception reaches the handlers of the
    iteration, and the loop goes on: two connections are opened and the
    message is handed over twice before [True] is returned; when every
    server does so, eight connections are opened, the message is handed
    over eight times, and [False] is returned, by the loop and by
    [send_email]. *)
Theorem completed_handoff_is_not_terminal :
  let eps := map as_endpoint sample_endpoints in
  let one :=
    dispatch_reported (sample_env first_quit_fails) sample_email_config
      sample_message eps start_world in
  let all :=
    dispatch_reported (sample_env (fun _ => quit_fails)) sample_email_config
      sample_message eps start_world in
  completes_handoff (sample_env first_quit_fails) sample_email_config
    sample_message 0 (endpoint (PStr "smtp.example.net") (PInt 25) true)
  = true /\
  fst one = Ok true /\
  connections (trace (snd one))
  = [(PStr "smtp.example.net", PInt 25); (PStr "smtp.example.net", PInt 25)] /\
  List.length (handoffs (trace (snd one))) = 2 /\
  fst all = Ok false /\
  List.length (connections (trace (snd all))) = 8 /\
  List.length (handoffs (trace (snd all))) = 8 /\
  fst (send_email sample_builtins (sample_env (fun _ => quit_fails)) None
         elapsed_sample true start_world) = Ok false.
Proof. cbv zeta. repeat split; vm_compute; reflexivity. Qed.

(* ================================================================== *)
(** * The order of the rows in the file *)

Section WrittenOrder.

Variable E : environment.
Variable data : list user_record.
Variable filename : string.

Lemma save_to_csv_rows :
  pure_io
    (fun ev => forall p header rows r,
                 ev = EvWriteRows p header rows r ->
                 rows = sort_by_username (expand_data data))
    (save_to_csv E data filename).
Proof.
  unfold save_to_csv, save_to_csv_body.
  apply pure_io_try; [|intros _; apply pure_io_ret].
  apply pure_io_bind; [apply pure_io_get_config | intros config].
  apply pure_io_bind; [apply pure_io_lift | intros v].
  apply pure_io_bind; [apply pure_io_lift | intros dir].
  apply pure_io_bind.
  { unfold os_path_exists.
    apply pure_io_bind; [|intros _; apply pure_io_ret].
    apply pure_io_emit. intros p header rows r Heq. discriminate Heq. }
  intros present. apply pure_io_bind.
  { destruct (negb present); [|apply pure_io_ret].
    unfold os_makedirs. apply pure_io_attempt_call.
    intros p header rows r Heq. discriminate Heq. }
  intros _. cbv zeta. destruct data as [|r0 rest] eqn:Hdata;
    [apply pure_io_ret|].
  apply pure_io_bind.
  { unfold write_csv. apply pure_io_bind.
    - apply pure_io_attempt_call.
      intros p header rows r Heq. discriminate Heq.
    - intros _. apply pure_io_attempt_call.
      intros p header rows r Heq. now inversion Heq. }
  intros _. apply pure_io_bind; [|intros _; apply pure_io_ret].
  unfold os_getsize. apply pure_io_attempt_call.
  intros p header rows r Heq. discriminate Heq.
Qed.

(** C9.  The rows that [save_to_csv] hands to the writer are the expanded
    rows sorted by user name: ascending in the order of the character
    codes (so case matters), every expanded row kept, the rows of one user
    name in their original relative order.  Sorting them again changes
    nothing: the sort of the program returns them as they are, and so does
    any stable sort by user name. *)
Theorem written_rows_are_stably_sorted (w : world) (res : result bool)
    (evs : list event) (p : string) (header : list string)
    (rows : list user_record) (r : option exn) :
  save_to_csv E data filename w = (res, log w evs) ->
  In (EvWriteRows p header rows r) evs ->
  StronglySorted username_le rows /\
  Permutation (expand_data data) rows /\
  (forall u, filter (has_username u) rows
             = filter (has_username u) (expand_data data)) /\
  sort_by_username rows = rows /\
  (forall l',
     StronglySorted username_le l' ->
     (forall u, filter (has_username u) l' = filter (has_username u) rows) ->
     l' = rows).
Proof.
  intros Hrun Hin. destruct w as [c t].
  destruct (save_to_csv_rows c) as (r0 & evs0 & Hall & Hrun0).
  rewrite (Hrun0 t) in Hrun. unfold log in Hrun. cbn [g_config trace] in Hrun.
  inversion Hrun as [[Hres Hevs]]. apply app_inv_head in Hevs. subst evs0.
  rewrite Forall_forall in Hall.
  pose proof (Hall _ Hin p header rows r eq_refl) as Hrows. subst rows.
  split; [apply sort_sorted|].
  split; [apply sort_perm|].
  split; [intros u; apply sort_stable|].
  split; [apply sort_of_sorted, StronglySorted_Sorted, sort_sorted|].
  intros l' Hs Hf. apply stable_sorted_unique;
    [assumption | apply sort_sorted | assumption].
Qed.

End WrittenOrder.

Example unsorted_records_are_reordered :
  expand_data unsorted_records
  = [zoe_record;
     {| Username := "jane.doe"; Email := "jane.doe@sce.com";
        Active := "True"; Roles := "Admin" |};
     {| Username := "jane.doe"; Email := "jane.doe@sce.com";
        Active := "True"; Roles := "User" |};
     {| Username := "jane.doe"; Email := "jane.doe@sce.com";
        Active := "True"; Roles := "Viewer" |}] /\
  sort_by_username (expand_data unsorted_records)
  = [{| Username := "jane.doe"; Email := "jane.doe@sce.com";
        Active := "True"; Roles := "Admin" |};
     {| Username := "jane.doe"; Email := "jane.doe@sce.com";
        Active := "True"; Roles := "User" |};
     {| Username := "jane.doe"; Email := "jane.doe@sce.com";
        Active := "True"; Roles := "Viewer" |};
     zoe_record].
Proof. split; reflexivity. Qed.

Lemma written_rows_are_stably_sorted_witness :
  StronglySorted username_le (sort_by_username (expand_data unsorted_records)) /\
  Permutation (expand_data unsorted_records)
    (sort_by_username (expand_data unsorted_records)) /\
  (forall u,
     filter (has_username u) (sort_by_username (expand_data unsorted_records))
     = filter (has_username u) (expand_data unsorted_records)) /\
  sort_by_username (sort_by_username (expand_data unsorted_records))
  = sort_by_username (expand_data unsorted_records) /\
  (forall l',
     StronglySorted username_le l' ->
     (forall u,
        filter (has_username u) l'
        = filter (has_username u)
            (sort_by_username (expand_data unsorted_records))) ->
     l' = sort_by_username (expand_data unsorted_records)).
Proof.
  exact (@written_rows_are_stably_sorted (sample_env (fun _ => refusing))
           unsorted_records "report.csv" start_world (Ok true)
           (trace unsorted_saved) "out/report.csv" fieldnames
           (sort_by_username (expand_data unsorted_records)) None
           eq_refl (or_intror (or_intror (or_introl eq_refl)))).
Defined.
